(** * csv-to-parquet: the converter core, embedded and verified

    The definitions follow [converter/converter.go] and [config/config.go]
    function by function.  Go strings are byte strings; a [string] here is
    the same sequence of bytes.  Functions of the Go standard library that
    the converter calls on strings ([strings.TrimSpace], [strings.ToLower]
    on ASCII strings, [strconv.ParseInt], [path/filepath]) are written out
    on bytes; the ones whose result is a float or a time
    ([strconv.ParseFloat], [time.Parse]), the case mapping of strings that
    are not ASCII, and the ones that touch the file system are taken as an
    interface.
    Logging decides nothing in the converter and is left out. *)

From Stdlib Require Import ZArith String Ascii List Bool Lia DecimalString.
From stdpp Require Import base list.
Import ListNotations.

Local Open Scope Z_scope.

(** ** Field types ([type fieldType int] and its [iota] constants) *)

Inductive fieldType : Type :=
  | typeString
  | typeInt64
  | typeFloat64
  | typeBool
  | typeDate
  | typeTimestamp.

Definition fieldType_eqb (a b : fieldType) : bool :=
  match a, b with
  | typeString, typeString | typeInt64, typeInt64 | typeFloat64, typeFloat64
  | typeBool, typeBool | typeDate, typeDate | typeTimestamp, typeTimestamp => true
  | _, _ => false
  end.

Definition parquetTag (t : fieldType) : string :=
  match t with
  | typeInt64 => "type=INT64"
  | typeFloat64 => "type=DOUBLE"
  | typeBool => "type=BOOLEAN"
  | _ => "type=BYTE_ARRAY, convertedtype=UTF8"
  end.

Definition label (t : fieldType) : string :=
  match t with
  | typeInt64 => "INT64"
  | typeFloat64 => "DOUBLE"
  | typeBool => "BOOLEAN"
  | _ => "UTF8"
  end.

(** ** [widenType]: the wider of two types (string is widest) *)

Definition widenType (current new : fieldType) : fieldType :=
  if fieldType_eqb current typeString || fieldType_eqb new typeString then typeString
  else if fieldType_eqb current typeFloat64 || fieldType_eqb new typeFloat64 then
    if fieldType_eqb current typeBool || fieldType_eqb new typeBool then typeString
    else typeFloat64
  else if fieldType_eqb current typeBool && fieldType_eqb new typeBool then typeBool
  else if negb (Bool.eqb (fieldType_eqb current typeBool) (fieldType_eqb new typeBool))
    then typeString
  else if fieldType_eqb current typeInt64 && fieldType_eqb new typeInt64 then typeInt64
  else typeString.

(** The join table of the specification, row by row, on the four types the
    specification's FieldType has. *)
Definition specFieldTypes : list fieldType :=
  [typeInt64; typeFloat64; typeBool; typeString].

Definition isSpecType (t : fieldType) : bool :=
  existsb (fieldType_eqb t) specFieldTypes.

Definition joinTable (current new : fieldType) : fieldType :=
  match current, new with
  | typeInt64, typeInt64 => typeInt64
  | typeInt64, typeFloat64 => typeFloat64
  | typeInt64, typeBool => typeString
  | typeInt64, typeString => typeString
  | typeFloat64, typeInt64 => typeFloat64
  | typeFloat64, typeFloat64 => typeFloat64
  | typeFloat64, typeBool => typeString
  | typeFloat64, typeString => typeString
  | typeBool, typeInt64 => typeString
  | typeBool, typeFloat64 => typeString
  | typeBool, typeBool => typeBool
  | typeBool, typeString => typeString
  | _, _ => typeString
  end.

(** ** Byte strings *)

Definition byte (c : ascii) : N := N_of_ascii c.

Definition bytes (s : string) : list ascii := list_ascii_of_string s.
Definition ofBytes (l : list ascii) : string := string_of_list_ascii l.

(** [strings.TrimPrefix]. *)
Fixpoint stripPrefix (prefix s : list ascii) : option (list ascii) :=
  match prefix, s with
  | [], _ => Some s
  | p :: prefix', c :: s' => if Ascii.eqb p c then stripPrefix prefix' s' else None
  | _ :: _, [] => None
  end.

Definition TrimPrefix (s prefix : string) : string :=
  match stripPrefix (bytes prefix) (bytes s) with
  | Some rest => ofBytes rest
  | None => s
  end.

Definition HasSuffix (s suffix : string) : bool :=
  match stripPrefix (rev (bytes suffix)) (rev (bytes s)) with
  | Some _ => true
  | None => false
  end.

(** [strings.TrimSuffix]. *)
Definition TrimSuffix (s suffix : string) : string :=
  match stripPrefix (rev (bytes suffix)) (rev (bytes s)) with
  | Some rest => ofBytes (rev rest)
  | None => s
  end.

(** [strings.TrimSpace] removes the runes of Unicode's White_Space property
    from both ends.  On bytes these are the six ASCII spaces and the UTF-8
    encodings of U+0085, U+00A0, U+1680, U+2000..U+200A, U+2028, U+2029,
    U+202F, U+205F and U+3000; a byte that does not start (or, from the
    right, end) one of these encodings stops the trimming, as an invalid
    or non-space rune does in Go. *)
Definition asciiSpace (c : ascii) : bool :=
  let n := byte c in
  (N.leb 9 n && N.leb n 13) || N.eqb n 32.

Definition spaceRune2 (b1 b2 : ascii) : bool :=
  N.eqb (byte b1) 194 && (N.eqb (byte b2) 133 || N.eqb (byte b2) 160).

Definition spaceRune3 (b1 b2 b3 : ascii) : bool :=
  let n1 := byte b1 in let n2 := byte b2 in let n3 := byte b3 in
  (N.eqb n1 225 && N.eqb n2 154 && N.eqb n3 128)
  || (N.eqb n1 226 && N.eqb n2 128
        && ((N.leb 128 n3 && N.leb n3 138) || N.eqb n3 168 || N.eqb n3 169
            || N.eqb n3 175))
  || (N.eqb n1 226 && N.eqb n2 129 && N.eqb n3 159)
  || (N.eqb n1 227 && N.eqb n2 128 && N.eqb n3 128).

(** One pass from the front of [s]; with [fromEnd] the list is the string
    reversed, so a rune's bytes come last byte first. *)
Fixpoint stripSpaces (fromEnd : bool) (s : list ascii) : list ascii :=
  match s with
  | [] => []
  | c1 :: r1 =>
    if asciiSpace c1 then stripSpaces fromEnd r1
    else match r1 with
      | [] => s
      | c2 :: r2 =>
        if (if fromEnd then spaceRune2 c2 c1 else spaceRune2 c1 c2)
        then stripSpaces fromEnd r2
        else match r2 with
          | [] => s
          | c3 :: r3 =>
            if (if fromEnd then spaceRune3 c3 c2 c1 else spaceRune3 c1 c2 c3)
            then stripSpaces fromEnd r3
            else s
          end
      end
  end.

Definition TrimSpace (s : string) : string :=
  ofBytes (rev (stripSpaces true (rev (stripSpaces false (bytes s))))).

(** The byte loop of [strings.ToLower] for a string of ASCII bytes:
    [if 'A' <= c && c <= 'Z' { c += 'a' - 'A' }]. *)
Definition lowerByte (c : ascii) : ascii :=
  let n := byte c in
  if N.leb 65 n && N.leb n 90 then ascii_of_N (n + 32) else c.

(** [c >= utf8.RuneSelf] for no byte of the string. *)
Definition isASCII (s : string) : bool :=
  forallb (fun c => N.ltb (byte c) 128) (bytes s).

(** [strings.ReplaceAll] for a pattern of one byte, which is what every
    call in the converter passes. *)
Fixpoint replaceByte (old : ascii) (new : list ascii) (s : list ascii) : list ascii :=
  match s with
  | [] => []
  | c :: r => (if Ascii.eqb c old then new else [c]) ++ replaceByte old new r
  end.

Definition ReplaceAll (s : string) (old : ascii) (new : string) : string :=
  ofBytes (replaceByte old (bytes new) (bytes s)).

(** [strings.Join]. *)
Fixpoint Join (elems : list string) (sep : string) : string :=
  match elems with
  | [] => EmptyString
  | [e] => e
  | e :: rest => String.append e (String.append sep (Join rest sep))
  end.

(** [%d] of [fmt.Sprintf]. *)
Definition formatInt (v : Z) : string := NilZero.string_of_int (Z.to_int v).

(** [strconv.ParseInt(s, 10, 64)]: an optional sign, then one or more
    decimal digits, and the value within the signed 64-bit range. *)
Definition digitValue (c : ascii) : option Z :=
  let n := byte c in
  if N.leb 48 n && N.leb n 57 then Some (Z.of_N n - 48) else None.

Fixpoint parseDigits (acc : Z) (s : list ascii) : option Z :=
  match s with
  | [] => Some acc
  | c :: r =>
    match digitValue c with
    | Some d => parseDigits (acc * 10 + d) r
    | None => None
    end
  end.

Definition ParseInt (s : string) : option Z :=
  match bytes s with
  | [] => None
  | c :: r =>
    let neg := N.eqb (byte c) 45 in
    let body := if neg || N.eqb (byte c) 43 then r else c :: r in
    match body with
    | [] => None
    | _ =>
      match parseDigits 0 body with
      | None => None
      | Some un =>
        if neg then (if un <=? 2 ^ 63 then Some (- un) else None)
        else (if un <? 2 ^ 63 then Some un else None)
      end
    end
  end.

(** ** What the converter takes from the Go libraries

    [strconv.ParseFloat(s, 64)] (the value, or nothing when it reports an
    error), the [%g] formatting of a float, [time.Parse layout value]
    (whether it succeeds), and [strings.Map(unicode.ToLower, s)], the
    rune by rune case mapping that [strings.ToLower] applies to a string
    with a byte from 0x80 up. *)

Class GoLib := {
  float64 : Type;
  ParseFloat : string -> option float64;
  format_g : float64 -> string;
  time_Parse : string -> string -> bool;
  Map_unicode_ToLower : string -> string
}.

(** ** The CSV reader

    [csv.Reader.Read] returns a record, [io.EOF], or another error.  A
    reader is the outcomes its file still holds, in order; past the last
    one every read is [io.EOF].  [reads] counts the calls of [Read].  With
    the reader's default settings a row whose number of fields differs
    from the first row's is returned with [csv.ErrFieldCount], so it is a
    [Malformed] outcome here. *)

Inductive ReadOutcome : Type :=
  | Row (record : list string)
  | Malformed.

Record Reader : Type := mkReader { pending : list ReadOutcome; reads : nat }.

Inductive ReadResult : Type :=
  | Record_ (record : list string)
  | ErrEOF
  | ErrOther.

Definition csvRead (r : Reader) : ReadResult * Reader :=
  match pending r with
  | [] => (ErrEOF, mkReader [] (S (reads r)))
  | Row record :: rest => (Record_ record, mkReader rest (S (reads r)))
  | Malformed :: rest => (ErrOther, mkReader rest (S (reads r)))
  end.

Definition newReader (outcomes : list ReadOutcome) : Reader := mkReader outcomes 0.

(** ** Schema detection *)

Definition BOM : string :=
  String (ascii_of_N 239) (String (ascii_of_N 187) (String (ascii_of_N 191) EmptyString)).

Definition RFC3339 : string := "2006-01-02T15:04:05Z07:00".

Definition dateFormats : list string :=
  [ "2006-01-02"; "02/01/2006"; "01/02/2006"; "2006-01-02T15:04:05";
    "2006-01-02 15:04:05"; RFC3339 ]%string.

Definition backslash : ascii := ascii_of_N 92.
Definition dquote : ascii := ascii_of_N 34.

Definition isEmpty (s : string) : bool :=
  match s with EmptyString => true | _ => false end.

Section Detect.
Context {lib : GoLib}.

(** [strings.ToLower]: a string of ASCII bytes has its letters lowered
    byte by byte; any other string is mapped rune by rune. *)
Definition ToLower (s : string) : string :=
  if isASCII s then ofBytes (map lowerByte (bytes s)) else Map_unicode_ToLower s.

(** The loop over [dateFormats] of [inferType]: the type returned at the
    first layout that parses, if any. *)
Fixpoint matchDateFormats (formats : list string) (val : string) : option fieldType :=
  match formats with
  | [] => None
  | layout :: rest =>
    if time_Parse layout val then Some typeString (* store dates as strings *)
    else matchDateFormats rest val
  end.

Definition inferType (val : string) : fieldType :=
  let val := TrimSpace val in
  if isEmpty val then typeString
  else
    let lower := ToLower val in
    if String.eqb lower "true" || String.eqb lower "false" then typeBool
    else match ParseInt val with
      | Some _ => typeInt64
      | None =>
        match ParseFloat val with
        | Some _ => typeFloat64
        | None =>
          match matchDateFormats dateFormats val with
          | Some t => t
          | None => typeString
          end
        end
      end.

(** Header cleaning, the body of the first loop of [detectSchema]. *)
Definition cleanHeader (i : nat) (h : string) : string :=
  let h := TrimPrefix h BOM in
  let h := TrimSpace h in
  let h := ReplaceAll h " " "_" in
  let h := ReplaceAll h "." "_" in
  if isEmpty h then String.append "column_" (formatInt (Z.of_nat i)) else h.

(** [for i, h := range headers { ...; headers[i] = h }]: the slice is
    updated in place while it is ranged over. *)
Fixpoint cleanHeadersFrom (i : nat) (todo headers : list string) : list string :=
  match todo with
  | [] => headers
  | h :: rest => cleanHeadersFrom (S i) rest (<[i := cleanHeader i h]> headers)
  end.

Definition cleanHeaders (headers : list string) : list string :=
  cleanHeadersFrom 0 headers headers.

(** [for i, val := range record] of the sampling loop: cells beyond the
    last column end the row, an empty cell is skipped, any other cell
    widens its column. *)
Fixpoint sampleRecord (i : nat) (record : list string) (types : list fieldType)
  : list fieldType :=
  match record with
  | [] => types
  | val :: rest =>
    match types !! i with
    | None => types (* i >= len(types): break *)
    | Some t =>
      if isEmpty val then sampleRecord (S i) rest types
      else sampleRecord (S i) rest (<[i := widenType t (inferType val)]> types)
    end
  end.

(** [for row := 0; row < sampleRows; row++]: [budget] iterations are
    left. *)
Fixpoint sampleLoop (budget : nat) (r : Reader) (types : list fieldType)
  : list fieldType * Reader :=
  match budget with
  | O => (types, r)
  | S budget' =>
    match csvRead r with
    | (ErrEOF, r') => (types, r')
    | (ErrOther, r') => sampleLoop budget' r' types
    | (Record_ record, r') => sampleLoop budget' r' (sampleRecord 0 record types)
    end
  end.

(** [detectSchema] from the point where the reader exists: the header
    row, the cleaning, the sampling.  [inl] is the error returned. *)
Definition detectSchemaFrom (r : Reader) (sampleRows : Z)
  : (string + list string * list fieldType) * Reader :=
  match csvRead r with
  | (Record_ headers, r1) =>
    let headers := cleanHeaders headers in
    let types := replicate (length headers) typeInt64 in
    let '(types, r2) := sampleLoop (Z.to_nat sampleRows) r1 types in
    (inr (headers, types), r2)
  | (ErrEOF, r1) => (inl "reading headers: EOF"%string, r1)
  | (ErrOther, r1) => (inl "reading headers: parse error"%string, r1)
  end.

(** What one read attempt of the sampling loop adds to the types. *)
Definition attemptEvidence (types : list fieldType) (o : ReadOutcome) : list fieldType :=
  match o with
  | Row record => sampleRecord 0 record types
  | Malformed => types
  end.

(** ** The record encoder *)

Definition escapeJSON (val : string) : string :=
  let escaped := ReplaceAll val backslash (ofBytes [backslash; backslash]) in
  ReplaceAll escaped dquote (ofBytes [backslash; dquote]).

Definition quoted (s : string) : string :=
  String dquote (String.append s (String dquote EmptyString)).

(** The [switch types[i]] of [recordToJSON], for a non-empty value: the
    part appended for header [h], or none when the number does not
    parse. *)
Definition encodeField (h : string) (t : fieldType) (val : string) : option string :=
  match t with
  | typeInt64 =>
    match ParseInt val with
    | Some v => Some (String.append (quoted h) (String.append ":" (formatInt v)))
    | None => None
    end
  | typeFloat64 =>
    match ParseFloat val with
    | Some v => Some (String.append (quoted h) (String.append ":" (format_g v)))
    | None => None
    end
  | typeBool =>
    Some (String.append (quoted h) (String.append ":" (ToLower val)))
  | _ =>
    Some (String.append (quoted h) (String.append ":" (quoted (escapeJSON val))))
  end.

(** [var val string; if i < len(record) { val = strings.TrimSpace(record[i]) }] *)
Definition cellValue (record : list string) (i : nat) : string :=
  match record !! i with
  | Some cell => TrimSpace cell
  | None => EmptyString
  end.

(** [for i, h := range headers] of [recordToJSON].  [types[i]] is read
    only for a non-empty value; out of range it is a run-time panic,
    [None] here. *)
Fixpoint recordToJSONFrom (i : nat) (todo : list string) (record : list string)
    (types : list fieldType) (parts : list string) : option (list string) :=
  match todo with
  | [] => Some parts
  | h :: rest =>
    let val := cellValue record i in
    if isEmpty val then recordToJSONFrom (S i) rest record types parts
    else
      match types !! i with
      | None => None
      | Some t =>
        match encodeField h t val with
        | Some part => recordToJSONFrom (S i) rest record types (parts ++ [part])
        | None => recordToJSONFrom (S i) rest record types parts
        end
      end
  end.

Definition recordParts (record headers : list string) (types : list fieldType)
  : option (list string) :=
  recordToJSONFrom 0 headers record types [].

Definition recordToJSON (record headers : list string) (types : list fieldType)
  : option string :=
  match recordParts record headers types with
  | Some parts => Some (String.append "{" (String.append (Join parts ",") "}"))
  | None => None
  end.

(** *** The statements of the specification, in its words *)

(** A non-empty cell's type: boolean literal, else integer, else float,
    else a date pattern (still String), else String. *)
Definition isBoolLiteral (v : string) : bool :=
  String.eqb (ToLower v) "true" || String.eqb (ToLower v) "false".

Definition matchesDatePattern (v : string) : bool :=
  existsb (fun layout => time_Parse layout v) dateFormats.

Definition classifySpec (v : string) : fieldType :=
  if isBoolLiteral v then typeBool
  else if bool_decide (is_Some (ParseInt v)) then typeInt64
  else if bool_decide (is_Some (ParseFloat v)) then typeFloat64
  else if matchesDatePattern v then typeString
  else typeString.

(** Column [i] of a row is present in the encoding: the row has the
    cell, it trims to a non-empty string, and it parses when the column
    is numeric. *)
Definition fieldPresent (record : list string) (types : list fieldType) (i : nat) : Prop :=
  exists cell, record !! i = Some cell
    /\ TrimSpace cell <> EmptyString
    /\ (types !! i = Some typeInt64 -> is_Some (ParseInt (TrimSpace cell)))
    /\ (types !! i = Some typeFloat64 -> is_Some (ParseFloat (TrimSpace cell))).

(** The field of column [i] in the encoding of a row, if any. *)
Definition columnField (record headers : list string) (types : list fieldType) (i : nat)
  : option string :=
  match headers !! i, types !! i with
  | Some h, Some t =>
    if isEmpty (cellValue record i) then None else encodeField h t (cellValue record i)
  | _, _ => None
  end.

(** The Record Encoder in the words of the specification: the sparse
    typed representation of a row is the ordered present (name, typed
    value) pairs. *)
Inductive TypedValue : Type :=
  | IntValue (v : Z)
  | FloatValue (v : float64)
  | BoolValue (token : string)
  | TextValue (text : string).

(** The conversion by the column's decided type: an integer or a float
    parsed from the value, none when it does not parse; the lower-cased
    token for Bool; the text itself otherwise. *)
Definition typedValue (t : fieldType) (val : string) : option TypedValue :=
  match t with
  | typeInt64 =>
    match ParseInt val with Some v => Some (IntValue v) | None => None end
  | typeFloat64 =>
    match ParseFloat val with Some v => Some (FloatValue v) | None => None end
  | typeBool => Some (BoolValue (ToLower val))
  | _ => Some (TextValue val)
  end.

(** The rule per column: no pair when the row has no cell at the column's
    position or the cell trims to empty; otherwise the column's name with
    the trimmed cell converted. *)
Definition sparseField (record headers : list string) (types : list fieldType) (i : nat)
  : option (string * TypedValue) :=
  match headers !! i, types !! i, record !! i with
  | Some name, Some t, Some cell =>
    if isEmpty (TrimSpace cell) then None
    else match typedValue t (TrimSpace cell) with
         | Some v => Some (name, v)
         | None => None
         end
  | _, _, _ => None
  end.

Definition sparseRow (record headers : list string) (types : list fieldType)
  : list (string * TypedValue) :=
  omap (sparseField record headers types) (seq 0 (length headers)).

(** The serialized form of a sparse row, a JSON object: each pair is the
    name in quotes, a colon and the value; an integer in decimal, a float
    in its general format, a boolean token as it is, a text in quotes with
    every backslash and every double quote preceded by a backslash. *)
Definition escapeText (text : string) : string :=
  ofBytes (concat (map (fun c => if Ascii.eqb c backslash || Ascii.eqb c dquote
                                 then [backslash; c] else [c])
                       (bytes text))).

Definition serializeValue (v : TypedValue) : string :=
  match v with
  | IntValue v => formatInt v
  | FloatValue v => format_g v
  | BoolValue token => token
  | TextValue text => quoted (escapeText text)
  end.

Definition serializeField (f : string * TypedValue) : string :=
  String.append (quoted (fst f)) (String.append ":" (serializeValue (snd f))).

Definition serializeRow (fields : list (string * TypedValue)) : string :=
  String.append "{" (String.append (Join (map serializeField fields) ",") "}").
End Detect.

(** A small instance of the library interface on which the definitions
    run: a float is a plain decimal [digits.digits] with an optional minus
    sign, kept as its text, the only time layout recognised is the plain
    date, on values of the shape [dddd-dd-dd], and the case mapping of a
    string that is not ASCII leaves it as it is. *)
Definition allDigits (l : list ascii) : bool :=
  negb (bool_decide (l = [])) && forallb (fun c => bool_decide (is_Some (digitValue c))) l.

Fixpoint splitAtDot (l : list ascii) : option (list ascii * list ascii) :=
  match l with
  | [] => None
  | c :: r =>
    if N.eqb (byte c) 46 then Some ([], r)
    else match splitAtDot r with
      | Some (a, b) => Some (c :: a, b)
      | None => None
      end
  end.

Definition plainDecimal (s : string) : option string :=
  let body := match bytes s with
              | c :: r => if N.eqb (byte c) 45 then r else c :: r
              | [] => []
              end in
  match splitAtDot body with
  | Some (a, b) => if allDigits a && allDigits b then Some s else None
  | None => None
  end.

Definition plainDate (layout val : string) : bool :=
  String.eqb layout "2006-01-02" &&
  match bytes val with
  | [y1; y2; y3; y4; d1; m1; m2; d2; a1; a2] =>
    allDigits [y1; y2; y3; y4; m1; m2; a1; a2]
    && N.eqb (byte d1) 45 && N.eqb (byte d2) 45
  | _ => false
  end.

Definition sampleLib : GoLib :=
  {| float64 := string; ParseFloat := plainDecimal; format_g := fun v => v;
     time_Parse := plainDate; Map_unicode_ToLower := fun s => s |}.

(** ** Paths ([path/filepath] on a Unix system: separator [/], no volume) *)

Definition isSep (c : ascii) : bool := N.eqb (byte c) 47.
Definition isDot (c : ascii) : bool := N.eqb (byte c) 46.

Fixpoint dropWhile {A} (f : A -> bool) (l : list A) : list A :=
  match l with
  | [] => []
  | x :: r => if f x then dropWhile f r else l
  end.

Fixpoint takeWhile {A} (f : A -> bool) (l : list A) : list A :=
  match l with
  | [] => []
  | x :: r => if f x then x :: takeWhile f r else []
  end.

(** [filepath.Ext]: from the last dot of the last element, scanning
    backwards; [acc] is what was scanned. *)
Fixpoint extScan (reversed acc : list ascii) : list ascii :=
  match reversed with
  | [] => []
  | c :: r =>
    if isSep c then []
    else if isDot c then c :: acc
    else extScan r (c :: acc)
  end.

Definition Ext (path : string) : string := ofBytes (extScan (rev (bytes path)) []).

(** [filepath.Base]: the last element, trailing slashes removed first. *)
Definition Base (path : string) : string :=
  if isEmpty path then "."%string
  else
    let stripped := dropWhile isSep (rev (bytes path)) in
    let last := rev (takeWhile (fun c => negb (isSep c)) stripped) in
    match last with
    | [] => "/"%string
    | _ => ofBytes last
    end.

(** [filepath.Clean], by the four rules of its documentation: multiple
    separators become one, [.] elements go, an inner [..] goes with the
    element before it, and a [..] that begins a rooted path goes.  The
    elements kept are a stack, last one first. *)
Fixpoint splitSep (l : list ascii) : list (list ascii) :=
  match l with
  | [] => [[]]
  | c :: r =>
    if isSep c then [] :: splitSep r
    else match splitSep r with
      | x :: xs => (c :: x) :: xs
      | [] => [[c]]
      end
  end.

Definition dotdot : list ascii := ["."%char; "."%char].

Definition isDotElem (e : list ascii) : bool :=
  match e with [c] => isDot c | _ => false end.

Definition isDotDot (e : list ascii) : bool :=
  match e with [c1; c2] => isDot c1 && isDot c2 | _ => false end.

Definition cleanStep (rooted : bool) (stack : list (list ascii)) (e : list ascii)
  : list (list ascii) :=
  match e with
  | [] => stack
  | _ =>
    if isDotElem e then stack
    else if isDotDot e then
      match stack with
      | top :: below => if isDotDot top then e :: stack else below
      | [] => if rooted then [] else [e]
      end
    else e :: stack
  end.

Fixpoint joinSep (elems : list (list ascii)) : list ascii :=
  match elems with
  | [] => []
  | [e] => e
  | e :: rest => e ++ "/"%char :: joinSep rest
  end.

Definition isRooted (l : list ascii) : bool :=
  match l with c :: _ => isSep c | [] => false end.

Definition cleanBytes (l : list ascii) : list ascii :=
  let rooted := isRooted l in
  let stack := fold_left (cleanStep rooted) (splitSep l) [] in
  let out := (if rooted then ["/"%char] else []) ++ joinSep (rev stack) in
  match out with
  | [] => ["."%char]
  | _ => out
  end.

Definition Clean (path : string) : string := ofBytes (cleanBytes (bytes path)).

(** [filepath.Dir]: all but the last element, cleaned. *)
Definition Dir (path : string) : string :=
  ofBytes (cleanBytes (rev (dropWhile (fun c => negb (isSep c)) (rev (bytes path))))).

(** [filepath.Join]: the elements from the first non-empty one on, joined
    by the separator and cleaned. *)
Fixpoint filepathJoin (elem : list string) : string :=
  match elem with
  | [] => EmptyString
  | e :: rest => if isEmpty e then filepathJoin rest else Clean (Join elem "/")
  end.

(** ** Configuration ([config.Config]) *)

Record Config : Type := mkConfig {
  InputPath : string;
  OutputDir : string;
  DeleteOriginal : bool;
  LogLevel : string;
  BatchSize : Z;
  Delimiter : string;
  SampleRows : Z
}.

(** The command line of [config.Load], as [pflag] parses it. *)
Record Flags : Type := mkFlags {
  flag_config : string;
  flag_input : string;
  flag_output : string;
  flag_keep : bool;
  flag_log_level : string;
  flag_batch_size : Z;
  flag_delimiter : string;
  flag_sample_rows : Z
}.

(** A YAML document for [Config]: [yaml.Unmarshal] sets the fields the
    document has and leaves the others. *)
Record YamlDoc : Type := mkYaml {
  yaml_input : option string;
  yaml_output : option string;
  yaml_delete_original : option bool;
  yaml_log_level : option string;
  yaml_batch_size : option Z;
  yaml_delimiter : option string;
  yaml_sample_rows : option Z
}.

(** What [os.ReadFile] and the YAML parser give for the configuration
    file. *)
Inductive ConfigFile : Type :=
  | Unreadable
  | BadYaml
  | Parsed (doc : YamlDoc).

Definition defaultFlags : Flags :=
  mkFlags "config.yaml" EmptyString EmptyString false EmptyString 0 EmptyString 0.

Definition defaultConfig : Config :=
  mkConfig EmptyString EmptyString true "info" 10000 "," 100.

Definition Unmarshal (doc : YamlDoc) (cfg : Config) : Config :=
  mkConfig (default (InputPath cfg) (yaml_input doc))
           (default (OutputDir cfg) (yaml_output doc))
           (default (DeleteOriginal cfg) (yaml_delete_original doc))
           (default (LogLevel cfg) (yaml_log_level doc))
           (default (BatchSize cfg) (yaml_batch_size doc))
           (default (Delimiter cfg) (yaml_delimiter doc))
           (default (SampleRows cfg) (yaml_sample_rows doc)).

Definition overrideFlags (flags : Flags) (cfg : Config) : Config :=
  mkConfig (if isEmpty (flag_input flags) then InputPath cfg else flag_input flags)
           (if isEmpty (flag_output flags) then OutputDir cfg else flag_output flags)
           (if flag_keep flags then false else DeleteOriginal cfg)
           (if isEmpty (flag_log_level flags) then LogLevel cfg else flag_log_level flags)
           (if 0 <? flag_batch_size flags then flag_batch_size flags else BatchSize cfg)
           (if isEmpty (flag_delimiter flags) then Delimiter cfg else flag_delimiter flags)
           (if 0 <? flag_sample_rows flags then flag_sample_rows flags else SampleRows cfg).

Definition Load (flags : Flags) (file : ConfigFile) : string + Config :=
  let loaded :=
    match file with
    | Unreadable =>
      if String.eqb (flag_config flags) "config.yaml" then inr defaultConfig
      else inl "reading config file"%string
    | BadYaml => inl "parsing config file"%string
    | Parsed doc => inr (Unmarshal doc defaultConfig)
    end in
  match loaded with
  | inl e => inl e
  | inr cfg =>
    let cfg := overrideFlags flags cfg in
    if isEmpty (InputPath cfg)
    then inl "input path is required (use --input flag or set in config)"%string
    else inr cfg
  end.

Definition outputPath (inputFile : string) (cfg : Config) : string :=
  let base := TrimSuffix (Base inputFile) (Ext inputFile) in
  let dir := Dir inputFile in
  let dir := if isEmpty (OutputDir cfg) then dir else OutputDir cfg in
  filepathJoin [dir; String.append base ".parquet"].

(** ** The file system and the Parquet writer

    The converter reaches them through [os], [encoding/csv] and the
    parquet-go writer.  [World] is everything outside the program; each
    operation takes a world and gives its result and the world after it.
    [openCSV] is [os.Open] followed by [csv.NewReader] with the delimiter:
    the outcomes the reader will deliver, taken to be finitely many and
    fixed when the file is opened. *)

Record FileInfo : Type := mkFileInfo { Size : Z; IsDir : bool }.

Class Runtime := {
  World : Type;
  FileWriter : Type;
  ParquetWriter : Type;
  os_Stat : string -> World -> option FileInfo;
  os_MkdirAll : string -> World -> bool * World;
  os_Remove : string -> World -> bool * World;
  filepath_Glob : string -> World -> option (list string);
  openCSV : string -> ascii -> World -> option (list ReadOutcome);
  NewLocalFileWriter : string -> World -> option FileWriter * World;
  NewJSONWriter : string -> FileWriter -> World -> option ParquetWriter * World;
  pw_Write : ParquetWriter -> string -> World -> bool * World;
  pw_WriteStop : ParquetWriter -> World -> bool * World;
  fw_Close : FileWriter -> World -> World
}.

(** The calls that name a path, in the order they are made. *)
Inductive Call : Type :=
  | CallStat (path : string)
  | CallOpen (path : string)
  | CallMkdirAll (path : string)
  | CallCreate (path : string)
  | CallRemove (path : string)
  | CallGlob (pattern : string).

(** [type Result struct]; [Err] is [None] for [nil]. *)
Record Result : Type := mkResult {
  InputFile : string;
  OutputFile : string;
  InputSize : Z;
  OutputSize : Z;
  Err : option string
}.

Definition setErr (res : Result) (e : string) : Result :=
  mkResult (InputFile res) (OutputFile res) (InputSize res) (OutputSize res) (Some e).

Definition setOutputSize (res : Result) (n : Z) : Result :=
  mkResult (InputFile res) (OutputFile res) (InputSize res) n (Err res).

Definition zeroResult : Result := mkResult EmptyString EmptyString 0 0 None.

(** Go's [int] is 64 bits wide here; [wrap64] is its wrap-around. *)
Definition wrap64 (z : Z) : Z := (z + 2 ^ 63) mod 2 ^ 64 - 2 ^ 63.

(** [a % b] on [int]: the remainder of the truncated division, and a
    run-time panic when [b] is zero. *)
Definition goMod (a b : Z) : option Z :=
  if b =? 0 then None else Some (Z.rem a b).

Section Convert.
Context {lib : GoLib} {rt : Runtime}.

Record Sys : Type := mkSys { world : World; calls : list Call }.

(** A computation either returns or panics, and leaves a state. *)
Inductive Run (A : Type) : Type :=
  | Returns (a : A)
  | Panics.
Global Arguments Returns {A} a.
Global Arguments Panics {A}.

Definition M (A : Type) : Type := Sys -> Run A * Sys.

Definition ret {A} (a : A) : M A := fun s => (Returns a, s).

Definition bind {A B} (m : M A) (k : A -> M B) : M B :=
  fun s =>
    match m s with
    | (Returns a, s') => k a s'
    | (Panics, s') => (Panics, s')
    end.

Definition panic {A} : M A := fun s => (Panics, s).

(** An operation of the runtime, with the call it makes. *)
Definition sysCall {A} (c : option Call) (op : World -> A * World) : M A :=
  fun s =>
    let '(a, w) := op (world s) in
    (Returns a, mkSys w (calls s ++ match c with Some c => [c] | None => [] end)).

Definition sysRead {A} (c : Call) (op : World -> A) : M A :=
  sysCall (Some c) (fun w => (op w, w)).

Definition orPanic {A} (o : option A) : M A :=
  match o with
  | Some a => ret a
  | None => panic
  end.

Notation "'do' x <- m ; k" := (bind m (fun x => k))
  (at level 10, x name, m at level 100, k at level 200).

(** [detectSchema]. *)
Definition detectSchema (file : string) (delim : ascii) (sampleRows : Z)
  : M (string + list string * list fieldType) :=
  do opened <- sysRead (CallOpen file) (openCSV file delim);
  match opened with
  | None => ret (inl "open"%string)
  | Some outcomes => ret (fst (detectSchemaFrom (newReader outcomes) sampleRows))
  end.

(** [buildJSONSchema]; [types[i]] out of range is a run-time panic. *)
Fixpoint schemaFields (i : nat) (headers : list string) (types : list fieldType)
  : option (list string) :=
  match headers with
  | [] => Some []
  | h :: rest =>
    match types !! i, schemaFields (S i) rest types with
    | Some t, Some fields =>
      Some (String.append "{"
             (String.append (quoted "Tag")
               (String.append ":"
                 (String.append
                    (quoted (String.append "name="
                              (String.append h
                                (String.append ", "
                                  (String.append (parquetTag t)
                                     ", repetitiontype=OPTIONAL")))))
                    "}"))) :: fields)
    | _, _ => None
    end
  end.

Definition buildJSONSchema (headers : list string) (types : list fieldType)
  : option string :=
  match schemaFields 0 headers types with
  | Some fields =>
    Some (String.append "{"
           (String.append (quoted "Tag")
             (String.append ":"
               (String.append (quoted "name=parquet-go-root")
                 (String.append ","
                   (String.append (quoted "Fields")
                     (String.append ":["
                       (String.append (Join fields ",") "]}"))))))))
  | None => None
  end.

(** The row loop of [writeParquet], over the outcomes the reader still
    holds: [io.EOF] ends it, a malformed row and a row the writer
    rejects are skipped, a written row is counted. *)
Fixpoint writeRows (pw : ParquetWriter) (outcomes : list ReadOutcome)
    (headers : list string) (types : list fieldType) (batchSize : Z)
    (rowCount : Z) : M Z :=
  match outcomes with
  | [] => ret rowCount
  | Malformed :: rest => writeRows pw rest headers types batchSize rowCount
  | Row record :: rest =>
    do jsonRow <- orPanic (recordToJSON record headers types);
    do written <- sysCall None (pw_Write pw jsonRow);
    if written : bool then
      let rowCount := wrap64 (rowCount + 1) in
      do _ <- orPanic (goMod rowCount batchSize);
      writeRows pw rest headers types batchSize rowCount
    else writeRows pw rest headers types batchSize rowCount
  end.

(** [writeParquet]; the result is the error, [None] for [nil]. *)
Definition writeParquet (inputFile outFile : string) (delim : ascii)
    (headers : list string) (types : list fieldType) (schema : string)
    (batchSize : Z) : M (option string) :=
  do fw <- sysCall (Some (CallCreate outFile)) (NewLocalFileWriter outFile);
  match fw with
  | None => ret (Some "creating parquet writer"%string)
  | Some fw =>
    do pw <- sysCall None (NewJSONWriter schema fw);
    match pw with
    | None =>
      do _ <- sysCall None (fun w => (tt, fw_Close fw w));
      ret (Some "creating JSON writer"%string)
    | Some pw =>
      do opened <- sysRead (CallOpen inputFile) (openCSV inputFile delim);
      match opened with
      | None =>
        do _ <- sysCall None (pw_WriteStop pw);
        do _ <- sysCall None (fun w => (tt, fw_Close fw w));
        ret (Some "open"%string)
      | Some [] | Some (Malformed :: _) =>
        (* the header row cannot be read *)
        do _ <- sysCall None (pw_WriteStop pw);
        do _ <- sysCall None (fun w => (tt, fw_Close fw w));
        ret (Some "read"%string)
      | Some (Row _ :: outcomes) =>
        do rowCount <- writeRows pw outcomes headers types batchSize 0;
        do stopped <- sysCall None (pw_WriteStop pw);
        do _ <- sysCall None (fun w => (tt, fw_Close fw w));
        if stopped : bool then ret None
        else ret (Some "finalizing parquet"%string)
      end
    end
  end.

(** [delim := ','; if len(cfg.Delimiter) > 0 { delim = rune(cfg.Delimiter[0]) }] *)
Definition delimiterOf (cfg : Config) : ascii :=
  match Delimiter cfg with
  | String c _ => c
  | EmptyString => ","%char
  end.

(** [convertFile] up to the end of the write phase: either the result
    returned early, or the result so far with the write phase
    successful. *)
Definition convertWrite (inputFile : string) (cfg : Config) : M (Result + Result) :=
  do inputInfo <- sysRead (CallStat inputFile) (os_Stat inputFile);
  match inputInfo with
  | None => ret (inl (mkResult inputFile EmptyString 0 0 (Some "stat"%string)))
  | Some inputInfo =>
    let outFile := outputPath inputFile cfg in
    let res := mkResult inputFile outFile (Size inputInfo) 0 None in
    let delim := delimiterOf cfg in
    do detected <- detectSchema inputFile delim (SampleRows cfg);
    match detected with
    | inl e => ret (inl (setErr res (String.append "detecting schema: " e)))
    | inr (headers, types) =>
      do schema <- orPanic (buildJSONSchema headers types);
      do made <- (if isEmpty (OutputDir cfg) then ret true
                  else sysCall (Some (CallMkdirAll (OutputDir cfg)))
                               (os_MkdirAll (OutputDir cfg)));
      if negb made then ret (inl (setErr res "creating output dir"))
      else
        do werr <- writeParquet inputFile outFile delim headers types schema
                     (BatchSize cfg);
        match werr with
        | Some e =>
          (* clean up partial output *)
          do _ <- sysCall (Some (CallRemove outFile)) (os_Remove outFile);
          ret (inl (setErr res (String.append "writing parquet: " e)))
        | None => ret (inr res)
        end
    end
  end.

(** The rest of [convertFile]: verify the output, delete the original. *)
Definition verifyOutput (inputFile : string) (cfg : Config) (res : Result) : M Result :=
  do outInfo <- sysRead (CallStat (OutputFile res)) (os_Stat (OutputFile res));
  match outInfo with
  | None => ret (setErr res "output verification failed")
  | Some outInfo =>
    if Size outInfo =? 0 then ret (setErr res "output verification failed")
    else
      let res := setOutputSize res (Size outInfo) in
      if DeleteOriginal cfg then
        do _ <- sysCall (Some (CallRemove inputFile)) (os_Remove inputFile);
        ret res
      else ret res
  end.

Definition convertFile (inputFile : string) (cfg : Config) : M Result :=
  do stage <- convertWrite inputFile cfg;
  match stage with
  | inl res => ret res
  | inr res => verifyOutput inputFile cfg res
  end.

(** ** [ConvertAll] *)

(** The files to convert: the input itself, or the [*.csv] files of the
    input directory; [inl] is the result returned at once. *)
Definition resolveFiles (cfg : Config) : M (list Result + list string) :=
  do info <- sysRead (CallStat (InputPath cfg)) (os_Stat (InputPath cfg));
  match info with
  | None => ret (inl [mkResult (InputPath cfg) EmptyString 0 0 (Some "stat input"%string)])
  | Some info =>
    if IsDir info then
      let pattern := filepathJoin [InputPath cfg; "*.csv"%string] in
      do matches <- sysRead (CallGlob pattern) (filepath_Glob pattern);
      match matches with
      | None => ret (inl [mkResult (InputPath cfg) EmptyString 0 0 (Some "glob"%string)])
      | Some files => ret (inr files)
      end
    else ret (inr [InputPath cfg])
  end.

(** The goroutines of [ConvertAll].  Task [idx] is spawned, waits for a
    slot of the semaphore ([sem <- struct{}{}]), runs [convertFile],
    stores the result in [results[idx]], gives the slot back and signals
    the wait group.  A task's conversion is one step: what the tasks
    share in the program is the semaphore and the result slice. *)
Inductive TaskState : Type :=
  | Spawned
  | Running
  | Stored
  | Finished.

Definition holdsSlot (t : TaskState) : bool :=
  match t with Running | Stored => true | _ => false end.

Definition slotsHeld (tasks : list TaskState) : nat :=
  length (filter (fun t => holdsSlot t = true) tasks).

Definition maxConcurrent : nat := 4.

Record Batch : Type := mkBatch {
  tasks : list TaskState;
  results : list Result;
  system : Sys;
  crashed : bool
}.

Definition startBatch (files : list string) (s : Sys) : Batch :=
  mkBatch (replicate (length files) Spawned) (replicate (length files) zeroResult)
          s false.

Inductive batchStep (cfg : Config) (files : list string) : Batch -> Batch -> Prop :=
  | step_acquire idx b :
      crashed b = false ->
      tasks b !! idx = Some Spawned ->
      (slotsHeld (tasks b) < maxConcurrent)%nat ->
      batchStep cfg files b
        (mkBatch (<[idx := Running]> (tasks b)) (results b) (system b) false)
  | step_convert idx file res s' b :
      crashed b = false ->
      tasks b !! idx = Some Running ->
      files !! idx = Some file ->
      convertFile file cfg (system b) = (Returns res, s') ->
      batchStep cfg files b
        (mkBatch (<[idx := Stored]> (tasks b)) (<[idx := res]> (results b)) s' false)
  | step_panic idx file s' b :
      crashed b = false ->
      tasks b !! idx = Some Running ->
      files !! idx = Some file ->
      convertFile file cfg (system b) = (Panics, s') ->
      batchStep cfg files b (mkBatch (tasks b) (results b) s' true)
  | step_release idx b :
      crashed b = false ->
      tasks b !! idx = Some Stored ->
      batchStep cfg files b
        (mkBatch (<[idx := Finished]> (tasks b)) (results b) (system b) false).

(** [wg.Wait()] returns when every task has signalled. *)
Definition allFinished (b : Batch) : Prop :=
  crashed b = false /\ Forall (fun t => t = Finished) (tasks b).

Inductive batchRun (cfg : Config) (files : list string) : Batch -> Batch -> Prop :=
  | run_refl b : batchRun cfg files b b
  | run_step b1 b2 b3 :
      batchRun cfg files b1 b2 -> batchStep cfg files b2 b3 -> batchRun cfg files b1 b3.

(** [ConvertAll]: the result at once when the input cannot be resolved,
    no result for no file, and otherwise the result slice of a batch in
    which every task has finished. *)
Inductive ConvertAll (cfg : Config) (s : Sys) : list Result -> Prop :=
  | all_unresolved early s' :
      resolveFiles cfg s = (Returns (inl early), s') ->
      ConvertAll cfg s early
  | all_no_files s' :
      resolveFiles cfg s = (Returns (inr []), s') ->
      ConvertAll cfg s []
  | all_batch files s' b :
      resolveFiles cfg s = (Returns (inr files), s') ->
      files <> [] ->
      batchRun cfg files (startBatch files s') b ->
      allFinished b ->
      ConvertAll cfg s (results b).

(** The steps still to take: three for a spawned task, down to none. *)
Definition stepsLeft (t : TaskState) : nat :=
  match t with Spawned => 3 | Running => 2 | Stored => 1 | Finished => 0 end.

Definition batchMeasure (b : Batch) : nat :=
  if crashed b then 0%nat else S (foldr (fun t n => (stepsLeft t + n)%nat) 0%nat (tasks b)).
End Convert.

(** ** A runtime in memory

    A small instance of [Runtime] on which the definitions run: the files
    are a list of paths with their contents, a CSV file is the outcomes
    its reader delivers and a Parquet file is the rows written to it.  A
    Parquet file starts and ends with the four bytes [PAR1], so it is
    never empty: its size here is those eight bytes and one for each row.
    Opened as CSV it reads as the one cell [PAR1], which is what the
    reader finds in an output that was just created.  Creating a file
    replaces what was at its path. *)

Inductive MemFile : Type :=
  | CsvFile (outcomes : list ReadOutcome)
  | ParquetFile (rows : list string)
  | Directory.

Definition MemWorld : Type := list (string * MemFile).

Fixpoint memFind (path : string) (w : MemWorld) : option MemFile :=
  match w with
  | [] => None
  | (p, f) :: rest => if String.eqb p path then Some f else memFind path rest
  end.

Fixpoint memDelete (path : string) (w : MemWorld) : MemWorld :=
  match w with
  | [] => []
  | (p, f) :: rest =>
    if String.eqb p path then memDelete path rest else (p, f) :: memDelete path rest
  end.

Definition memPut (path : string) (f : MemFile) (w : MemWorld) : MemWorld :=
  (path, f) :: memDelete path w.

Definition memInfo (f : MemFile) : FileInfo :=
  match f with
  | CsvFile outcomes => mkFileInfo (Z.of_nat (length outcomes)) false
  | ParquetFile rows => mkFileInfo (8 + Z.of_nat (length rows)) false
  | Directory => mkFileInfo 0 true
  end.

Definition memOpenCSV (path : string) (delim : ascii) (w : MemWorld)
  : option (list ReadOutcome) :=
  match memFind path w with
  | Some (CsvFile outcomes) => Some outcomes
  | Some (ParquetFile _) => Some [Row ["PAR1"%string]]
  | _ => None
  end.

Definition memWrite (path row : string) (w : MemWorld) : bool * MemWorld :=
  match memFind path w with
  | Some (ParquetFile rows) => (true, memPut path (ParquetFile (rows ++ [row])) w)
  | _ => (false, w)
  end.

Definition memRuntime : Runtime :=
  {| World := MemWorld;
     FileWriter := string;
     ParquetWriter := string;
     os_Stat := fun path w => memInfo <$> memFind path w;
     os_MkdirAll := fun path w => (true, memPut path Directory w);
     os_Remove := fun path w =>
       (bool_decide (is_Some (memFind path w)), memDelete path w);
     filepath_Glob := fun pattern w => Some [];
     openCSV := memOpenCSV;
     NewLocalFileWriter := fun path w => (Some path, memPut path (ParquetFile []) w);
     NewJSONWriter := fun schema fw w => (Some fw, w);
     pw_Write := memWrite;
     pw_WriteStop := fun pw w => (true, w);
     fw_Close := fun fw w => w |}.

Definition memSys (w : MemWorld) : @Sys memRuntime := @mkSys memRuntime w [].

(** ** [main]: the summary of a run and the exit status *)

Record Summary : Type := mkSummary {
  converted : Z;
  failed : Z;
  totalInputSize : Z;
  totalOutputSize : Z
}.

(** The body of [for _, r := range results] in [main]; the counters are
    [int] and the sizes [int64], both 64 bits wide. *)
Definition tally (acc : Summary) (r : Result) : Summary :=
  match Err r with
  | Some _ =>
    mkSummary (converted acc) (wrap64 (failed acc + 1))
              (totalInputSize acc) (totalOutputSize acc)
  | None =>
    mkSummary (wrap64 (converted acc + 1)) (failed acc)
              (wrap64 (totalInputSize acc + InputSize r))
              (wrap64 (totalOutputSize acc + OutputSize r))
  end.

Definition summarize (results : list Result) : Summary :=
  fold_left tally results (mkSummary 0 0 0 0).

(** [if failed > 0 { os.Exit(1) }]; otherwise [main] returns and the
    status is 0. *)
Definition exitStatus (results : list Result) : Z :=
  if 0 <? failed (summarize results) then 1 else 0.

(** ** Notions used in the proofs about sampling and trimming *)

(** A whitespace rune at the front of [s] (at its end, when [s] is the
    string reversed): what [stripSpaces] removes next. *)
Definition spaceAt (fromEnd : bool) (s : list ascii) : bool :=
  match s with
  | [] => false
  | c1 :: r1 =>
    asciiSpace c1
    || match r1 with
       | [] => false
       | c2 :: r2 =>
         (if fromEnd then spaceRune2 c2 c1 else spaceRune2 c1 c2)
         || match r2 with
            | [] => false
            | c3 :: _ => if fromEnd then spaceRune3 c3 c2 c1 else spaceRune3 c1 c2 c3
            end
       end
  end.

(** The cell of column [j] that a read attempt offers, if any, and what
    it does to the column's type. *)
Definition cellOf (o : ReadOutcome) (j : nat) : option string :=
  match o with
  | Row record => record !! j
  | Malformed => None
  end.

Section CellStep.
Context {lib : GoLib}.

Definition cellStep (t : fieldType) (cell : option string) : fieldType :=
  match cell with
  | Some c => if isEmpty c then t else widenType t (inferType c)
  | None => t
  end.
End CellStep.

(** ** Notions used in the proofs about the summary *)

Definition hasErr (r : Result) : bool :=
  match Err r with Some _ => true | None => false end.

Definition succeeded (results : list Result) : list Result :=
  List.filter (fun r => negb (hasErr r)) results.

Definition sumZ (l : list Z) : Z := fold_right Z.add 0 l.

(** ** Notions used in the proofs about paths *)

Definition sepFree (e : list ascii) : Prop := Forall (fun c => isSep c = false) e.

(** An element that [Clean] keeps. *)
Definition keptElem (e : list ascii) : Prop :=
  e <> [] /\ isDotElem e = false /\ sepFree e.

(** The stacks [Clean] builds: kept elements, with [..] only at the
    bottom of a path that is not rooted. *)
Fixpoint normalStack (rooted : bool) (stack : list (list ascii)) : Prop :=
  match stack with
  | [] => True
  | top :: below =>
    keptElem top
    /\ (isDotDot top = true ->
        rooted = false /\ Forall (fun e => isDotDot e = true) below)
    /\ normalStack rooted below
  end.

Definition renderClean (rooted : bool) (stack : list (list ascii)) : list ascii :=
  let out := (if rooted then ["/"%char] else []) ++ joinSep (rev stack) in
  match out with
  | [] => ["."%char]
  | _ => out
  end.

(** ** Notions used in the proofs about the batch *)

Section BatchNotions.
Context {lib : GoLib} {rt : Runtime}.

(** What holds of every state of a batch: a slot of the result slice is
    the zero value until its task stores into it, and then it is what
    [convertFile] returned for the file at that position. *)
Definition slotOk (cfg : Config) (b : Batch) (idx : nat) (file : string) : Prop :=
  match tasks b !! idx with
  | Some Spawned | Some Running => results b !! idx = Some zeroResult
  | Some Stored | Some Finished =>
    exists res s0 s1,
      results b !! idx = Some res /\ InputFile res = file
      /\ convertFile file cfg s0 = (Returns res, s1)
  | None => False
  end.

Definition batchInv (cfg : Config) (files : list string) (b : Batch) : Prop :=
  length (tasks b) = length files
  /\ length (results b) = length files
  /\ (slotsHeld (tasks b) <= maxConcurrent)%nat
  /\ forall idx file, files !! idx = Some file -> slotOk cfg b idx file.
End BatchNotions.

#[global] Instance TaskState_eq_dec : EqDecision TaskState.
Proof. solve_decision. Defined.

(** * Theorems *)

(** ** Strings *)

Lemma fieldType_eqb_spec a b : reflect (a = b) (fieldType_eqb a b).
Proof. destruct a, b; constructor; congruence. Qed.

Lemma isEmpty_true s : isEmpty s = true <-> s = EmptyString.
Proof. destruct s; simpl; split; congruence. Qed.

Lemma isEmpty_false s : isEmpty s = false <-> s <> EmptyString.
Proof. destruct s; simpl; split; congruence. Qed.

Lemma ofBytes_bytes s : ofBytes (bytes s) = s.
Proof. apply string_of_list_ascii_of_string. Qed.

Lemma bytes_ofBytes l : bytes (ofBytes l) = l.
Proof. apply list_ascii_of_string_of_list_ascii. Qed.

Example TrimSpace_inner_space : TrimSpace "  a b  " = "a b"%string.
Proof. reflexivity. Qed.

Example TrimSpace_unicode_space :
  TrimSpace (ofBytes [ascii_of_N 226; ascii_of_N 128; ascii_of_N 131; "x"%char;
                      ascii_of_N 194; ascii_of_N 160; "009"%char]) = "x"%string.
Proof. reflexivity. Qed.

Example ParseInt_signed : ParseInt "-12" = Some (-12) /\ ParseInt "+7" = Some 7.
Proof. split; reflexivity. Qed.

Example ParseInt_range :
  ParseInt "9223372036854775807" = Some (2 ^ 63 - 1)
  /\ ParseInt "9223372036854775808" = None
  /\ ParseInt "-9223372036854775808" = Some (- 2 ^ 63).
Proof. repeat split; reflexivity. Qed.

Example ParseInt_rejects : ParseInt EmptyString = None /\ ParseInt "-" = None
  /\ ParseInt " 1" = None /\ ParseInt "1_0" = None /\ ParseInt "1.0" = None.
Proof. repeat split; reflexivity. Qed.

Example formatInt_ex : formatInt (-305) = "-305"%string /\ formatInt 0 = "0"%string.
Proof. split; reflexivity. Qed.

(** ** The widening join *)

(** C1. On the four field types of the specification [widenType] is the
    join table of the specification: it is commutative and idempotent,
    Int64 with Float64 gives Float64, Bool with a type other than Bool
    gives String, two Bools stay Bool, and String with anything gives
    String. *)
Theorem widenType_is_join_table (a b : fieldType) :
  isSpecType a = true -> isSpecType b = true ->
  widenType a b = joinTable a b
  /\ widenType a b = widenType b a
  /\ widenType a a = a
  /\ widenType typeInt64 typeFloat64 = typeFloat64
  /\ widenType typeBool typeBool = typeBool
  /\ (b <> typeBool -> widenType typeBool b = typeString)
  /\ widenType typeString b = typeString
  /\ widenType a typeString = typeString
  /\ isSpecType (widenType a b) = true.
Proof.
  destruct a, b; cbn; intros Ha Hb; try discriminate;
    repeat split; intros; congruence.
Qed.

Lemma widenType_is_join_table_witness :
  widenType typeInt64 typeBool = joinTable typeInt64 typeBool
  /\ widenType typeInt64 typeBool = widenType typeBool typeInt64
  /\ widenType typeInt64 typeInt64 = typeInt64
  /\ widenType typeInt64 typeFloat64 = typeFloat64
  /\ widenType typeBool typeBool = typeBool
  /\ (typeBool <> typeBool -> widenType typeBool typeBool = typeString)
  /\ widenType typeString typeBool = typeString
  /\ widenType typeInt64 typeString = typeString
  /\ isSpecType (widenType typeInt64 typeBool) = true.
Proof.
  apply (widenType_is_join_table typeInt64 typeBool); reflexivity.
Defined.

(** Outside the four types the join is commutative still, but not
    idempotent: the two date types are never produced by [inferType]. *)
Lemma widenType_comm a b : widenType a b = widenType b a.
Proof. destruct a, b; reflexivity. Qed.

Lemma widenType_assoc a b c :
  isSpecType a = true -> isSpecType b = true -> isSpecType c = true ->
  widenType a (widenType b c) = widenType (widenType a b) c.
Proof. destruct a, b, c; cbn; intros; try discriminate; reflexivity. Qed.

Example widenType_typeDate : widenType typeDate typeDate = typeString.
Proof. reflexivity. Qed.

(** ** Schema detection *)

Section DetectFacts.
Context {lib : GoLib}.

(** *** Classification of a cell *)

Lemma matchDateFormats_string formats val t :
  matchDateFormats formats val = Some t -> t = typeString.
Proof.
  induction formats as [|layout rest IH]; simpl; [discriminate|].
  destruct (time_Parse layout val); [congruence | exact IH].
Qed.

Lemma matchDateFormats_exists formats val :
  is_Some (matchDateFormats formats val)
  <-> existsb (fun layout => time_Parse layout val) formats = true.
Proof.
  induction formats as [|layout rest IH]; simpl.
  - split; [intros [? ?]; discriminate | discriminate].
  - destruct (time_Parse layout val); simpl; [split; eauto | exact IH].
Qed.

Lemma inferType_trimmed val :
  inferType val =
    let v := TrimSpace val in
    if isEmpty v then typeString else classifySpec v.
Proof.
  unfold inferType, classifySpec, isBoolLiteral. cbn zeta.
  destruct (isEmpty (TrimSpace val)); [reflexivity|].
  destruct (_ || _); [reflexivity|].
  destruct (ParseInt (TrimSpace val)) as [n|] eqn:Hint.
  { rewrite bool_decide_eq_true_2 by eauto. reflexivity. }
  rewrite bool_decide_eq_false_2 by (intros [? ?]; discriminate).
  destruct (ParseFloat (TrimSpace val)) as [f|] eqn:Hfl.
  { rewrite bool_decide_eq_true_2 by eauto. reflexivity. }
  rewrite bool_decide_eq_false_2 by (intros [? ?]; discriminate).
  destruct (matchDateFormats dateFormats (TrimSpace val)) as [t|] eqn:Hd.
  - apply matchDateFormats_string in Hd. subst t.
    destruct (matchesDatePattern _); reflexivity.
  - destruct (matchesDatePattern _); reflexivity.
Qed.

Ltac settle_clauses :=
  repeat split; intros;
  try match goal with H : is_Some None |- _ => destruct H; discriminate end;
  first [congruence | discriminate].

(** C3. A cell that is not empty once trimmed is classified on its
    trimmed value in this order: a boolean literal in any letter case is
    Bool, else a 64-bit integer is Int64, else a float is Float64, else
    (one of the six date patterns or nothing) String; the two date types
    are never the answer. *)
Theorem inferType_priority (val : string) :
  TrimSpace val <> EmptyString ->
  let v := TrimSpace val in
  inferType val = classifySpec v
  /\ (isBoolLiteral v = true -> inferType val = typeBool)
  /\ (isBoolLiteral v = false -> is_Some (ParseInt v) -> inferType val = typeInt64)
  /\ (isBoolLiteral v = false -> ParseInt v = None -> is_Some (ParseFloat v) ->
        inferType val = typeFloat64)
  /\ (isBoolLiteral v = false -> ParseInt v = None -> ParseFloat v = None ->
        matchesDatePattern v = true -> inferType val = typeString)
  /\ (isBoolLiteral v = false -> ParseInt v = None -> ParseFloat v = None ->
        inferType val = typeString)
  /\ inferType val <> typeDate /\ inferType val <> typeTimestamp.
Proof.
  intros Hne v. rewrite inferType_trimmed. cbn zeta. fold v.
  apply isEmpty_false in Hne. fold v in Hne. rewrite Hne.
  unfold classifySpec.
  split; [reflexivity|].
  destruct (isBoolLiteral v) eqn:Hb; [settle_clauses|].
  destruct (ParseInt v) as [n|] eqn:Hint.
  { rewrite bool_decide_eq_true_2 by eauto. settle_clauses. }
  rewrite bool_decide_eq_false_2 by (intros [? ?]; discriminate).
  destruct (ParseFloat v) as [f|] eqn:Hfl.
  { rewrite bool_decide_eq_true_2 by eauto. settle_clauses. }
  rewrite bool_decide_eq_false_2 by (intros [? ?]; discriminate).
  destruct (matchesDatePattern v); settle_clauses.
Qed.

Lemma inferType_spec_type val : isSpecType (inferType val) = true.
Proof.
  rewrite inferType_trimmed. cbn zeta. unfold classifySpec.
  repeat match goal with |- context [if ?b then _ else _] => destruct b end;
    reflexivity.
Qed.
End DetectFacts.

Lemma inferType_priority_witness :
  let v := TrimSpace " 2024-01-31 " in
  @inferType sampleLib " 2024-01-31 " = @classifySpec sampleLib v
  /\ (@isBoolLiteral sampleLib v = true -> @inferType sampleLib " 2024-01-31 " = typeBool)
  /\ (@isBoolLiteral sampleLib v = false -> is_Some (ParseInt v) ->
        @inferType sampleLib " 2024-01-31 " = typeInt64)
  /\ (@isBoolLiteral sampleLib v = false -> ParseInt v = None ->
        is_Some (@ParseFloat sampleLib v) ->
        @inferType sampleLib " 2024-01-31 " = typeFloat64)
  /\ (@isBoolLiteral sampleLib v = false -> ParseInt v = None -> @ParseFloat sampleLib v = None ->
        @matchesDatePattern sampleLib v = true ->
        @inferType sampleLib " 2024-01-31 " = typeString)
  /\ (@isBoolLiteral sampleLib v = false -> ParseInt v = None -> @ParseFloat sampleLib v = None ->
        @inferType sampleLib " 2024-01-31 " = typeString)
  /\ @inferType sampleLib " 2024-01-31 " <> typeDate
  /\ @inferType sampleLib " 2024-01-31 " <> typeTimestamp.
Proof.
  apply (@inferType_priority sampleLib " 2024-01-31 "). vm_compute. discriminate.
Defined.

Example inferType_examples :
  @inferType sampleLib "TRUE" = typeBool
  /\ @inferType sampleLib " fAlSe " = typeBool
  /\ @inferType sampleLib "-42" = typeInt64
  /\ @inferType sampleLib "3.25" = typeFloat64
  /\ @inferType sampleLib "2024-01-31" = typeString
  /\ @inferType sampleLib "n/a" = typeString.
Proof. repeat split; reflexivity. Qed.

Section SamplingFacts.
Context {lib : GoLib}.

(** *** Header normalization *)

Lemma cleanHeadersFrom_imap todo : forall done,
  cleanHeadersFrom (length done) todo (done ++ todo)
  = done ++ imap (fun j => cleanHeader (length done + j)) todo.
Proof.
  induction todo as [|h rest IH]; intros done; simpl.
  - reflexivity.
  - replace (<[length done := cleanHeader (length done) h]> (done ++ h :: rest))
      with ((done ++ [cleanHeader (length done) h]) ++ rest).
    + specialize (IH (done ++ [cleanHeader (length done) h])).
      rewrite length_app in IH. simpl in IH.
      replace (S (length done)) with (length done + 1)%nat by lia.
      rewrite IH, <- app_assoc. simpl.
      rewrite Nat.add_0_r. do 2 f_equal.
      apply imap_ext. intros j x _. simpl. f_equal. lia.
    + rewrite <- app_assoc. simpl.
      rewrite <- (Nat.add_0_r (length done)) at 2.
      rewrite insert_app_r. reflexivity.
Qed.

Lemma cleanHeaders_imap headers : cleanHeaders headers = imap cleanHeader headers.
Proof. apply (cleanHeadersFrom_imap headers []). Qed.

Lemma replaceByte_removes old new s :
  ~ In old new -> ~ In old (replaceByte old new s).
Proof.
  intros Hnew. induction s as [|c r IH]; simpl; [tauto|].
  rewrite in_app_iff. intros [H|H]; [|tauto].
  destruct (Ascii.eqb_spec c old) as [->|Hne]; [tauto|].
  destruct H as [H|[]]. congruence.
Qed.

Lemma replaceByte_keeps_out a old new s :
  ~ In a new -> ~ In a s -> ~ In a (replaceByte old new s).
Proof.
  intros Hnew. induction s as [|c r IH]; simpl; [tauto|].
  intros Hs. rewrite in_app_iff. intros [H|H]; [|tauto].
  destruct (Ascii.eqb c old); [tauto|].
  destruct H as [H|[]]. tauto.
Qed.

(** C6. Header normalization is a function of the column's position and
    text: the byte-order mark is stripped first, then the surrounding
    whitespace, then every space and every dot becomes an underscore, and
    an empty result becomes [column_i] for the zero-based position [i];
    the loop that rewrites the header slice in place applies it to each
    column.  So [" Name."] becomes ["Name_"]. *)
Theorem header_normalization (headers : list string) :
  cleanHeaders headers = imap cleanHeader headers
  /\ length (cleanHeaders headers) = length headers
  /\ (forall i h, headers !! i = Some h ->
        let replaced :=
          ReplaceAll (ReplaceAll (TrimSpace (TrimPrefix h BOM)) " " "_") "." "_" in
        cleanHeaders headers !! i
          = Some (if isEmpty replaced
                  then String.append "column_" (formatInt (Z.of_nat i))
                  else replaced)
        /\ ~ In " "%char (bytes replaced) /\ ~ In "."%char (bytes replaced)
        /\ cleanHeaders headers !! i <> Some EmptyString)
  /\ cleanHeader 0 " Name." = "Name_"%string
  /\ cleanHeader 2 EmptyString = "column_2"%string
  /\ cleanHeader 0 (String.append BOM " id ") = "id"%string.
Proof.
  split; [apply cleanHeaders_imap|].
  split; [rewrite cleanHeaders_imap; apply length_imap|].
  split; [|repeat split; reflexivity].
  intros i h Hh replaced.
  rewrite cleanHeaders_imap, list_lookup_imap, Hh. simpl.
  split; [reflexivity|].
  assert (Hdot : ~ In "."%char (bytes replaced)).
  { unfold replaced, ReplaceAll at 1. rewrite bytes_ofBytes.
    apply replaceByte_removes. simpl. intros [H|[]]. discriminate. }
  assert (Hsp : ~ In " "%char (bytes replaced)).
  { unfold replaced, ReplaceAll. rewrite !bytes_ofBytes.
    apply replaceByte_keeps_out; [simpl; intros [H|[]]; discriminate|].
    apply replaceByte_removes. simpl. intros [H|[]]. discriminate. }
  repeat split; try assumption.
  unfold cleanHeader. fold replaced.
  destruct (isEmpty replaced) eqn:He.
  - discriminate.
  - apply isEmpty_false in He. congruence.
Qed.

(** *** The sampling loop *)

Lemma sampleRecord_length record : forall i types,
  length (sampleRecord i record types) = length types.
Proof.
  induction record as [|val rest IH]; intros i types; simpl; [reflexivity|].
  destruct (types !! i); [|reflexivity].
  destruct (isEmpty val); rewrite IH; [reflexivity|apply length_insert].
Qed.

(** What a sampled row does to column [j]: nothing when the row has no
    cell there or the cell is the empty string, and a widening by the
    cell's inferred type otherwise. *)
Lemma sampleRecord_lookup record : forall i types j,
  sampleRecord i record types !! j =
    match types !! j with
    | None => None
    | Some t =>
      if (j <? i)%nat then Some t
      else match record !! (j - i)%nat with
        | Some cell => Some (if isEmpty cell then t else widenType t (inferType cell))
        | None => Some t
        end
    end.
Proof.
  induction record as [|val rest IH]; intros i types j; simpl.
  - destruct (types !! j); [|reflexivity]. destruct (j <? i)%nat; reflexivity.
  - destruct (types !! i) as [ti|] eqn:Hi.
    + destruct (Nat.ltb_spec j i) as [Hlt|Hge].
      * destruct (isEmpty val); rewrite IH.
        -- destruct (types !! j); [|reflexivity].
           destruct (Nat.ltb_spec j (S i)); [reflexivity|lia].
        -- rewrite list_lookup_insert_ne by lia.
           destruct (types !! j); [|reflexivity].
           destruct (Nat.ltb_spec j (S i)); [reflexivity|lia].
      * destruct (decide (j = i)) as [->|Hne].
        -- rewrite Nat.sub_diag, Hi. simpl.
           destruct (isEmpty val); rewrite IH.
           ++ rewrite Hi. destruct (Nat.ltb_spec i (S i)); [reflexivity|lia].
           ++ rewrite list_lookup_insert_eq by (eapply lookup_lt_Some; eauto).
              destruct (Nat.ltb_spec i (S i)); [reflexivity|lia].
        -- replace (j - i)%nat with (S (j - S i)) by lia. simpl.
           destruct (isEmpty val); rewrite IH.
           ++ destruct (types !! j); [|reflexivity].
              destruct (Nat.ltb_spec j (S i)); [lia|reflexivity].
           ++ rewrite list_lookup_insert_ne by lia.
              destruct (types !! j); [|reflexivity].
              destruct (Nat.ltb_spec j (S i)); [lia|reflexivity].
    + destruct (types !! j) eqn:Hj; [|reflexivity].
      apply lookup_lt_Some in Hj. apply lookup_ge_None in Hi.
      destruct (Nat.ltb_spec j i); [reflexivity|lia].
Qed.

Lemma sampleLoop_spec budget : forall outcomes k types,
  sampleLoop budget (mkReader outcomes k) types
  = (fold_left attemptEvidence (take budget outcomes) types,
     mkReader (drop budget outcomes) (k + Nat.min budget (S (length outcomes)))).
Proof.
  induction budget as [|n IH]; intros outcomes k types; simpl.
  - rewrite Nat.add_0_r. rewrite drop_0. reflexivity.
  - destruct outcomes as [|[record|] rest]; unfold csvRead; simpl.
    + do 2 f_equal. lia.
    + rewrite IH. do 2 f_equal. lia.
    + rewrite IH. do 2 f_equal. lia.
Qed.

(** C4. Sampling makes at most N attempts to read a row, N the sample-row
    count, from types that are all Int64: the types returned are the
    evidence of the first N outcomes after the header, where a malformed
    row is one of the N and adds nothing, and the read that reports the
    end of the input is the last one. *)
Theorem sampling_budget (headers : list string) (outcomes : list ReadOutcome) (N : Z) :
  let n := Z.to_nat N in
  let start := replicate (length (cleanHeaders headers)) typeInt64 in
  detectSchemaFrom (newReader (Row headers :: outcomes)) N
    = (inr (cleanHeaders headers, fold_left attemptEvidence (take n outcomes) start),
       mkReader (drop n outcomes) (1 + Nat.min n (S (length outcomes))))
  /\ (Nat.min n (S (length outcomes)) <= n)%nat
  /\ (forall budget rest k types,
        sampleLoop (S budget) (mkReader (Malformed :: rest) k) types
        = sampleLoop budget (mkReader rest (S k)) types)
  /\ (forall budget k types,
        sampleLoop (S budget) (mkReader [] k) types = (types, mkReader [] (S k)))
  /\ (forall k types, sampleLoop 0 (mkReader outcomes k) types = (types, mkReader outcomes k))
  /\ fst (detectSchemaFrom (newReader [Row headers]) N)
     = inr (cleanHeaders headers, start).
Proof.
  intros n start. unfold detectSchemaFrom, newReader, csvRead. simpl.
  rewrite !sampleLoop_spec. simpl. rewrite take_nil.
  repeat split; try reflexivity. lia.
Qed.

(** A cell that is the empty string leaves its column as it is. *)
Lemma empty_cell_no_evidence record types j t :
  types !! j = Some t -> record !! j = Some EmptyString ->
  sampleRecord 0 record types !! j = Some t.
Proof.
  intros Ht Hc. rewrite sampleRecord_lookup, Ht. simpl.
  rewrite Nat.sub_0_r, Hc. reflexivity.
Qed.

(** A cell of whitespace only is not skipped: it is inferred as String
    and widens its column to String. *)
Lemma whitespace_cell_evidence record types j t cell :
  types !! j = Some t -> record !! j = Some cell ->
  cell <> EmptyString -> TrimSpace cell = EmptyString ->
  sampleRecord 0 record types !! j = Some typeString.
Proof.
  intros Ht Hc Hne Htrim. rewrite sampleRecord_lookup, Ht. simpl.
  rewrite Nat.sub_0_r, Hc. apply isEmpty_false in Hne. rewrite Hne.
  unfold inferType. rewrite Htrim. simpl. destruct t; reflexivity.
Qed.

(** C2, on the code.  In a file of two columns the cells 1, the empty
    string and 2 of the first column give Int64, as 1 and 2 alone do; with
    a cell of one space in place of the empty one, which is empty once
    trimmed,
    the column is String: the cell is compared with the empty string
    before it is trimmed. *)
Theorem whitespace_cell_widens_column :
  let header := Row ["n"; "m"]%string in
  let rows (cell : string) := [Row ["1"; "7"]; Row [cell; "8"]; Row ["2"; "9"]]%string in
  TrimSpace " " = EmptyString
  /\ fst (detectSchemaFrom (newReader (header :: rows EmptyString)) 100)
     = inr (["n"; "m"]%string, [typeInt64; typeInt64])
  /\ fst (detectSchemaFrom
            (newReader [header; Row ["1"; "7"]; Row ["2"; "9"]]%string) 100)
     = inr (["n"; "m"]%string, [typeInt64; typeInt64])
  /\ fst (detectSchemaFrom (newReader (header :: rows " "%string)) 100)
     = inr (["n"; "m"]%string, [typeString; typeInt64]).
Proof. repeat split; reflexivity. Qed.
End SamplingFacts.

(** ** The record encoder *)

Section EncoderFacts.
Context {lib : GoLib}.

Lemma recordToJSONFrom_spec record types todo : forall done parts,
  (length (done ++ todo) <= length types)%nat ->
  recordToJSONFrom (length done) todo record types parts
  = Some (parts ++ omap (columnField record (done ++ todo) types)
                        (seq (length done) (length todo))).
Proof.
  induction todo as [|h rest IH]; intros done parts Hlen; simpl.
  - rewrite app_nil_r. reflexivity.
  - assert (Hh : (done ++ h :: rest) !! length done = Some h)
      by apply list_lookup_middle, eq_refl.
    destruct (types !! length done) as [t|] eqn:Ht.
    2:{ apply lookup_ge_None in Ht. rewrite length_app in Hlen. simpl in Hlen. lia. }
    assert (IH' : forall parts,
      recordToJSONFrom (S (length done)) rest record types parts
      = Some (parts ++ omap (columnField record (done ++ h :: rest) types)
                            (seq (S (length done)) (length rest)))).
    { intros p. specialize (IH (done ++ [h]) p).
      rewrite <- app_assoc in IH. simpl in IH.
      replace (length (done ++ [h])) with (S (length done)) in IH
        by (rewrite length_app; simpl; lia).
      apply IH. exact Hlen. }
    unfold columnField at 1. rewrite Hh, Ht.
    destruct (isEmpty (cellValue record (length done))).
    + apply IH'.
    + destruct (encodeField h t (cellValue record (length done))) as [part|].
      * rewrite IH'. rewrite <- app_assoc. reflexivity.
      * apply IH'.
Qed.

Lemma encodeField_is_Some h t val :
  is_Some (encodeField h t val)
  <-> (t = typeInt64 -> is_Some (ParseInt val))
      /\ (t = typeFloat64 -> is_Some (ParseFloat val)).
Proof.
  destruct t; simpl;
    try (split; [intros _; split; discriminate | eauto]).
  - destruct (ParseInt val); split.
    + intros _. split; [eauto | discriminate].
    + eauto.
    + intros [? ?]. discriminate.
    + intros [H _]. destruct (H eq_refl). discriminate.
  - destruct (ParseFloat val); split.
    + intros _. split; [discriminate | eauto].
    + eauto.
    + intros [? ?]. discriminate.
    + intros [_ H]. destruct (H eq_refl). discriminate.
Qed.

Lemma recordParts_fields (record headers : list string) (types : list fieldType) :
  length types = length headers ->
  recordParts record headers types
  = Some (omap (columnField record headers types) (seq 0 (length headers))).
Proof.
  intros Hlen. unfold recordParts.
  pose proof (recordToJSONFrom_spec record types headers [] []) as H.
  simpl in H. apply H. lia.
Qed.

(** With as many types as headers the encoder indexes within range: it
    returns for every row. *)
Lemma recordToJSON_is_Some (record headers : list string) (types : list fieldType) :
  length types = length headers -> is_Some (recordToJSON record headers types).
Proof.
  intros Hlen. unfold recordToJSON. rewrite recordParts_fields by exact Hlen. eauto.
Qed.

Lemma replaceByte_app old new a b :
  replaceByte old new (a ++ b) = replaceByte old new a ++ replaceByte old new b.
Proof.
  induction a as [|c a IH]; [reflexivity|].
  cbn [app replaceByte]. rewrite IH, app_assoc. reflexivity.
Qed.

(** The two passes of [strings.ReplaceAll] are one pass that puts a
    backslash before every backslash and every double quote. *)
Lemma escapeJSON_escapeText val : escapeJSON val = escapeText val.
Proof.
  unfold escapeJSON, escapeText, ReplaceAll. rewrite !bytes_ofBytes. f_equal.
  induction (bytes val) as [|c l IH]; [reflexivity|].
  cbn [replaceByte map concat]. rewrite replaceByte_app, IH. f_equal.
  destruct (Ascii.eqb_spec c backslash) as [->|Hb]; [reflexivity|].
  destruct (Ascii.eqb_spec c dquote) as [->|Hq]; [reflexivity|].
  cbn [orb replaceByte app].
  destruct (Ascii.eqb_spec c dquote); [contradiction|reflexivity].
Qed.

Lemma encodeField_typedValue h t val :
  encodeField h t val
  = match typedValue t val with
    | Some v => Some (serializeField (h, v))
    | None => None
    end.
Proof.
  unfold encodeField, typedValue, serializeField. cbn [fst snd].
  destruct t; cbn [serializeValue]; rewrite ?escapeJSON_escapeText;
    try reflexivity.
  - destruct (ParseInt val); reflexivity.
  - destruct (ParseFloat val); reflexivity.
Qed.

Lemma columnField_sparseField record headers types i :
  columnField record headers types i
  = serializeField <$> sparseField record headers types i.
Proof.
  unfold columnField, sparseField, cellValue.
  destruct (headers !! i) as [h|]; [|reflexivity].
  destruct (types !! i) as [t|]; [|reflexivity].
  destruct (record !! i) as [cell|]; [|reflexivity].
  destruct (isEmpty (TrimSpace cell)); [reflexivity|].
  rewrite encodeField_typedValue.
  destruct (typedValue t (TrimSpace cell)); reflexivity.
Qed.

Lemma omap_columnField record headers types (l : list nat) :
  omap (columnField record headers types) l
  = serializeField <$> omap (sparseField record headers types) l.
Proof.
  induction l as [|i l IH]; [reflexivity|].
  cbn [omap list_omap]. rewrite columnField_sparseField, IH.
  destruct (sparseField record headers types i); reflexivity.
Qed.

Lemma typedValue_is_Some t val :
  is_Some (typedValue t val)
  <-> (t = typeInt64 -> is_Some (ParseInt val))
      /\ (t = typeFloat64 -> is_Some (ParseFloat val)).
Proof.
  pose proof (encodeField_is_Some EmptyString t val) as H.
  rewrite encodeField_typedValue in H. rewrite <- H.
  destruct (typedValue t val); split; intros [? ?]; try discriminate; eauto.
Qed.

(** C5. For a schema (as many types as headers) and any row, the encoded
    row is the serialized form of the sparse row the rule per column
    gives: in column order, for each column that has a field, the name of
    the column with the value of its trimmed cell, converted by the
    column's type.  Column [i] has a field exactly when the row has a cell
    at [i], the cell is not empty once trimmed, and it parses as the
    number the column's type asks for when that is Int64 or Float64.  A
    row shorter than the schema is encoded without an error, its missing
    columns left out. *)
Theorem sparse_row_encoding (record headers : list string) (types : list fieldType) :
  length types = length headers ->
  let fields := omap (columnField record headers types) (seq 0 (length headers)) in
  recordParts record headers types = Some fields
  /\ recordToJSON record headers types
     = Some (String.append "{" (String.append (Join fields ",") "}"))
  /\ (forall i, (i < length headers)%nat ->
        is_Some (columnField record headers types i) <-> fieldPresent record types i)
  /\ (forall i, (length record <= i)%nat -> columnField record headers types i = None)
  /\ recordToJSON record headers types
     = Some (serializeRow (sparseRow record headers types))
  /\ (forall i, columnField record headers types i
                = serializeField <$> sparseField record headers types i)
  /\ (forall i, (i < length headers)%nat ->
        is_Some (sparseField record headers types i) <-> fieldPresent record types i)
  /\ (forall name v,
        In (name, v) (sparseRow record headers types)
        <-> exists i cell t,
              headers !! i = Some name /\ record !! i = Some cell
              /\ types !! i = Some t /\ TrimSpace cell <> EmptyString
              /\ typedValue t (TrimSpace cell) = Some v).
Proof.
  intros Hlen fields.
  assert (Hparts : recordParts record headers types = Some fields)
    by (apply recordParts_fields, Hlen).
  assert (Hpresent : forall i, (i < length headers)%nat ->
            is_Some (sparseField record headers types i) <-> fieldPresent record types i).
  { intros i Hi. unfold sparseField, fieldPresent.
    destruct (headers !! i) as [h|] eqn:Hh.
    2:{ apply lookup_ge_None in Hh. lia. }
    destruct (types !! i) as [t|] eqn:Ht.
    2:{ apply lookup_ge_None in Ht. lia. }
    destruct (record !! i) as [cell|].
    - destruct (isEmpty (TrimSpace cell)) eqn:He.
      + apply isEmpty_true in He. split.
        * intros [? ?]. discriminate.
        * intros (c & Hc & Hne & _). congruence.
      + apply isEmpty_false in He.
        pose proof (typedValue_is_Some t (TrimSpace cell)) as Htv.
        destruct (typedValue t (TrimSpace cell)) as [v|]; split.
        * intros _. exists cell. destruct Htv as [[H1 H2] _]; [eauto|].
          repeat split; [assumption| |]; intros [= ->]; auto.
        * eauto.
        * intros [? ?]. discriminate.
        * intros (c & [= <-] & _ & H1 & H2).
          destruct Htv as [_ Htv]. destruct Htv as [? Hbad]; [|discriminate Hbad].
          split; intros ->; auto.
    - split.
      + intros [? ?]. discriminate.
      + intros (c & Hc & _). discriminate. }
  split; [exact Hparts|].
  split; [unfold recordToJSON; rewrite Hparts; reflexivity|].
  split; [|split; [|split; [|split; [|split]]]].
  - intros i Hi. rewrite columnField_sparseField, <- (Hpresent i Hi).
    destruct (sparseField record headers types i); split; intros [? ?];
      try discriminate; eauto.
  - intros i Hi. unfold columnField, cellValue.
    rewrite (lookup_ge_None_2 record i Hi). simpl.
    destruct (headers !! i), (types !! i); reflexivity.
  - unfold recordToJSON. rewrite Hparts. subst fields.
    rewrite omap_columnField. reflexivity.
  - apply columnField_sparseField.
  - exact Hpresent.
  - intros name v. unfold sparseRow.
    rewrite <- list_elem_of_In, list_elem_of_omap. split.
    + intros (i & _ & Hf). unfold sparseField in Hf.
      destruct (headers !! i) as [h|] eqn:Hh; [|discriminate].
      destruct (types !! i) as [t|] eqn:Ht; [|discriminate].
      destruct (record !! i) as [cell|] eqn:Hr; [|discriminate].
      destruct (isEmpty (TrimSpace cell)) eqn:He; [discriminate|].
      apply isEmpty_false in He.
      destruct (typedValue t (TrimSpace cell)) as [v'|] eqn:Hv; [|discriminate].
      injection Hf as <- <-. exists i, cell, t. auto.
    + intros (i & cell & t & Hh & Hr & Ht & Hne & Hv). exists i. split.
      * apply elem_of_seq. apply lookup_lt_Some in Hh. lia.
      * unfold sparseField. rewrite Hh, Ht, Hr.
        apply isEmpty_false in Hne. rewrite Hne, Hv. reflexivity.
Qed.
End EncoderFacts.

Section EncoderExamples.
Local Open Scope string_scope.

Lemma sparse_row_encoding_witness :
  let record := ["1"; " "; "x"; "2.5"; String dquote "hi"; "Yes"] in
  let headers := ["a"; "b"; "c"; "d"; "e"; "f"; "g"] in
  let types := [typeInt64; typeInt64; typeInt64; typeFloat64; typeString; typeBool;
                typeString] in
  length types = length headers
  /\ @recordToJSON sampleLib record headers types
     = Some (@serializeRow sampleLib
               [("a", @IntValue sampleLib 1); ("d", @FloatValue sampleLib "2.5");
                ("e", @TextValue sampleLib (String dquote "hi"));
                ("f", @BoolValue sampleLib "yes")])
  /\ @serializeRow sampleLib
       [("a", @IntValue sampleLib 1); ("e", @TextValue sampleLib (String dquote "hi"))]
     = String.append "{"
         (String.append (quoted "a")
            (String.append ":1,"
               (String.append (quoted "e")
                  (String.append ":"
                     (String.append (quoted (String backslash (String dquote "hi")))
                        "}"))))).
Proof.
  intros record headers types. split; [reflexivity|]. split; [|reflexivity].
  exact (proj1 (proj2 (proj2 (proj2 (proj2
           (@sparse_row_encoding sampleLib record headers types eq_refl)))))).
Defined.
End EncoderExamples.

(** ** Paths *)

Lemma bytes_append a b : bytes (String.append a b) = bytes a ++ bytes b.
Proof.
  unfold bytes. induction a as [|c a IH]; simpl; [reflexivity|]. f_equal. exact IH.
Qed.

Lemma ofBytes_app a b : ofBytes (a ++ b) = String.append (ofBytes a) (ofBytes b).
Proof.
  unfold ofBytes. induction a as [|c a IH]; simpl; [reflexivity|]. f_equal. exact IH.
Qed.

Lemma bytes_inj a b : bytes a = bytes b -> a = b.
Proof. intros H. rewrite <- (ofBytes_bytes a), <- (ofBytes_bytes b), H. reflexivity. Qed.

Lemma isSep_slash c : isSep c = true -> c = "/"%char.
Proof.
  unfold isSep, byte. intros H. apply N.eqb_eq in H.
  rewrite <- (ascii_N_embedding c), H. reflexivity.
Qed.

Lemma takeWhile_dropWhile {A} (f : A -> bool) l : takeWhile f l ++ dropWhile f l = l.
Proof. induction l as [|x r IH]; simpl; [reflexivity|]. destruct (f x); simpl; congruence. Qed.

Lemma takeWhile_Forall {A} (f : A -> bool) l : Forall (fun x => f x = true) (takeWhile f l).
Proof.
  induction l as [|x r IH]; simpl; [constructor|].
  destruct (f x) eqn:Hx; constructor; assumption.
Qed.

Lemma takeWhile_app_all {A} (f : A -> bool) l r :
  Forall (fun x => f x = true) l -> takeWhile f (l ++ r) = l ++ takeWhile f r.
Proof. induction 1 as [|x l Hx _ IH]; simpl; [reflexivity|]. rewrite Hx, IH. reflexivity. Qed.

Lemma dropWhile_app_all {A} (f : A -> bool) l r :
  Forall (fun x => f x = true) l -> dropWhile f (l ++ r) = dropWhile f r.
Proof. induction 1 as [|x l Hx _ IH]; simpl; [reflexivity|]. rewrite Hx, IH. reflexivity. Qed.

Lemma dropWhile_head {A} (f : A -> bool) l :
  dropWhile f l = [] \/ exists x r, dropWhile f l = x :: r /\ f x = false.
Proof.
  induction l as [|x r IH]; simpl; [left; reflexivity|].
  destruct (f x) eqn:Hx; [exact IH | right; eauto].
Qed.

Lemma stripPrefix_app p x : stripPrefix p (p ++ x) = Some x.
Proof.
  induction p as [|c p IH]; simpl; [reflexivity|].
  rewrite Ascii.eqb_refl. exact IH.
Qed.

Lemma extScan_spec reversed : forall acc ext,
  extScan reversed acc = ext -> ext <> [] ->
  exists scanned rest, reversed = scanned ++ rest /\ ext = rev scanned ++ acc
    /\ sepFree scanned /\ scanned <> [].
Proof.
  induction reversed as [|c r IH]; intros acc ext Hext Hne; simpl in Hext.
  - congruence.
  - destruct (isSep c) eqn:Hsep; [congruence|].
    destruct (isDot c).
    + exists [c], r. subst ext. repeat split; [|discriminate].
      constructor; [assumption|constructor].
    + destruct (IH _ _ Hext Hne) as (sc & rest & -> & -> & Hfree & _).
      exists (c :: sc), rest. simpl. rewrite <- app_assoc. simpl.
      repeat split; [|discriminate]. constructor; assumption.
Qed.

(** *** [Clean] on elements *)

Lemma cleanBytes_render l :
  cleanBytes l = renderClean (isRooted l) (fold_left (cleanStep (isRooted l)) (splitSep l) []).
Proof. reflexivity. Qed.

Lemma splitSep_nonempty l : splitSep l <> [].
Proof.
  destruct l as [|c r]; simpl; [discriminate|].
  destruct (isSep c); [discriminate|]. destruct (splitSep r); discriminate.
Qed.

Lemma splitSep_app_sep x y :
  splitSep (x ++ "/"%char :: y) = splitSep x ++ splitSep y.
Proof.
  induction x as [|c x IH]; simpl; [reflexivity|].
  destruct (isSep c); rewrite IH; [reflexivity|].
  pose proof (splitSep_nonempty x). destruct (splitSep x); [congruence|reflexivity].
Qed.

Lemma splitSep_sepFree y : sepFree y -> splitSep y = [y].
Proof.
  induction 1 as [|c y Hc _ IH]; simpl; [reflexivity|]. rewrite Hc, IH. reflexivity.
Qed.

Lemma splitSep_elems l : Forall sepFree (splitSep l).
Proof.
  induction l as [|c r IH]; simpl.
  - repeat constructor.
  - destruct (isSep c) eqn:Hc; [constructor; [constructor|assumption]|].
    destruct (splitSep r) as [|x xs]; [repeat constructor; assumption|].
    inversion IH; subst. constructor; [constructor|]; assumption.
Qed.

Lemma splitSep_joinSep elems :
  elems <> [] -> Forall sepFree elems -> splitSep (joinSep elems) = elems.
Proof.
  induction elems as [|e rest IH]; intros Hne Hall; [congruence|].
  inversion Hall as [|? ? He Hrest]; subst.
  destruct rest as [|e' rest'].
  - simpl. apply splitSep_sepFree, He.
  - change (joinSep (e :: e' :: rest')) with (e ++ "/"%char :: joinSep (e' :: rest')).
    rewrite splitSep_app_sep, splitSep_sepFree by assumption.
    rewrite IH by (try discriminate; assumption). reflexivity.
Qed.

Lemma isDotDot_not_dot e : isDotDot e = true -> isDotElem e = false.
Proof. destruct e as [|a [|b [|c r]]]; simpl; congruence. Qed.

Lemma cleanStep_normal rooted stack e :
  normalStack rooted stack -> sepFree e -> normalStack rooted (cleanStep rooted stack e).
Proof.
  intros Hn He. unfold cleanStep.
  destruct e as [|c e']; [assumption|]. remember (c :: e') as e eqn:Heqe.
  destruct (isDotElem e) eqn:Hdot; [assumption|].
  assert (Hk : keptElem e) by (repeat split; [subst e; discriminate|assumption..]).
  destruct (isDotDot e) eqn:Hdd.
  - destruct stack as [|top below].
    + destruct rooted; cbn [normalStack]; [exact I|].
      split; [exact Hk|]. split; [|exact I]. intros _. split; [reflexivity|constructor].
    + destruct Hn as (Htop & Hdots & Hbelow).
      destruct (isDotDot top) eqn:Htd; [|assumption].
      destruct (Hdots eq_refl) as [-> Hall].
      cbn [normalStack]. split; [exact Hk|]. split.
      * intros _. split; [reflexivity|]. constructor; assumption.
      * split; [exact Htop|]. split; [|exact Hbelow]. intros _. split; [reflexivity|assumption].
  - cbn [normalStack]. split; [exact Hk|]. split; [|exact Hn]. intros H. congruence.
Qed.

Lemma fold_cleanStep_normal rooted elems : forall stack,
  Forall sepFree elems -> normalStack rooted stack ->
  normalStack rooted (fold_left (cleanStep rooted) elems stack).
Proof.
  induction elems as [|e rest IH]; intros stack Hall Hn; simpl; [assumption|].
  inversion Hall; subst. apply IH; [assumption|]. apply cleanStep_normal; assumption.
Qed.

Lemma normalStack_kept rooted stack : normalStack rooted stack -> Forall keptElem stack.
Proof.
  induction stack as [|top below IH]; simpl; [constructor|].
  intros (Hk & _ & Hn). constructor; auto.
Qed.

Lemma cleanStep_push rooted top below :
  normalStack rooted (top :: below) -> cleanStep rooted below top = top :: below.
Proof.
  intros ((Hne & Hdot & _) & Hdots & _). unfold cleanStep.
  destruct top as [|c t]; [congruence|]. rewrite Hdot.
  destruct (isDotDot (c :: t)); [|reflexivity].
  destruct (Hdots eq_refl) as [-> Hall].
  destruct below as [|t' b']; [reflexivity|].
  inversion Hall as [|? ? Ht' _]; subst. rewrite Ht'. reflexivity.
Qed.

Lemma refold_normal rooted stack :
  normalStack rooted stack -> fold_left (cleanStep rooted) (rev stack) [] = stack.
Proof.
  induction stack as [|top below IH]; intros Hn; [reflexivity|].
  simpl rev. rewrite fold_left_app. simpl.
  rewrite IH by apply Hn. apply cleanStep_push, Hn.
Qed.

Lemma joinSep_head e rest :
  e <> [] -> exists c tl, joinSep (e :: rest) = c :: tl /\ hd_error e = Some c.
Proof.
  destruct e as [|c e']; [congruence|]. intros _.
  destruct rest; simpl; eauto.
Qed.

Lemma rev_cons_shape {A} (x : A) l : exists y l', rev (x :: l) = y :: l'.
Proof.
  destruct (rev (x :: l)) as [|y l'] eqn:H; [|eauto].
  apply (f_equal (@length A)) in H. rewrite length_rev in H. discriminate.
Qed.

(** A cleaned path read again gives the stack it was rendered from, and
    is rooted when the path was. *)
Lemma reparse_render rooted stack :
  normalStack rooted stack ->
  let out := renderClean rooted stack in
  out <> [] /\ isRooted out = rooted
  /\ fold_left (cleanStep rooted) (splitSep out) [] = stack.
Proof.
  intros Hn. pose proof (normalStack_kept _ _ Hn) as Hkept.
  assert (Hfree : Forall sepFree (rev stack)).
  { apply Forall_rev. eapply Forall_impl; [exact Hkept|]. intros e He. apply He. }
  unfold renderClean. destruct stack as [|top below].
  - destruct rooted; simpl; repeat split; discriminate.
  - destruct (rev_cons_shape top below) as (y & l' & Hrev).
    assert (Hy : keptElem y).
    { apply Forall_rev in Hkept. rewrite Hrev in Hkept. inversion Hkept; assumption. }
    destruct (joinSep_head y l' (proj1 Hy)) as (c & tl & Hjoin & Hhd).
    assert (Hc : isSep c = false).
    { destruct Hy as (_ & _ & Hf). destruct y; [discriminate|].
      injection Hhd as ->. inversion Hf; assumption. }
    assert (Hsplit : splitSep (joinSep (rev (top :: below))) = rev (top :: below)).
    { apply splitSep_joinSep; [rewrite Hrev; discriminate | exact Hfree]. }
    destruct rooted.
    + cbn [app]. split; [discriminate|]. split; [reflexivity|].
      change (splitSep ("/"%char :: joinSep (rev (top :: below))))
        with ([] :: splitSep (joinSep (rev (top :: below)))).
      rewrite Hsplit. cbn [fold_left cleanStep]. apply refold_normal, Hn.
    + cbn [app]. rewrite Hrev, Hjoin. split; [discriminate|].
      split; [simpl; exact Hc|].
      rewrite <- Hjoin, <- Hrev, Hsplit. apply refold_normal, Hn.
Qed.

Lemma isRooted_app l r : l <> [] -> isRooted (l ++ r) = isRooted l.
Proof. destruct l; [congruence|reflexivity]. Qed.

(** Joining a cleaned directory and a last element cleans to the same
    path as the directory followed by the element. *)
Lemma clean_join dir elem :
  (dir = [] \/ exists dir', dir = dir' ++ ["/"%char]) ->
  sepFree elem -> elem <> [] ->
  cleanBytes (cleanBytes dir ++ "/"%char :: elem) = cleanBytes (dir ++ elem).
Proof.
  intros Hdir Hfree Hne.
  set (rooted := isRooted dir).
  set (stack := fold_left (cleanStep rooted) (splitSep dir) []).
  assert (Hn : normalStack rooted stack).
  { apply fold_cleanStep_normal; [apply splitSep_elems | exact I]. }
  destruct (reparse_render rooted stack Hn) as (Hout & Hroot & Hre).
  rewrite (cleanBytes_render dir). fold rooted stack.
  rewrite (cleanBytes_render (_ ++ _ :: elem)).
  rewrite isRooted_app, Hroot by exact Hout.
  rewrite splitSep_app_sep, fold_left_app, Hre, splitSep_sepFree by assumption.
  rewrite (cleanBytes_render (dir ++ elem)).
  destruct Hdir as [->|[dir' ->]].
  - simpl app. subst stack rooted. simpl.
    assert (Hr : isRooted elem = false).
    { destruct elem as [|c e]; [congruence|]. inversion Hfree; assumption. }
    rewrite Hr, splitSep_sepFree by assumption. reflexivity.
  - rewrite isRooted_app by (destruct dir'; discriminate). fold rooted.
    rewrite <- app_assoc. simpl app.
    rewrite splitSep_app_sep, fold_left_app, splitSep_sepFree by assumption.
    subst stack. rewrite splitSep_app_sep, fold_left_app. reflexivity.
Qed.

Lemma cleanBytes_nonempty l : cleanBytes l <> [].
Proof.
  unfold cleanBytes. cbn zeta.
  destruct (_ ++ _); discriminate.
Qed.

(** *** The output path *)

Lemma isEmpty_bytes s : isEmpty s = false <-> bytes s <> [].
Proof. destruct s; simpl; split; congruence. Qed.

(** With no output directory, the output path of a file whose last
    element has an extension is the input path with [.parquet] in place
    of the extension, cleaned. *)
Lemma outputPath_replaces_extension p cfg :
  Ext p <> EmptyString -> OutputDir cfg = EmptyString ->
  outputPath p cfg = Clean (String.append (TrimSuffix p (Ext p)) ".parquet").
Proof.
  intros Hext Hout.
  set (notSep := fun c => negb (isSep c)).
  remember (rev (bytes p)) as R eqn:HeqR.
  assert (HE : extScan R [] = bytes (Ext p)).
  { unfold Ext. rewrite bytes_ofBytes, HeqR. reflexivity. }
  destruct (extScan_spec R [] _ HE) as (sc & rest & HR & Hsc & Hfree & Hne).
  { intros H. apply Hext, bytes_inj. rewrite H. reflexivity. }
  rewrite app_nil_r in Hsc.
  assert (Hrevext : rev (bytes (Ext p)) = sc) by (rewrite Hsc; apply rev_involutive).
  remember (takeWhile notSep rest) as X eqn:HeqX.
  remember (dropWhile notSep rest) as D eqn:HeqD.
  assert (Hrest : rest = X ++ D) by (subst X D; symmetry; apply takeWhile_dropWhile).
  assert (Hsc' : Forall (fun c => notSep c = true) sc).
  { eapply Forall_impl; [exact Hfree|]. intros c Hc. unfold notSep. rewrite Hc. reflexivity. }
  assert (Htake : takeWhile notSep R = sc ++ X)
    by (rewrite HR, HeqX; apply takeWhile_app_all, Hsc').
  assert (Hdrop : dropWhile notSep R = D)
    by (rewrite HR, HeqD; apply dropWhile_app_all, Hsc').
  assert (Hp : isEmpty p = false).
  { apply isEmpty_bytes. intros H. rewrite H in HeqR. simpl in HeqR.
    rewrite HeqR in HR. destruct sc; [congruence|discriminate]. }
  assert (Hstrip : dropWhile isSep R = R).
  { rewrite HR. destruct sc as [|c sc0]; [congruence|]. simpl.
    inversion Hfree as [|? ? Hc _]; subst. rewrite Hc. reflexivity. }
  assert (Hbase : Base p = ofBytes (rev X ++ bytes (Ext p))).
  { unfold Base. rewrite Hp, <- HeqR, Hstrip. fold notSep. rewrite Htake.
    rewrite rev_app_distr, Hsc.
    destruct (rev X ++ rev sc) eqn:Hl; [|reflexivity].
    apply app_eq_nil in Hl. destruct Hl as [_ Hl].
    apply (f_equal (@rev ascii)) in Hl. rewrite rev_involutive in Hl.
    simpl in Hl. congruence. }
  assert (Htrim : TrimSuffix (Base p) (Ext p) = ofBytes (rev X)).
  { unfold TrimSuffix. rewrite Hbase, bytes_ofBytes, rev_app_distr, Hrevext.
    rewrite rev_involutive, stripPrefix_app. reflexivity. }
  assert (HtrimP : TrimSuffix p (Ext p) = ofBytes (rev D ++ rev X)).
  { unfold TrimSuffix. rewrite Hrevext, <- HeqR, HR, stripPrefix_app.
    rewrite Hrest, rev_app_distr. reflexivity. }
  assert (HD : rev D = [] \/ exists d', rev D = d' ++ ["/"%char]).
  { destruct (dropWhile_head notSep rest) as [H|(c & r & H & Hc)]; rewrite <- HeqD in H.
    - left. rewrite H. reflexivity.
    - right. exists (rev r). rewrite H. simpl.
      unfold notSep in Hc. apply negb_false_iff, isSep_slash in Hc. subst c. reflexivity. }
  assert (HX : sepFree (rev X ++ bytes ".parquet")).
  { apply Forall_app. split.
    - apply Forall_rev. pose proof (takeWhile_Forall notSep rest) as H.
      rewrite <- HeqX in H.
      eapply Forall_impl; [exact H|]. intros c Hc. unfold notSep in Hc.
      apply negb_true_iff in Hc. exact Hc.
    - repeat constructor. }
  unfold outputPath. rewrite Hout, Htrim. cbn [isEmpty filepathJoin].
  assert (Hdir : Dir p = ofBytes (cleanBytes (rev D))).
  { unfold Dir. rewrite <- HeqR. fold notSep. rewrite Hdrop. reflexivity. }
  rewrite Hdir.
  assert (Hd : isEmpty (ofBytes (cleanBytes (rev D))) = false).
  { apply isEmpty_bytes. rewrite bytes_ofBytes. apply cleanBytes_nonempty. }
  rewrite Hd. unfold Clean. f_equal.
  cbn [Join]. rewrite !bytes_append, !bytes_ofBytes, HtrimP, bytes_ofBytes.
  change (bytes "/") with ["/"%char]. cbn [app].
  rewrite clean_join; [|exact HD|exact HX|].
  - rewrite <- app_assoc. reflexivity.
  - destruct (rev X); discriminate.
Qed.

Lemma TrimSuffix_restore p suffix :
  HasSuffix p suffix = true -> String.append (TrimSuffix p suffix) suffix = p.
Proof.
  unfold HasSuffix, TrimSuffix.
  destruct (stripPrefix (rev (bytes suffix)) (rev (bytes p))) as [rest|] eqn:H;
    [intros _|discriminate].
  assert (Hgen : forall a b r, stripPrefix a b = Some r -> b = a ++ r).
  { induction a as [|x a IH]; intros b r; simpl.
    - congruence.
    - destruct b as [|y b]; [discriminate|].
      destruct (Ascii.eqb_spec x y) as [->|]; [|discriminate].
      intros Hs. rewrite (IH _ _ Hs). reflexivity. }
  apply Hgen in H. apply bytes_inj.
  rewrite bytes_append, bytes_ofBytes.
  apply (f_equal (@rev ascii)) in H. rewrite rev_app_distr, !rev_involutive in H.
  congruence.
Qed.

Lemma Ext_is_suffix p : HasSuffix p (Ext p) = true.
Proof.
  unfold HasSuffix.
  destruct (bytes (Ext p)) as [|c e] eqn:He; [reflexivity|].
  assert (HE : extScan (rev (bytes p)) [] = bytes (Ext p)).
  { unfold Ext. rewrite bytes_ofBytes. reflexivity. }
  destruct (extScan_spec _ [] _ HE) as (sc & rest & HR & Hsc & _).
  { rewrite He. discriminate. }
  rewrite app_nil_r in Hsc. rewrite <- He, Hsc, rev_involutive, HR, stripPrefix_app.
  reflexivity.
Qed.

(** No output directory: the output of a [.parquet] input is the input,
    cleaned. *)
Lemma outputPath_parquet p cfg :
  Ext p = ".parquet"%string -> OutputDir cfg = EmptyString ->
  outputPath p cfg = Clean p.
Proof.
  intros Hext Hout.
  rewrite outputPath_replaces_extension by (try rewrite Hext; congruence).
  pose proof (TrimSuffix_restore p (Ext p) (Ext_is_suffix p)) as H.
  rewrite Hext in *. rewrite H. reflexivity.
Qed.

(** ** The conversion of one file *)

Section ConvertFacts.
Context {lib : GoLib} {rt : Runtime}.

Ltac unfold_run :=
  repeat (progress (unfold bind, ret, sysRead, sysCall, orPanic, panic in *;
                    cbn beta iota zeta in *; cbn [world calls fst snd negb] in *)).

(** One call of the runtime in the goal, by cases on its result. *)
Ltac case_call :=
  match goal with
  | |- context [os_Stat ?a ?b] => destruct (os_Stat a b) as [?info|] eqn:?
  | |- context [openCSV ?a ?b ?c] =>
    destruct (openCSV a b c) as [[|[?header|] ?outcomes]|] eqn:?
  | |- context [os_MkdirAll ?a ?b] => destruct (os_MkdirAll a b) as [[|] ?w] eqn:?
  | |- context [os_Remove ?a ?b] => destruct (os_Remove a b) as [?removed ?w] eqn:?
  | |- context [NewLocalFileWriter ?a ?b] =>
    destruct (NewLocalFileWriter a b) as [[?fw|] ?w] eqn:?
  | |- context [NewJSONWriter ?a ?b ?c] =>
    destruct (NewJSONWriter a b c) as [[?pw|] ?w] eqn:?
  | |- context [pw_WriteStop ?a ?b] => destruct (pw_WriteStop a b) as [[|] ?w] eqn:?
  end; unfold_run.

Lemma sampleLoop_length budget : forall r types,
  length (fst (sampleLoop budget r types)) = length types.
Proof.
  induction budget as [|n IH]; intros r types; simpl; [reflexivity|].
  destruct (csvRead r) as [[record| |] r']; simpl; rewrite ?IH; try reflexivity.
  apply sampleRecord_length.
Qed.

Lemma detectSchemaFrom_lengths r N headers types r' :
  detectSchemaFrom r N = (inr (headers, types), r') -> length types = length headers.
Proof.
  unfold detectSchemaFrom. destruct (csvRead r) as [[hs| |] r1]; try discriminate.
  pose proof (sampleLoop_length (Z.to_nat N) r1
                (replicate (length (cleanHeaders hs)) typeInt64)) as Hlen.
  destruct (sampleLoop _ _ _) as [ts r2]. simpl in Hlen.
  intros [= <- <- <-]. rewrite Hlen. apply length_replicate.
Qed.

Lemma detectSchema_run file delim N s :
  exists detected,
    detectSchema file delim N s = (Returns detected, mkSys (world s) (calls s ++ [CallOpen file]))
    /\ (forall headers types, detected = inr (headers, types) ->
          length types = length headers).
Proof.
  unfold detectSchema. unfold_run.
  destruct (openCSV file delim (world s)) as [outcomes|].
  - eexists. split; [reflexivity|]. intros headers types H.
    destruct (detectSchemaFrom (newReader outcomes) N) as [d r'] eqn:Hd.
    simpl in H. subst d. eapply detectSchemaFrom_lengths, Hd.
  - eexists. split; [reflexivity|]. discriminate.
Qed.

Lemma schemaFields_is_Some headers : forall i types,
  (i + length headers <= length types)%nat -> is_Some (schemaFields i headers types).
Proof.
  induction headers as [|h rest IH]; intros i types Hlen; simpl; [eauto|].
  simpl in Hlen.
  destruct (types !! i) as [t|] eqn:Ht.
  2:{ apply lookup_ge_None in Ht. lia. }
  destruct (IH (S i) types) as [fields ->]; [lia|]. eauto.
Qed.

Lemma buildJSONSchema_is_Some headers types :
  length types = length headers -> is_Some (buildJSONSchema headers types).
Proof.
  intros Hlen. unfold buildJSONSchema.
  destruct (schemaFields_is_Some headers 0 types) as [fields ->]; [lia|]. eauto.
Qed.

(** *** The row loop *)

Lemma writeRows_calls pw headers types batchSize outcomes : forall rowCount s,
  calls (snd (writeRows pw outcomes headers types batchSize rowCount s)) = calls s.
Proof.
  induction outcomes as [|[record|] rest IH]; intros rowCount s; simpl;
    [reflexivity| |apply IH].
  destruct (recordToJSON record headers types) as [jsonRow|]; unfold_run;
    [|reflexivity].
  destruct (pw_Write pw jsonRow (world s)) as [[|] w]; unfold_run.
  - destruct (goMod _ batchSize); unfold_run; [|simpl; apply app_nil_r].
    rewrite IH. simpl. apply app_nil_r.
  - rewrite IH. simpl. apply app_nil_r.
Qed.

Lemma writeRows_returns pw headers types batchSize outcomes :
  batchSize <> 0 -> length types = length headers ->
  forall rowCount s, exists n s',
    writeRows pw outcomes headers types batchSize rowCount s = (Returns n, s').
Proof.
  intros Hbs Hlen.
  induction outcomes as [|[record|] rest IH]; intros rowCount s; simpl;
    [unfold ret; eauto| |apply IH].
  destruct (recordToJSON_is_Some record headers types Hlen) as [jsonRow ->].
  unfold_run.
  destruct (pw_Write pw _ (world s)) as [[|] w]; unfold_run; [|apply IH].
  unfold goMod. destruct (Z.eqb_spec batchSize 0); [contradiction|].
  unfold_run. apply IH.
Qed.

(** With a batch size of zero a row that is written makes the loop
    panic, so the loop returns only when it has written none. *)
Lemma writeRows_zero pw headers types outcomes : forall rowCount s n s',
  writeRows pw outcomes headers types 0 rowCount s = (Returns n, s') -> n = rowCount.
Proof.
  induction outcomes as [|[record|] rest IH]; intros rowCount s n s'; simpl.
  - unfold ret. congruence.
  - destruct (recordToJSON record headers types) as [jsonRow|]; unfold_run;
      [|discriminate].
    destruct (pw_Write pw jsonRow (world s)) as [[|] w]; unfold_run.
    + discriminate.
    + apply IH.
  - apply IH.
Qed.

Lemma writeRows_zero_panics pw headers types record rest rowCount s jsonRow w :
  recordToJSON record headers types = Some jsonRow ->
  pw_Write pw jsonRow (world s) = (true, w) ->
  fst (writeRows pw (Row record :: rest) headers types 0 rowCount s) = Panics.
Proof.
  intros Hjson Hw. simpl. rewrite Hjson. unfold_run. rewrite Hw. reflexivity.
Qed.

(** *** [writeParquet] *)

Lemma writeParquet_calls inputFile outFile delim headers types schema batchSize s :
  exists trace,
    calls (snd (writeParquet inputFile outFile delim headers types schema batchSize s))
    = calls s ++ CallCreate outFile :: trace
    /\ (trace = [] \/ trace = [CallOpen inputFile]).
Proof.
  unfold writeParquet. unfold_run.
  case_call; [|exists []; rewrite ?app_nil_r; auto].
  case_call; [|exists []; rewrite ?app_nil_r; auto].
  case_call;
    try solve [case_call; exists [CallOpen inputFile];
               rewrite ?app_nil_r, <- ?app_assoc; auto].
  match goal with |- context [writeRows ?a ?b ?c ?d ?e ?f ?g] =>
    pose proof (writeRows_calls a c d e b f g) as Hc;
    destruct (writeRows a b c d e f g) as [[n|] s1]
  end; unfold_run.
  - case_call; exists [CallOpen inputFile];
      rewrite Hc, ?app_nil_r, <- ?app_assoc; auto.
  - exists [CallOpen inputFile]. rewrite Hc, ?app_nil_r, <- ?app_assoc. auto.
Qed.

Lemma writeParquet_returns inputFile outFile delim headers types schema batchSize s :
  batchSize <> 0 -> length types = length headers ->
  exists werr s',
    writeParquet inputFile outFile delim headers types schema batchSize s
    = (Returns werr, s').
Proof.
  intros Hbs Hlen. unfold writeParquet. unfold_run.
  case_call; [|eauto].
  case_call; [|eauto].
  case_call; try solve [case_call; eauto].
  match goal with |- context [writeRows ?a ?b ?c ?d ?e ?f ?g] =>
    destruct (writeRows_returns a c d e b Hbs Hlen f g) as (n & s1 & ->)
  end.
  unfold_run. case_call; eauto.
Qed.

(** *** [convertFile] *)

Ltac split_all := repeat (repeat split; unfold not; intros).

Ltac close_trace :=
  eexists; split; [rewrite <- ?app_assoc; reflexivity|];
  split_all; simplify_eq;
  repeat match goal with
         | H : In _ (_ ++ _) |- _ => apply in_app_or in H
         | H : In _ (_ :: _) |- _ => destruct H
         | H : In _ [] |- _ => destruct H
         | H : _ \/ _ |- _ => destruct H
         end;
  simplify_eq; cbn [Err OutputSize InputFile OutputFile setErr setOutputSize] in *;
  try discriminate; try congruence;
  rewrite ?in_app_iff; simpl; auto 8.

(** What [convertFile] does up to the end of the write phase: which
    paths it creates and removes, and what it hands on. *)
Lemma convertWrite_calls inputFile cfg s :
  exists trace,
    calls (snd (convertWrite inputFile cfg s)) = calls s ++ trace
    /\ (forall p, In (CallCreate p) trace -> p = outputPath inputFile cfg)
    /\ (forall p, In (CallMkdirAll p) trace -> isEmpty (OutputDir cfg) = false)
    /\ (forall p, In (CallRemove p) trace -> p = outputPath inputFile cfg)
    /\ (forall res, fst (convertWrite inputFile cfg s) = Returns (inr res) ->
          InputFile res = inputFile /\ OutputFile res = outputPath inputFile cfg
          /\ OutputSize res = 0 /\ Err res = None
          /\ In (CallCreate (outputPath inputFile cfg)) trace
          /\ In (CallOpen inputFile) trace
          /\ forall p, ~ In (CallRemove p) trace)
    /\ (forall res, fst (convertWrite inputFile cfg s) = Returns (inl res) ->
          InputFile res = inputFile /\ OutputSize res = 0 /\ Err res <> None).
Proof.
  unfold convertWrite. unfold_run.
  case_call; [|close_trace].
  match goal with |- context [detectSchema ?a ?b ?c ?d] =>
    destruct (detectSchema_run a b c d) as (detected & -> & Hlen)
  end. unfold_run.
  destruct detected as [e|[headers types]]; unfold_run; [close_trace|].
  destruct (buildJSONSchema_is_Some headers types) as [schema ->]; [eauto|].
  unfold_run.
  destruct (isEmpty (OutputDir cfg)) eqn:Hdir; unfold_run.
  - match goal with |- context [writeParquet ?a ?b ?c ?d ?e ?f ?g ?h] =>
      destruct (writeParquet_calls a b c d e f g h) as (tr & Hc & Htr);
      destruct (writeParquet a b c d e f g h) as [[[werr|]|] s1]
    end; unfold_run; cbn [snd] in Hc.
    + case_call. rewrite Hc. destruct Htr; subst tr; close_trace.
    + rewrite Hc. destruct Htr; subst tr; close_trace.
    + rewrite Hc. destruct Htr; subst tr; close_trace.
  - case_call; [|close_trace].
    match goal with |- context [writeParquet ?a ?b ?c ?d ?e ?f ?g ?h] =>
      destruct (writeParquet_calls a b c d e f g h) as (tr & Hc & Htr);
      destruct (writeParquet a b c d e f g h) as [[[werr|]|] s1]
    end; unfold_run; cbn [snd calls] in Hc.
    + case_call. rewrite Hc. destruct Htr; subst tr; close_trace.
    + rewrite Hc. destruct Htr; subst tr; close_trace.
    + rewrite Hc. destruct Htr; subst tr; close_trace.
Qed.

Lemma convertWrite_returns inputFile cfg s :
  BatchSize cfg <> 0 ->
  exists stage s', convertWrite inputFile cfg s = (Returns stage, s').
Proof.
  intros Hbs. unfold convertWrite. unfold_run.
  case_call; [|eauto].
  match goal with |- context [detectSchema ?a ?b ?c ?d] =>
    destruct (detectSchema_run a b c d) as (detected & -> & Hlen)
  end. unfold_run.
  destruct detected as [e|[headers types]]; unfold_run; [eauto|].
  specialize (Hlen _ _ eq_refl).
  destruct (buildJSONSchema_is_Some headers types Hlen) as [schema ->].
  unfold_run.
  destruct (isEmpty (OutputDir cfg)); unfold_run.
  - match goal with |- context [writeParquet ?a ?b ?c ?d ?e ?f ?g ?h] =>
      destruct (writeParquet_returns a b c d e f g h Hbs Hlen) as ([werr|] & s1 & ->)
    end; unfold_run; [case_call|]; eauto.
  - case_call; [|eauto].
    match goal with |- context [writeParquet ?a ?b ?c ?d ?e ?f ?g ?h] =>
      destruct (writeParquet_returns a b c d e f g h Hbs Hlen) as ([werr|] & s1 & ->)
    end; unfold_run; [case_call|]; eauto.
Qed.

Lemma verifyOutput_returns inputFile cfg res s :
  exists res' s', verifyOutput inputFile cfg res s = (Returns res', s').
Proof.
  unfold verifyOutput. unfold_run. case_call; [|eauto].
  destruct (Size info =? 0); unfold_run; [eauto|].
  destruct (DeleteOriginal cfg); unfold_run; [case_call|]; eauto.
Qed.

(** With a batch size other than zero the conversion of a file returns
    a result, whatever the file system does. *)
Lemma convertFile_returns inputFile cfg s :
  BatchSize cfg <> 0 ->
  exists res s', convertFile inputFile cfg s = (Returns res, s').
Proof.
  intros Hbs. unfold convertFile. unfold_run.
  destruct (convertWrite_returns inputFile cfg s Hbs) as ([res|res] & s1 & ->);
    unfold_run; [eauto|]. apply verifyOutput_returns.
Qed.

(** C8. When the write phase of a file has reported success, the output
    file is looked up: if it is missing or has size zero the result
    carries the error of the failed verification and no output size; the
    output size is recorded, as the size found, only when the file is
    there and not empty. *)
Theorem output_verification (inputFile : string) (cfg : Config) (s s1 : Sys)
    (res0 : Result) :
  convertWrite inputFile cfg s = (Returns (inr res0), s1) ->
  let outFile := outputPath inputFile cfg in
  exists res s2,
    convertFile inputFile cfg s = (Returns res, s2)
    /\ InputFile res = inputFile /\ OutputFile res = outFile
    /\ match os_Stat outFile (world s1) with
       | None => Err res = Some "output verification failed"%string /\ OutputSize res = 0
       | Some info =>
         if Size info =? 0
         then Err res = Some "output verification failed"%string /\ OutputSize res = 0
         else Err res = None /\ OutputSize res = Size info
       end
    /\ (OutputSize res <> 0 ->
          Err res = None
          /\ exists info, os_Stat outFile (world s1) = Some info
                          /\ Size info = OutputSize res /\ Size info <> 0).
Proof.
  intros Hw outFile.
  destruct (convertWrite_calls inputFile cfg s) as (tr & _ & _ & _ & _ & Hinr & _).
  rewrite Hw in Hinr.
  destruct (Hinr res0 eq_refl) as (Hin & Hout & Hsize & Herr & _).
  unfold convertFile. unfold_run. rewrite Hw. unfold_run.
  unfold verifyOutput. unfold_run. rewrite Hout. fold outFile.
  destruct (os_Stat outFile (world s1)) as [info|]; unfold_run.
  - destruct (Z.eqb_spec (Size info) 0) as [Hz|Hnz]; unfold_run.
    + do 2 eexists. split; [reflexivity|]. cbn.
      repeat split; auto; intros; contradiction.
    + destruct (DeleteOriginal cfg); unfold_run; [case_call|];
        (do 2 eexists; split; [reflexivity|]; cbn; repeat split; eauto).
  - do 2 eexists. split; [reflexivity|]. cbn.
    repeat split; auto; intros; contradiction.
Qed.

(** Where the calls of a whole conversion go, and what a result without
    an error stands for. *)
Lemma convertFile_calls inputFile cfg s :
  exists trace,
    calls (snd (convertFile inputFile cfg s)) = calls s ++ trace
    /\ (forall p, In (CallCreate p) trace -> p = outputPath inputFile cfg)
    /\ (forall p, In (CallMkdirAll p) trace -> isEmpty (OutputDir cfg) = false)
    /\ (forall res, fst (convertFile inputFile cfg s) = Returns res ->
          InputFile res = inputFile
          /\ (Err res <> None -> OutputSize res = 0)
          /\ (Err res = None ->
                OutputFile res = outputPath inputFile cfg
                /\ OutputSize res <> 0
                /\ In (CallCreate (outputPath inputFile cfg)) trace
                /\ In (CallOpen inputFile) trace
                /\ (DeleteOriginal cfg = true ->
                     last trace = Some (CallRemove inputFile))
                /\ (DeleteOriginal cfg = false ->
                     forall p, ~ In (CallRemove p) trace))).
Proof.
  destruct (convertWrite_calls inputFile cfg s)
    as (tr & Hc & Hcreate & Hmk & Hrm & Hinr & Hinl).
  unfold convertFile. unfold_run.
  destruct (convertWrite inputFile cfg s) as [[[res|res]|] s1];
    cbn [fst snd] in *; unfold_run.
  - destruct (Hinl res eq_refl) as (Hin & Hsz & Herr).
    exists tr. split_all; simplify_eq; eauto; try contradiction.
  - destruct (Hinr res eq_refl) as (Hin & Hout & Hsz & Herr & Hcr & Hop & Hnorm).
    unfold verifyOutput. unfold_run.
    case_call.
    + destruct (Z.eqb_spec (Size info) 0) as [Hz|Hnz]; unfold_run.
      * exists (tr ++ [CallStat (OutputFile res)]). rewrite Hc, <- app_assoc.
        split; [reflexivity|]. split_all; simplify_eq;
          repeat match goal with
                 | H : In _ (_ ++ _) |- _ => apply in_app_or in H; destruct H
                 | H : In _ [_] |- _ => destruct H as [H|[]]; try discriminate
                 end; eauto.
      * destruct (DeleteOriginal cfg) eqn:Hdel; unfold_run; [case_call|].
        -- exists (tr ++ [CallStat (OutputFile res); CallRemove inputFile]).
           rewrite Hc, <- !app_assoc.
           split; [reflexivity|]. split_all; simplify_eq; cbn in *;
             repeat match goal with
                    | H : In _ (_ ++ _) |- _ => apply in_app_or in H; destruct H
                    | H : In _ (_ :: _) |- _ => destruct H as [H|H]; try discriminate
                    | H : In _ [] |- _ => destruct H
                    end; eauto; try congruence;
             rewrite ?in_app_iff; auto.
           rewrite last_app. reflexivity.
        -- exists (tr ++ [CallStat (OutputFile res)]). rewrite Hc, <- app_assoc.
           split; [reflexivity|]. split_all; simplify_eq; cbn in *;
             repeat match goal with
                    | H : In _ (_ ++ _) |- _ => apply in_app_or in H; destruct H
                    | H : In _ (_ :: _) |- _ => destruct H as [H|H]; try discriminate
                    | H : In _ [] |- _ => destruct H
                    end; eauto; try congruence;
             rewrite ?in_app_iff; auto.
           eapply Hnorm; eauto.
    + exists (tr ++ [CallStat (OutputFile res)]). rewrite Hc, <- app_assoc.
      split; [reflexivity|]. split_all; simplify_eq;
        repeat match goal with
               | H : In _ (_ ++ _) |- _ => apply in_app_or in H; destruct H
               | H : In _ [_] |- _ => destruct H as [H|[]]; try discriminate
               end; eauto.
  - exists tr. split_all; simplify_eq; eauto.
Qed.

(** *** The calls of a conversion, in their order *)

Lemma detectSchema_eq file delim N s :
  detectSchema file delim N s
  = (Returns match openCSV file delim (world s) with
             | None => inl "open"%string
             | Some outcomes => fst (detectSchemaFrom (newReader outcomes) N)
             end,
     mkSys (world s) (calls s ++ [CallOpen file])).
Proof.
  unfold detectSchema. unfold_run.
  destruct (openCSV file delim (world s)); reflexivity.
Qed.

Lemma detectSchemaFrom_header header outcomes N :
  exists types,
    fst (detectSchemaFrom (newReader (Row header :: outcomes)) N)
    = inr (cleanHeaders header, types).
Proof.
  unfold detectSchemaFrom, csvRead, newReader. cbn [pending].
  destruct (sampleLoop _ _ _) as [types r2]. eexists. reflexivity.
Qed.

Lemma writeParquet_trace inputFile outFile delim headers types schema batchSize s :
  exists trace,
    calls (snd (writeParquet inputFile outFile delim headers types schema batchSize s))
    = calls s ++ CallCreate outFile :: trace
    /\ ((trace = []
         /\ exists e, fst (writeParquet inputFile outFile delim headers types schema
                             batchSize s) = Returns (Some e))
        \/ trace = [CallOpen inputFile]).
Proof.
  unfold writeParquet. unfold_run.
  case_call; [|exists []; rewrite ?app_nil_r; eauto].
  case_call; [|exists []; rewrite ?app_nil_r; eauto].
  case_call;
    try solve [case_call; exists [CallOpen inputFile];
               rewrite ?app_nil_r, <- ?app_assoc; auto].
  match goal with |- context [writeRows ?a ?b ?c ?d ?e ?f ?g] =>
    pose proof (writeRows_calls a c d e b f g) as Hc;
    destruct (writeRows a b c d e f g) as [[n|] s1]
  end; unfold_run.
  - case_call; exists [CallOpen inputFile];
      rewrite Hc, ?app_nil_r, <- ?app_assoc; auto.
  - exists [CallOpen inputFile]. rewrite Hc, ?app_nil_r, <- ?app_assoc. auto.
Qed.

(** The calls of [convertFile] up to the end of the write phase.  [start]
    is what every conversion that reaches the writer has called by then:
    the lookup of the input, its opening for the detection, the making of
    the output directory when one is configured, and the creation of the
    output. *)
Lemma convertWrite_trace inputFile cfg s :
  let out := outputPath inputFile cfg in
  let mk := if isEmpty (OutputDir cfg) then [] else [CallMkdirAll (OutputDir cfg)] in
  let start := [CallStat inputFile; CallOpen inputFile] ++ mk ++ [CallCreate out] in
  exists trace,
    calls (snd (convertWrite inputFile cfg s)) = calls s ++ trace
    /\ match fst (convertWrite inputFile cfg s) with
       | Returns (inr _) => trace = start ++ [CallOpen inputFile]
       | Returns (inl _) =>
         trace = [CallStat inputFile]
         \/ trace = [CallStat inputFile; CallOpen inputFile]
         \/ trace = [CallStat inputFile; CallOpen inputFile] ++ mk
         \/ trace = start ++ [CallRemove out]
         \/ trace = start ++ [CallOpen inputFile; CallRemove out]
       | Panics => trace = start ++ [CallOpen inputFile]
       end
    /\ (forall info header outcomes,
          os_Stat inputFile (world s) = Some info ->
          openCSV inputFile (delimiterOf cfg) (world s) = Some (Row header :: outcomes) ->
          isEmpty (OutputDir cfg) = true
          \/ fst (os_MkdirAll (OutputDir cfg) (world s)) = true ->
          exists rest, trace = start ++ rest).
Proof.
  intros out mk start. unfold convertWrite. unfold_run.
  destruct (os_Stat inputFile (world s)) as [info|] eqn:Hstat; unfold_run.
  2:{ exists [CallStat inputFile]. split; [reflexivity|]. split; [auto|].
      intros ? ? ? H. discriminate H. }
  rewrite detectSchema_eq. unfold_run.
  pose proof (detectSchema_run inputFile (delimiterOf cfg) (SampleRows cfg)
                (mkSys (world s) (calls s ++ [CallStat inputFile])))
    as (detected & Hd & Hlen).
  rewrite detectSchema_eq in Hd. cbn [world calls] in Hd.
  injection Hd as Hd. rewrite Hd.
  destruct detected as [e|[headers types]]; unfold_run.
  { exists [CallStat inputFile; CallOpen inputFile].
    split; [rewrite <- app_assoc; reflexivity|]. split; [auto|].
    intros info' header outcomes _ Hopen _. rewrite Hopen in Hd.
    destruct (detectSchemaFrom_header header outcomes (SampleRows cfg)) as [ts Hts].
    rewrite Hts in Hd. discriminate Hd. }
  destruct (buildJSONSchema_is_Some headers types) as [schema ->]; [eauto|].
  unfold_run. subst start mk.
  destruct (isEmpty (OutputDir cfg)) eqn:Hdir; unfold_run.
  - match goal with |- context [writeParquet ?a ?b ?c ?d ?e ?f ?g ?h] =>
      destruct (writeParquet_trace a b c d e f g h) as (tr & Hc & Htr);
      destruct (writeParquet a b c d e f g h) as [[[werr|]|] s1]
    end; unfold_run; cbn [fst snd calls] in Hc, Htr;
      try match goal with |- context [os_Remove ?a ?b] =>
            destruct (os_Remove a b) as [?removed ?w] eqn:?; unfold_run end;
      cbn [calls]; rewrite Hc; fold out;
      (destruct Htr as [[-> [e He]] | ->]; [try discriminate He|]);
      eexists; (split; [rewrite <- ?app_assoc; cbn [app]; reflexivity|]);
      (split; [cbn [app]; auto 8|]); intros; eexists; cbn [app]; reflexivity.
  - destruct (os_MkdirAll (OutputDir cfg) (world s)) as [[|] w0] eqn:Hmk; unfold_run.
    2:{ exists [CallStat inputFile; CallOpen inputFile; CallMkdirAll (OutputDir cfg)].
        split; [rewrite <- !app_assoc; reflexivity|]. split; [cbn [app]; auto 8|].
        intros ? ? ? _ _ [H|H]; discriminate H. }
    match goal with |- context [writeParquet ?a ?b ?c ?d ?e ?f ?g ?h] =>
      destruct (writeParquet_trace a b c d e f g h) as (tr & Hc & Htr);
      destruct (writeParquet a b c d e f g h) as [[[werr|]|] s1]
    end; unfold_run; cbn [fst snd calls] in Hc, Htr;
      try match goal with |- context [os_Remove ?a ?b] =>
            destruct (os_Remove a b) as [?removed ?w] eqn:?; unfold_run end;
      cbn [calls]; rewrite Hc; fold out;
      (destruct Htr as [[-> [e He]] | ->]; [try discriminate He|]);
      eexists; (split; [rewrite <- ?app_assoc; cbn [app]; reflexivity|]);
      (split; [cbn [app]; auto 8|]); intros; eexists; cbn [app]; reflexivity.
Qed.

(** The calls of a whole conversion. *)
Lemma convertFile_trace inputFile cfg s :
  let out := outputPath inputFile cfg in
  let mk := if isEmpty (OutputDir cfg) then [] else [CallMkdirAll (OutputDir cfg)] in
  let start := [CallStat inputFile; CallOpen inputFile] ++ mk ++ [CallCreate out] in
  exists trace,
    calls (snd (convertFile inputFile cfg s)) = calls s ++ trace
    /\ match fst (convertFile inputFile cfg s) with
       | Returns res =>
         match Err res with
         | None =>
           OutputFile res = out /\ OutputSize res <> 0
           /\ trace = start ++ [CallOpen inputFile; CallStat out]
                      ++ (if DeleteOriginal cfg then [CallRemove inputFile] else [])
         | Some _ =>
           OutputSize res = 0
           /\ (trace = [CallStat inputFile]
               \/ trace = [CallStat inputFile; CallOpen inputFile]
               \/ trace = [CallStat inputFile; CallOpen inputFile] ++ mk
               \/ trace = start ++ [CallRemove out]
               \/ trace = start ++ [CallOpen inputFile; CallRemove out]
               \/ trace = start ++ [CallOpen inputFile; CallStat out])
         end
       | Panics => trace = start ++ [CallOpen inputFile]
       end
    /\ (forall info header outcomes,
          os_Stat inputFile (world s) = Some info ->
          openCSV inputFile (delimiterOf cfg) (world s) = Some (Row header :: outcomes) ->
          isEmpty (OutputDir cfg) = true
          \/ fst (os_MkdirAll (OutputDir cfg) (world s)) = true ->
          exists rest, trace = start ++ rest).
Proof.
  intros out mk start.
  destruct (convertWrite_trace inputFile cfg s) as (tr & Hc & Hshape & Hreach).
  fold out mk start in Hshape, Hreach.
  destruct (convertWrite_calls inputFile cfg s) as (tr' & Hc' & _ & _ & _ & Hinr & Hinl).
  unfold convertFile. unfold_run.
  destruct (convertWrite inputFile cfg s) as [[[res|res]|] s1];
    cbn [fst snd] in *; unfold_run.
  - exists tr. split; [exact Hc|]. split; [|exact Hreach].
    destruct (Hinl res eq_refl) as (_ & Hsz & Herr).
    destruct (Err res) as [e|]; [|contradiction].
    split; [exact Hsz|]. intuition.
  - destruct (Hinr res eq_refl) as (_ & Hout & Hsz & Herr & _).
    fold out in Hout. subst tr.
    assert (Hmore : forall more info header outcomes,
              os_Stat inputFile (world s) = Some info ->
              openCSV inputFile (delimiterOf cfg) (world s)
              = Some (Row header :: outcomes) ->
              isEmpty (OutputDir cfg) = true
              \/ fst (os_MkdirAll (OutputDir cfg) (world s)) = true ->
              exists rest, (start ++ [CallOpen inputFile]) ++ more = start ++ rest).
    { intros. rewrite <- app_assoc. eauto. }
    unfold verifyOutput. unfold_run. rewrite Hout.
    destruct (os_Stat out (world s1)) as [info|]; unfold_run.
    + destruct (Z.eqb_spec (Size info) 0) as [Hz|Hnz]; unfold_run.
      * exists ((start ++ [CallOpen inputFile]) ++ [CallStat out]).
        rewrite Hc, <- !app_assoc. split; [reflexivity|].
        cbn [Err OutputSize setErr]. rewrite !app_assoc.
        split; [|apply Hmore]. split; [exact Hsz|].
        rewrite <- !app_assoc. cbn [app]. auto 8.
      * destruct (DeleteOriginal cfg) eqn:Hdel; unfold_run.
        -- destruct (os_Remove inputFile (world s1)) as [removed w]. unfold_run.
           exists ((start ++ [CallOpen inputFile]) ++ [CallStat out; CallRemove inputFile]).
           rewrite Hc, <- !app_assoc. split; [reflexivity|].
           cbn [Err OutputSize OutputFile setOutputSize]. rewrite Herr.
           rewrite !app_assoc. split; [|apply Hmore].
           rewrite <- !app_assoc. cbn [app]. auto.
        -- exists ((start ++ [CallOpen inputFile]) ++ [CallStat out]).
           rewrite Hc, <- !app_assoc. split; [reflexivity|].
           cbn [Err OutputSize OutputFile setOutputSize]. rewrite Herr.
           rewrite !app_assoc. split; [|apply Hmore].
           rewrite <- !app_assoc. cbn [app]. rewrite ?app_nil_r. auto.
    + exists ((start ++ [CallOpen inputFile]) ++ [CallStat out]).
      rewrite Hc, <- !app_assoc. split; [reflexivity|].
      cbn [Err OutputSize setErr]. rewrite !app_assoc.
      split; [|apply Hmore]. split; [exact Hsz|].
      rewrite <- !app_assoc. cbn [app]. auto 8.
  - exists tr. split; [exact Hc|]. split; [exact Hshape|exact Hreach].
Qed.

(** C9, as the code has it.  With no output directory, the output path of
    an input whose extension is [.parquet] is the input path cleaned: the
    input itself when it is a clean path.  A conversion whose input can be
    looked up and has a readable header row creates that path as its
    output; it does so once, after it has looked up and opened the input
    and before it opens the input again to read the rows, and it creates
    no other file and no directory.  A conversion without an error has
    made exactly these calls: the lookup and the opening of the input, the
    creation of the output path, the opening of the input, the lookup of
    the output path and, with delete-original, the removal of the input
    path as the last call. *)
Theorem parquet_input_is_its_own_output (inputFile : string) (cfg : Config) :
  Ext inputFile = ".parquet"%string -> OutputDir cfg = EmptyString ->
  outputPath inputFile cfg = Clean inputFile
  /\ (Clean inputFile = inputFile -> outputPath inputFile cfg = inputFile)
  /\ forall s, exists trace,
       calls (snd (convertFile inputFile cfg s)) = calls s ++ trace
       /\ (forall p, In (CallCreate p) trace -> p = Clean inputFile)
       /\ (forall p, ~ In (CallMkdirAll p) trace)
       /\ (forall info header outcomes,
             os_Stat inputFile (world s) = Some info ->
             openCSV inputFile (delimiterOf cfg) (world s)
             = Some (Row header :: outcomes) ->
             In (CallCreate (Clean inputFile)) trace)
       /\ (In (CallCreate (Clean inputFile)) trace ->
             exists rest,
               trace = [CallStat inputFile; CallOpen inputFile;
                        CallCreate (Clean inputFile)] ++ rest
               /\ forall p, ~ In (CallCreate p) rest)
       /\ (forall res, fst (convertFile inputFile cfg s) = Returns res ->
             Err res = None ->
             OutputFile res = Clean inputFile
             /\ trace = [CallStat inputFile; CallOpen inputFile;
                         CallCreate (Clean inputFile);
                         CallOpen inputFile; CallStat (Clean inputFile)]
                        ++ (if DeleteOriginal cfg then [CallRemove inputFile] else [])
             /\ In (CallCreate (Clean inputFile)) trace
             /\ In (CallOpen inputFile) trace
             /\ (DeleteOriginal cfg = true ->
                  last trace = Some (CallRemove inputFile))).
Proof.
  intros Hext Hdir.
  pose proof (outputPath_parquet inputFile cfg Hext Hdir) as Hpath.
  split; [exact Hpath|]. split; [congruence|].
  intros s.
  destruct (convertFile_trace inputFile cfg s) as (tr & Hc & Hshape & Hreach).
  rewrite Hpath, Hdir in Hshape, Hreach. cbn [isEmpty app] in Hshape, Hreach.
  exists tr. split; [exact Hc|].
  assert (Hcases :
            tr = [CallStat inputFile]
            \/ tr = [CallStat inputFile; CallOpen inputFile]
            \/ exists rest,
                 tr = [CallStat inputFile; CallOpen inputFile;
                       CallCreate (Clean inputFile)] ++ rest
                 /\ (forall p, ~ In (CallCreate p) rest)
                 /\ (forall p, ~ In (CallMkdirAll p) rest)).
  { destruct (fst (convertFile inputFile cfg s)) as [res|].
    - destruct (Err res).
      + destruct Hshape as (_ & [-> | [-> | [-> | [-> | [-> | ->]]]]]); auto;
          right; right; eexists; (split; [reflexivity|]);
          split; intros p; cbn [In]; intuition discriminate.
      + destruct Hshape as (_ & _ & ->). right. right.
        eexists. split; [reflexivity|].
        destruct (DeleteOriginal cfg);
          split; intros p; cbn [In app]; intuition discriminate.
    - subst tr. right. right. eexists. split; [reflexivity|].
      split; intros p; cbn [In]; intuition discriminate. }
  split; [|split; [|split; [|split]]].
  - intros p Hp. destruct Hcases as [-> | [-> | (rest & -> & Hno & _)]].
    + cbn [In] in Hp. intuition discriminate.
    + cbn [In] in Hp. intuition discriminate.
    + cbn [In app] in Hp. destruct Hp as [Hp|[Hp|[Hp|Hp]]]; try discriminate Hp.
      * injection Hp as <-. reflexivity.
      * exfalso. eapply Hno, Hp.
  - intros p Hp. destruct Hcases as [-> | [-> | (rest & -> & _ & Hno)]].
    + cbn [In] in Hp. intuition discriminate.
    + cbn [In] in Hp. intuition discriminate.
    + cbn [In app] in Hp. destruct Hp as [Hp|[Hp|[Hp|Hp]]]; try discriminate Hp.
      exfalso. eapply Hno, Hp.
  - intros info header outcomes Hstat Hopen.
    destruct (Hreach info header outcomes Hstat Hopen) as [rest ->]; [left; reflexivity|].
    cbn [In]. auto.
  - intros Hin. destruct Hcases as [-> | [-> | (rest & -> & Hno & _)]].
    + cbn [In] in Hin. intuition discriminate.
    + cbn [In] in Hin. intuition discriminate.
    + exists rest. split; [reflexivity|exact Hno].
  - intros res Hr Herr. rewrite Hr in Hshape. rewrite Herr in Hshape.
    destruct Hshape as (Hout & _ & ->).
    split; [exact Hout|]. split; [reflexivity|].
    split; [cbn [In]; auto|]. split; [cbn [In]; auto|].
    intros ->. reflexivity.
Qed.

(** C10. With a batch size of at least one the remainder of the row count
    by the batch size is defined at every row and the conversion of a file
    returns; with a batch size of zero the remainder is a division by zero
    at the first row that is written, and a configuration file can set the
    batch size to zero, since only the command-line flag is compared with
    zero. *)
Theorem batch_size_modulo :
  (forall cfg inputFile s, 1 <= BatchSize cfg ->
     (forall rowCount, is_Some (goMod rowCount (BatchSize cfg)))
     /\ exists res s', convertFile inputFile cfg s = (Returns res, s'))
  /\ (forall pw headers types record rest rowCount s jsonRow w,
        recordToJSON record headers types = Some jsonRow ->
        pw_Write pw jsonRow (world s) = (true, w) ->
        goMod (wrap64 (rowCount + 1)) 0 = None
        /\ fst (writeRows pw (Row record :: rest) headers types 0 rowCount s) = Panics)
  /\ (forall input : string, input <> EmptyString ->
        exists cfg,
          Load defaultFlags
               (Parsed (mkYaml (Some input) None None None (Some 0) None None))
          = inr cfg /\ BatchSize cfg = 0).
Proof.
  split; [|split].
  - intros cfg inputFile s Hbs. split.
    + intros rowCount. unfold goMod.
      destruct (Z.eqb_spec (BatchSize cfg) 0); [lia|eauto].
    + apply convertFile_returns. lia.
  - intros pw headers types record rest rowCount s jsonRow w Hjson Hw.
    split; [reflexivity|]. eapply writeRows_zero_panics; eauto.
  - intros input Hne. unfold Load. cbn.
    apply isEmpty_false in Hne. rewrite Hne. eauto.
Qed.
End ConvertFacts.

Section ConvertExamples.
Local Open Scope string_scope.

Lemma output_verification_witness :
  let cfg := mkConfig "d/in.csv" EmptyString true "info" 10000 "," 100 in
  let w : MemWorld := [("d/in.csv", CsvFile [Row ["a"; "b"]])]%string in
  exists res0 s1 res s2,
    @convertWrite sampleLib memRuntime "d/in.csv" cfg (memSys w) = (Returns (inr res0), s1)
    /\ @convertFile sampleLib memRuntime "d/in.csv" cfg (memSys w) = (Returns res, s2)
    /\ Err res = None /\ OutputSize res = 8.
Proof.
  intros cfg w.
  destruct (@convertWrite sampleLib memRuntime "d/in.csv" cfg (memSys w))
    as [stage s1] eqn:Hw.
  vm_compute in Hw. injection Hw as <- <-.
  destruct (@output_verification sampleLib memRuntime "d/in.csv" cfg (memSys w) _ _ eq_refl)
    as (res & s2 & Hrun & _ & _ & Hstat & _).
  do 4 eexists. split; [reflexivity|]. split; [exact Hrun|]. exact Hstat.
Defined.

Example conversion_verified :
  let cfg := mkConfig "d/in.csv" EmptyString false "info" 10000 "," 100 in
  let w : MemWorld := [("d/in.csv", CsvFile [Row ["a"; "b"]; Row ["1"; "x"]])]%string in
  fst (@convertFile sampleLib memRuntime "d/in.csv" cfg (memSys w))
  = Returns (mkResult "d/in.csv" "d/in.parquet" 2 9 None).
Proof. vm_compute. reflexivity. Qed.

(** A file [d/in.parquet] that holds CSV text, converted in place: the
    output is created over the input, the rows are read from what was
    just created, the result has no error, and the removal of the
    original removes the output. *)
Lemma parquet_input_is_its_own_output_witness :
  let cfg := mkConfig "d/in.parquet" EmptyString true "info" 10000 "," 100 in
  let w : MemWorld := [("d/in.parquet", CsvFile [Row ["a"; "b"]; Row ["1"; "x"]])] in
  Ext "d/in.parquet" = ".parquet"%string /\ OutputDir cfg = EmptyString
  /\ outputPath "d/in.parquet" cfg = "d/in.parquet"%string
  /\ exists res s',
       @convertFile sampleLib memRuntime "d/in.parquet" cfg (memSys w) = (Returns res, s')
       /\ Err res = None
       /\ @calls memRuntime s'
          = [CallStat "d/in.parquet"; CallOpen "d/in.parquet";
             CallCreate "d/in.parquet"; CallOpen "d/in.parquet";
             CallStat "d/in.parquet"; CallRemove "d/in.parquet"]
       /\ @world memRuntime s' = [].
Proof.
  intros cfg w.
  assert (Hext : Ext "d/in.parquet" = ".parquet"%string) by reflexivity.
  assert (Hdir : OutputDir cfg = EmptyString) by reflexivity.
  destruct (@parquet_input_is_its_own_output sampleLib memRuntime "d/in.parquet" cfg
              Hext Hdir) as (Hpath & _ & Htrace).
  split; [exact Hext|]. split; [exact Hdir|]. split; [exact Hpath|].
  destruct (Htrace (memSys w)) as (trace & Hc & _ & _ & _ & _ & Hres).
  destruct (@convertFile sampleLib memRuntime "d/in.parquet" cfg (memSys w))
    as [[res|] s'] eqn:Hrun; [|vm_compute in Hrun; discriminate Hrun].
  assert (Herr : Err res = None)
    by (vm_compute in Hrun; injection Hrun as <- _; reflexivity).
  destruct (Hres res eq_refl Herr) as (_ & Htr & _).
  exists res, s'. split; [reflexivity|]. split; [exact Herr|].
  split.
  - cbn [snd] in Hc. rewrite Hc, Htr. reflexivity.
  - vm_compute in Hrun. injection Hrun as _ <-. reflexivity.
Defined.

(** C9 as stated fails where the input path is not a clean one: the
    output of [./x.parquet] is [x.parquet]. *)
Lemma parquet_output_path_differs :
  Ext "./x.parquet" = ".parquet"%string
  /\ OutputDir defaultConfig = EmptyString
  /\ outputPath "./x.parquet" defaultConfig = "x.parquet"%string
  /\ outputPath "./x.parquet" defaultConfig <> "./x.parquet"%string.
Proof. repeat split; try reflexivity. vm_compute. discriminate. Qed.

Lemma batch_size_modulo_witness :
  let cfg := mkConfig "d/in.csv" EmptyString false "info" 1 "," 100 in
  let w : MemWorld := [("d/in.csv", CsvFile [Row ["a"; "b"]; Row ["1"; "x"]])]%string in
  1 <= BatchSize cfg
  /\ exists res s', @convertFile sampleLib memRuntime "d/in.csv" cfg (memSys w)
                    = (Returns res, s').
Proof.
  intros cfg w. split; [vm_compute; discriminate|].
  apply (proj1 (@batch_size_modulo sampleLib memRuntime) cfg "d/in.csv" (memSys w)).
  vm_compute. discriminate.
Defined.

(** The batch size of zero from a configuration file, end to end. *)
Example batch_size_zero_panics :
  let w : MemWorld := [("d/in.csv", CsvFile [Row ["a"; "b"]; Row ["1"; "x"]])]%string in
  exists cfg,
    Load defaultFlags
         (Parsed (mkYaml (Some "d/in.csv"%string) None None None (Some 0) None None))
    = inr cfg
    /\ fst (@convertFile sampleLib memRuntime "d/in.csv" cfg (memSys w)) = Panics.
Proof. intros w. eexists. split; [reflexivity|]. vm_compute. reflexivity. Qed.
End ConvertExamples.

(** ** The batch *)

Section BatchFacts.
Context {lib : GoLib} {rt : Runtime}.

Lemma slotsHeld_cons t tasks :
  slotsHeld (t :: tasks) = ((if holdsSlot t then 1 else 0) + slotsHeld tasks)%nat.
Proof.
  unfold slotsHeld. destruct (holdsSlot t) eqn:Ht.
  - rewrite filter_cons_True by exact Ht. reflexivity.
  - rewrite filter_cons_False by congruence. reflexivity.
Qed.

Lemma slotsHeld_insert tasks : forall idx t t',
  tasks !! idx = Some t ->
  (slotsHeld (<[idx := t']> tasks) + (if holdsSlot t then 1 else 0)
   = slotsHeld tasks + (if holdsSlot t' then 1 else 0))%nat.
Proof.
  induction tasks as [|x rest IH]; intros idx t t' Hidx; [discriminate|].
  destruct idx as [|idx]; simpl in *.
  - injection Hidx as ->. rewrite !slotsHeld_cons. lia.
  - rewrite !slotsHeld_cons. specialize (IH idx t t' Hidx). lia.
Qed.

Lemma stepsLeft_insert tasks : forall idx t t',
  tasks !! idx = Some t ->
  (foldr (fun t n => stepsLeft t + n) 0 (<[idx := t']> tasks) + stepsLeft t
   = foldr (fun t n => stepsLeft t + n) 0 tasks + stepsLeft t')%nat.
Proof.
  induction tasks as [|x rest IH]; intros idx t t' Hidx; [discriminate|].
  destruct idx as [|idx]; simpl in *.
  - injection Hidx as ->. lia.
  - specialize (IH idx t t' Hidx). lia.
Qed.

Lemma batchStep_measure cfg files b b' :
  batchStep cfg files b b' -> (batchMeasure b' < batchMeasure b)%nat.
Proof.
  unfold batchMeasure.
  destruct 1 as [idx b Hc Ht Hs|idx file res s' b Hc Ht Hf Hr
                 |idx file s' b Hc Ht Hf Hr|idx b Hc Ht];
    rewrite Hc; cbn [crashed tasks]; try lia;
    pose proof (stepsLeft_insert (tasks b) idx _ Running Ht);
    pose proof (stepsLeft_insert (tasks b) idx _ Stored Ht);
    pose proof (stepsLeft_insert (tasks b) idx _ Finished Ht);
    simpl in *; lia.
Qed.

Lemma batchInv_start cfg files s : batchInv cfg files (startBatch files s).
Proof.
  unfold batchInv, startBatch. cbn [tasks results].
  rewrite !length_replicate. repeat split.
  - assert (H : forall n, slotsHeld (replicate n Spawned) = 0%nat).
    { induction n as [|n IH]; [reflexivity|]. simpl. rewrite slotsHeld_cons. exact IH. }
    rewrite H. unfold maxConcurrent. lia.
  - intros idx file Hf. unfold slotOk. cbn [tasks results].
    apply lookup_lt_Some in Hf.
    rewrite !lookup_replicate_2 by exact Hf. reflexivity.
Qed.

Lemma slotOk_other cfg b b' idx file :
  tasks b' !! idx = tasks b !! idx -> results b' !! idx = results b !! idx ->
  slotOk cfg b idx file -> slotOk cfg b' idx file.
Proof. unfold slotOk. intros -> ->. tauto. Qed.

Lemma batchStep_inv cfg files b b' :
  batchInv cfg files b -> batchStep cfg files b b' -> batchInv cfg files b'.
Proof.
  intros (Hlt & Hlr & Hslots & Hok).
  destruct 1 as [idx b Hc Ht Hs|idx file res s' b Hc Ht Hf Hr
                 |idx file s' b Hc Ht Hf Hr|idx b Hc Ht];
    unfold batchInv; cbn [tasks results]; rewrite ?length_insert.
  - split; [exact Hlt|]. split; [exact Hlr|]. split.
    + pose proof (slotsHeld_insert (tasks b) idx _ Running Ht). simpl in *. lia.
    + intros j file Hf. specialize (Hok j file Hf).
      destruct (decide (j = idx)) as [->|Hne].
      * unfold slotOk in *. cbn [tasks results].
        rewrite list_lookup_insert_eq by (eapply lookup_lt_Some; eauto).
        rewrite Ht in Hok. exact Hok.
      * eapply slotOk_other; [| |exact Hok]; cbn [tasks results];
          [apply list_lookup_insert_ne; congruence|reflexivity].
  - split; [exact Hlt|]. split; [exact Hlr|]. split.
    + pose proof (slotsHeld_insert (tasks b) idx _ Stored Ht). simpl in *. lia.
    + intros j file' Hf'. specialize (Hok j file' Hf').
      destruct (decide (j = idx)) as [->|Hne].
      * unfold slotOk. cbn [tasks results].
        rewrite list_lookup_insert_eq by (eapply lookup_lt_Some; eauto).
        assert (file' = file) by congruence. subst file'.
        exists res, (system b), s'.
        rewrite list_lookup_insert_eq
          by (rewrite Hlr; eapply lookup_lt_Some; eauto).
        split; [reflexivity|]. split; [|exact Hr].
        destruct (convertFile_calls file cfg (system b)) as (tr & _ & _ & _ & Hres).
        rewrite Hr in Hres. apply (Hres res eq_refl).
      * eapply slotOk_other; [| |exact Hok]; cbn [tasks results];
          apply list_lookup_insert_ne; congruence.
  - split; [exact Hlt|]. split; [exact Hlr|]. split; [exact Hslots|].
    intros j file' Hf'. eapply slotOk_other; [| |exact (Hok j file' Hf')]; reflexivity.
  - split; [exact Hlt|]. split; [exact Hlr|]. split.
    + pose proof (slotsHeld_insert (tasks b) idx _ Finished Ht). simpl in *. lia.
    + intros j file Hf. specialize (Hok j file Hf).
      destruct (decide (j = idx)) as [->|Hne].
      * unfold slotOk in *. cbn [tasks results].
        rewrite list_lookup_insert_eq by (eapply lookup_lt_Some; eauto).
        rewrite Ht in Hok. exact Hok.
      * eapply slotOk_other; [| |exact Hok]; cbn [tasks results];
          [apply list_lookup_insert_ne; congruence|reflexivity].
Qed.

Lemma batchRun_inv cfg files b b' :
  batchInv cfg files b -> batchRun cfg files b b' -> batchInv cfg files b'.
Proof.
  intros Hinv. induction 1 as [|b1 b2 b3 _ IH Hstep]; [assumption|].
  eapply batchStep_inv; [apply IH, Hinv|exact Hstep].
Qed.

Lemma batchRun_trans cfg files b1 b2 b3 :
  batchRun cfg files b1 b2 -> batchRun cfg files b2 b3 -> batchRun cfg files b1 b3.
Proof.
  intros H12. induction 1 as [|b2 b3 b4 _ IH Hstep]; [assumption|].
  eapply run_step; [apply IH, H12|exact Hstep].
Qed.

Lemma batchRun_not_crashed cfg files b b' :
  BatchSize cfg <> 0 -> crashed b = false -> batchRun cfg files b b' ->
  crashed b' = false.
Proof.
  intros Hbs Hc. induction 1 as [|b1 b2 b3 _ IH Hstep]; [assumption|].
  destruct Hstep as [| |idx file s' b Hcb Ht Hf Hr|]; try reflexivity.
  destruct (convertFile_returns file cfg (system b) Hbs) as (res & s1 & Hret).
  congruence.
Qed.

(** A batch that has not finished and has not crashed can take a step:
    the semaphore never blocks every task. *)
Lemma batch_progress cfg files b :
  batchInv cfg files b -> crashed b = false ->
  ~ Forall (fun t => t = Finished) (tasks b) ->
  exists b', batchStep cfg files b b'.
Proof.
  intros (Hlt & Hlr & Hslots & Hok) Hc Hnot.
  destruct (decide (Stored ∈ tasks b)) as [Hst|Hnst].
  { apply list_elem_of_lookup in Hst as [idx Hidx].
    eexists. eapply step_release; eauto. }
  destruct (decide (Running ∈ tasks b)) as [Had|Hnad].
  { apply list_elem_of_lookup in Had as [idx Hidx].
    destruct (files !! idx) as [file|] eqn:Hf.
    2:{ apply lookup_ge_None in Hf. apply lookup_lt_Some in Hidx. lia. }
    destruct (convertFile file cfg (system b)) as [[res|] s'] eqn:Hr.
    - eexists. eapply step_convert; eauto.
    - eexists. eapply step_panic; eauto. }
  apply not_Forall_Exists in Hnot; [|intros t; apply _].
  apply Exists_exists in Hnot as (t & Hin & Ht). unfold compose in Ht.
  assert (t = Spawned) as ->.
  { destruct t; congruence. }
  apply list_elem_of_lookup in Hin as [idx Hidx].
  assert (Hzero : slotsHeld (tasks b) = 0%nat).
  { clear -Hnst Hnad. induction (tasks b) as [|x rest IH]; [reflexivity|].
    rewrite slotsHeld_cons.
    rewrite IH;
      [|intros H; apply Hnst; right; exact H|intros H; apply Hnad; right; exact H].
    destruct x; try reflexivity; exfalso; [apply Hnad|apply Hnst]; left. }
  eexists. eapply step_acquire; eauto. rewrite Hzero. unfold maxConcurrent. lia.
Qed.

Lemma batch_finishes cfg files :
  BatchSize cfg <> 0 ->
  forall n b, (batchMeasure b <= n)%nat -> batchInv cfg files b -> crashed b = false ->
  exists b', batchRun cfg files b b' /\ allFinished b'.
Proof.
  intros Hbs. induction n as [|n IH]; intros b Hm Hinv Hc.
  - unfold batchMeasure in Hm. rewrite Hc in Hm. lia.
  - destruct (decide (Forall (fun t => t = Finished) (tasks b))) as [Hall|Hnot].
    + exists b. split; [apply run_refl|]. split; assumption.
    + destruct (batch_progress cfg files b Hinv Hc Hnot) as [b1 Hstep].
      assert (Hrun : batchRun cfg files b b1)
        by (eapply run_step; [apply run_refl|exact Hstep]).
      destruct (IH b1) as (b' & Hrun' & Hfin).
      * pose proof (batchStep_measure _ _ _ _ Hstep). lia.
      * eapply batchStep_inv; eassumption.
      * eapply batchRun_not_crashed; eassumption.
      * exists b'. split; [|exact Hfin]. eapply batchRun_trans; eassumption.
Qed.

(** C7. In every state a batch run can reach, whatever the order in
    which the tasks took their slots and finished: the result slice is as
    long as the file list, at most four tasks hold a slot of the
    semaphore, a slot of the result slice is the zero value until its own
    task stores into it and from then on is what [convertFile] returned
    for the file at that position, and when every task has finished the
    results are in the order of the files.  Every step brings the batch
    nearer its end, a batch that is not finished can take a step, and
    with a batch size other than zero nothing panics and the batch runs
    to the end. *)
Theorem batch_results_in_file_order (cfg : Config) (files : list string) (s : Sys)
    (b : Batch) :
  batchRun cfg files (startBatch files s) b ->
  length (results b) = length files
  /\ (slotsHeld (tasks b) <= maxConcurrent)%nat
  /\ (forall idx, tasks b !! idx = Some Spawned \/ tasks b !! idx = Some Running ->
        results b !! idx = Some zeroResult)
  /\ (forall idx file, files !! idx = Some file ->
        tasks b !! idx = Some Stored \/ tasks b !! idx = Some Finished ->
        exists res s0 s1,
          results b !! idx = Some res /\ InputFile res = file
          /\ convertFile file cfg s0 = (Returns res, s1))
  /\ (allFinished b -> InputFile <$> results b = files)
  /\ (forall b', batchStep cfg files b b' -> (batchMeasure b' < batchMeasure b)%nat)
  /\ (crashed b = false -> ~ allFinished b -> exists b', batchStep cfg files b b')
  /\ (BatchSize cfg <> 0 ->
        crashed b = false
        /\ exists b', batchRun cfg files b b' /\ allFinished b'
                      /\ InputFile <$> results b' = files).
Proof.
  intros Hrun.
  pose proof (batchRun_inv _ _ _ _ (batchInv_start cfg files s) Hrun) as Hinv.
  assert (Horder : forall b0, batchInv cfg files b0 -> allFinished b0 ->
                              InputFile <$> results b0 = files).
  { intros b0 (Hlt0 & Hlr0 & _ & Hok0) [_ Hall]. apply list_eq. intros idx.
    rewrite list_lookup_fmap.
    destruct (files !! idx) as [file|] eqn:Hf.
    - specialize (Hok0 idx file Hf). unfold slotOk in Hok0.
      destruct (tasks b0 !! idx) as [t|] eqn:Ht; [|contradiction].
      rewrite Forall_lookup in Hall. rewrite (Hall idx t Ht) in Hok0.
      destruct Hok0 as (res & _ & _ & -> & <- & _). reflexivity.
    - apply lookup_ge_None in Hf. rewrite lookup_ge_None_2 by lia. reflexivity. }
  destruct Hinv as (Hlt & Hlr & Hslots & Hok).
  split; [exact Hlr|]. split; [exact Hslots|]. split.
  { intros idx Hidx.
    destruct (files !! idx) as [file|] eqn:Hf.
    - specialize (Hok idx file Hf). unfold slotOk in Hok.
      destruct Hidx as [Ht|Ht]; rewrite Ht in Hok; exact Hok.
    - apply lookup_ge_None in Hf.
      destruct Hidx as [Ht|Ht]; apply lookup_lt_Some in Ht; lia. }
  split.
  { intros idx file Hf Hidx. specialize (Hok idx file Hf). unfold slotOk in Hok.
    destruct Hidx as [Ht|Ht]; rewrite Ht in Hok; exact Hok. }
  split; [apply Horder; repeat split; assumption|].
  split; [intros b'; apply batchStep_measure|].
  split.
  { intros Hc Hnot. apply batch_progress; [repeat split; assumption|exact Hc|].
    intros Hall. apply Hnot. split; assumption. }
  intros Hbs.
  assert (Hc : crashed b = false)
    by exact (batchRun_not_crashed cfg files (startBatch files s) b Hbs eq_refl Hrun).
  split; [exact Hc|].
  destruct (batch_finishes cfg files Hbs (batchMeasure b) b) as (b' & Hrun' & Hfin);
    [lia|repeat split; assumption|exact Hc|].
  exists b'. split; [exact Hrun'|]. split; [exact Hfin|].
  apply Horder; [|exact Hfin].
  eapply batchRun_inv; [|exact Hrun']. repeat split; assumption.
Qed.

(** The results of [ConvertAll] on resolved files are as many as the
    files and in their order. *)
Lemma ConvertAll_order cfg s files s' rs :
  resolveFiles cfg s = (Returns (inr files), s') ->
  ConvertAll cfg s rs ->
  length rs = length files /\ InputFile <$> rs = files.
Proof.
  intros Hres. destruct 1 as [early s1 H|s1 H|files1 s1 b H Hne Hrun Hfin];
    rewrite Hres in H; simplify_eq.
  - split; reflexivity.
  - pose proof (batchRun_inv _ _ _ _ (batchInv_start cfg files1 s1) Hrun)
      as (Hlt & Hlr & _ & Hok).
    split; [exact Hlr|]. destruct Hfin as [_ Hall].
    apply list_eq. intros idx. rewrite list_lookup_fmap.
    destruct (files1 !! idx) as [file|] eqn:Hf.
    + specialize (Hok idx file Hf). unfold slotOk in Hok.
      destruct (tasks b !! idx) as [t|] eqn:Ht; [|contradiction].
      rewrite Forall_lookup in Hall. rewrite (Hall idx t Ht) in Hok.
      destruct Hok as (res & _ & _ & -> & <- & _). reflexivity.
    + apply lookup_ge_None in Hf. rewrite lookup_ge_None_2 by lia. reflexivity.
Qed.
End BatchFacts.

Section BatchExamples.
Local Open Scope string_scope.

Lemma batch_results_in_file_order_witness :
  let cfg := mkConfig "d" EmptyString false "info" 10000 "," 100 in
  let files := ["d/a.csv"; "d/b.csv"] in
  let w : MemWorld :=
    [("d/a.csv", CsvFile [Row ["x"]; Row ["1"]]);
     ("d/b.csv", CsvFile [Row ["y"]; Row ["true"]])] in
  let start := @startBatch memRuntime files (memSys w) in
  @batchRun sampleLib memRuntime cfg files start start
  /\ exists b', @batchRun sampleLib memRuntime cfg files start b'
                /\ @allFinished memRuntime b'
                /\ InputFile <$> @results memRuntime b' = files.
Proof.
  intros cfg files w start. split; [apply run_refl|].
  apply (@batch_results_in_file_order sampleLib memRuntime cfg files (memSys w) start
           (run_refl cfg files start)).
  vm_compute. discriminate.
Defined.
End BatchExamples.

(** * Further properties *)

(** ** Trimming *)

Lemma stripSpaces_stop fromEnd l : spaceAt fromEnd l = false -> stripSpaces fromEnd l = l.
Proof.
  destruct l as [|c1 [|c2 [|c3 r3]]]; simpl; try reflexivity.
  - rewrite orb_false_r. intros ->. reflexivity.
  - rewrite orb_false_r. intros H. apply orb_false_elim in H as [-> ->]. reflexivity.
  - intros H. apply orb_false_elim in H as [-> H].
    apply orb_false_elim in H as [-> ->]. reflexivity.
Qed.

Lemma stripSpaces_facts fromEnd n : forall l, (length l <= n)%nat ->
  spaceAt fromEnd (stripSpaces fromEnd l) = false
  /\ exists removed, l = removed ++ stripSpaces fromEnd l.
Proof.
  induction n as [|n IH]; intros l Hlen.
  - destruct l; [|simpl in Hlen; lia]. split; [reflexivity|exists []; reflexivity].
  - destruct l as [|c1 r1]; [split; [reflexivity|exists []; reflexivity]|].
    simpl in Hlen. cbn [stripSpaces].
    destruct (asciiSpace c1) eqn:H1.
    { destruct (IH r1) as [Hs [pre Hpre]]; [lia|]. split; [exact Hs|].
      exists (c1 :: pre). simpl. congruence. }
    destruct r1 as [|c2 r2].
    { split; [simpl; rewrite H1; reflexivity|exists []; reflexivity]. }
    simpl in Hlen.
    destruct (if fromEnd then spaceRune2 c2 c1 else spaceRune2 c1 c2) eqn:H2.
    { destruct (IH r2) as [Hs [pre Hpre]]; [lia|]. split; [exact Hs|].
      exists (c1 :: c2 :: pre). simpl. congruence. }
    destruct r2 as [|c3 r3].
    { split; [simpl; rewrite H1, H2; reflexivity|exists []; reflexivity]. }
    simpl in Hlen.
    destruct (if fromEnd then spaceRune3 c3 c2 c1 else spaceRune3 c1 c2 c3) eqn:H3.
    { destruct (IH r3) as [Hs [pre Hpre]]; [lia|]. split; [exact Hs|].
      exists (c1 :: c2 :: c3 :: pre). simpl. congruence. }
    split; [simpl; rewrite H1, H2, H3; reflexivity|exists []; reflexivity].
Qed.

Lemma spaceAt_prefix fromEnd p q :
  spaceAt fromEnd (p ++ q) = false -> spaceAt fromEnd p = false.
Proof.
  destruct p as [|c1 [|c2 [|c3 p3]]]; simpl; try reflexivity.
  - intros H. apply orb_false_elim in H as [-> _]. reflexivity.
  - intros H. apply orb_false_elim in H as [-> H]. simpl.
    destruct q; [exact H|]. apply orb_false_elim in H as [-> _]. reflexivity.
  - intros H. exact H.
Qed.

Lemma TrimSpace_idempotent s : TrimSpace (TrimSpace s) = TrimSpace s.
Proof.
  unfold TrimSpace. rewrite bytes_ofBytes. f_equal.
  set (front := stripSpaces false (bytes s)).
  set (back := stripSpaces true (rev front)).
  destruct (stripSpaces_facts false (length (bytes s)) (bytes s)) as [Hfront _]; [lia|].
  fold front in Hfront.
  destruct (stripSpaces_facts true (length (rev front)) (rev front))
    as [Hback [removed Hrem]]; [lia|].
  fold back in Hback, Hrem.
  assert (Hprefix : front = rev back ++ rev removed).
  { rewrite <- rev_app_distr, <- Hrem, rev_involutive. reflexivity. }
  rewrite Hprefix in Hfront. apply spaceAt_prefix in Hfront.
  rewrite (stripSpaces_stop false (rev back) Hfront), rev_involutive.
  rewrite (stripSpaces_stop true back Hback). reflexivity.
Qed.

Section SamplingMore.
Context {lib : GoLib}.

(** X1. A cell is classified on its trimmed text: the type inferred for a
    cell is the type inferred for the cell with its surrounding whitespace
    removed, which is also the text the encoder converts. *)
Theorem inferType_ignores_padding (val : string) :
  inferType (TrimSpace val) = inferType val
  /\ (forall record i, record !! i = Some val ->
        inferType (cellValue record i) = inferType val).
Proof.
  assert (H : inferType (TrimSpace val) = inferType val)
    by (unfold inferType; rewrite TrimSpace_idempotent; reflexivity).
  split; [exact H|]. intros record i Hi. unfold cellValue. rewrite Hi. exact H.
Qed.

(** *** What a read attempt does to one column *)

Lemma attemptEvidence_lookup types o j :
  attemptEvidence types o !! j = (fun t => cellStep t (cellOf o j)) <$> types !! j.
Proof.
  destruct o as [record|]; simpl.
  - rewrite sampleRecord_lookup. destruct (types !! j) as [t|]; [|reflexivity].
    simpl. rewrite Nat.sub_0_r. destruct (record !! j); reflexivity.
  - destruct (types !! j); reflexivity.
Qed.

Lemma cellStep_spec_type t cell : isSpecType t = true -> isSpecType (cellStep t cell) = true.
Proof.
  intros Ht. destruct cell as [c|]; simpl; [|exact Ht].
  destruct (isEmpty c); [exact Ht|].
  pose proof (inferType_spec_type c) as Hc.
  destruct t, (inferType c); try discriminate; reflexivity.
Qed.

Lemma cellStep_comm t a b :
  isSpecType t = true ->
  cellStep (cellStep t a) b = cellStep (cellStep t b) a.
Proof.
  intros Ht. destruct a as [ca|], b as [cb|]; simpl; try reflexivity.
  destruct (isEmpty ca), (isEmpty cb); try reflexivity.
  pose proof (inferType_spec_type ca) as Ha.
  pose proof (inferType_spec_type cb) as Hb.
  destruct t, (inferType ca), (inferType cb); try discriminate; reflexivity.
Qed.

(** A type that absorbs a cell still absorbs it after any further cell. *)
Lemma cellStep_absorbed t a b :
  isSpecType t = true -> cellStep t a = t -> cellStep (cellStep t b) a = cellStep t b.
Proof.
  intros Ht. destruct a as [ca|], b as [cb|]; simpl; try reflexivity; try tauto.
  destruct (isEmpty ca), (isEmpty cb); try reflexivity; try tauto.
  pose proof (inferType_spec_type ca) as Ha.
  pose proof (inferType_spec_type cb) as Hb.
  destruct t, (inferType ca), (inferType cb); try discriminate; cbn; congruence.
Qed.

Lemma cellStep_twice t a :
  isSpecType t = true -> cellStep (cellStep t a) a = cellStep t a.
Proof.
  intros Ht. destruct a as [ca|]; simpl; [|reflexivity].
  destruct (isEmpty ca) eqn:He; simpl; rewrite ?He; [reflexivity|].
  pose proof (inferType_spec_type ca) as Ha.
  destruct t, (inferType ca); try discriminate; reflexivity.
Qed.

Lemma attemptEvidence_spec_types types o :
  Forall (fun t => isSpecType t = true) types ->
  Forall (fun t => isSpecType t = true) (attemptEvidence types o).
Proof.
  rewrite !Forall_lookup. intros Hall j t Hj.
  rewrite attemptEvidence_lookup in Hj.
  destruct (types !! j) as [t0|] eqn:H0; [|discriminate].
  injection Hj as <-. apply cellStep_spec_type. eapply Hall, H0.
Qed.

Lemma attemptEvidence_comm types o1 o2 :
  Forall (fun t => isSpecType t = true) types ->
  attemptEvidence (attemptEvidence types o1) o2
  = attemptEvidence (attemptEvidence types o2) o1.
Proof.
  intros Hall. apply list_eq. intros j.
  rewrite !attemptEvidence_lookup.
  destruct (types !! j) as [t|] eqn:Hj; [|reflexivity]. simpl.
  f_equal. apply cellStep_comm. rewrite Forall_lookup in Hall. eapply Hall, Hj.
Qed.

Lemma evidence_permutation l1 l2 :
  l1 ≡ₚ l2 -> forall types,
  Forall (fun t => isSpecType t = true) types ->
  fold_left attemptEvidence l1 types = fold_left attemptEvidence l2 types.
Proof.
  induction 1 as [|o l1 l2 _ IH|o1 o2 l|l1 l2 l3 _ IH1 _ IH2]; intros types Hall; simpl.
  - reflexivity.
  - apply IH, attemptEvidence_spec_types, Hall.
  - rewrite attemptEvidence_comm by exact Hall. reflexivity.
  - rewrite IH1 by exact Hall. apply IH2, Hall.
Qed.

Lemma replicate_spec_types n : Forall (fun t => isSpecType t = true) (replicate n typeInt64).
Proof. apply Forall_replicate. reflexivity. Qed.

Lemma detectSchemaFrom_fold headers outcomes N :
  fst (detectSchemaFrom (newReader (Row headers :: outcomes)) N)
  = inr (cleanHeaders headers,
         fold_left attemptEvidence (take (Z.to_nat N) outcomes)
                   (replicate (length (cleanHeaders headers)) typeInt64)).
Proof.
  unfold detectSchemaFrom, newReader, csvRead. simpl.
  rewrite sampleLoop_spec. reflexivity.
Qed.

(** X2. The detected schema does not depend on the order of the sampled
    rows: two files with the same header whose data rows, malformed ones
    included, are a permutation of each other and all within the sample
    budget get the same types. *)
Theorem schema_independent_of_row_order (headers : list string)
    (outcomes outcomes' : list ReadOutcome) (N : Z) :
  outcomes ≡ₚ outcomes' -> Z.of_nat (length outcomes) <= N ->
  fst (detectSchemaFrom (newReader (Row headers :: outcomes)) N)
  = fst (detectSchemaFrom (newReader (Row headers :: outcomes')) N).
Proof.
  intros Hperm Hlen. rewrite !detectSchemaFrom_fold.
  rewrite !firstn_all2
    by (try rewrite <- (Permutation_length Hperm); lia).
  f_equal. f_equal. apply evidence_permutation; [exact Hperm|apply replicate_spec_types].
Qed.

(** *** The final type is above every sampled cell *)

Lemma fold_evidence_lookup outcomes : forall types j,
  fold_left attemptEvidence outcomes types !! j
  = (fun t => fold_left (fun t o => cellStep t (cellOf o j)) outcomes t) <$> types !! j.
Proof.
  induction outcomes as [|o rest IH]; intros types j; simpl.
  - destruct (types !! j); reflexivity.
  - rewrite IH, attemptEvidence_lookup. destruct (types !! j); reflexivity.
Qed.

Lemma fold_cellStep_spec_type (cells : list ReadOutcome) j : forall t,
  isSpecType t = true ->
  isSpecType (fold_left (fun t o => cellStep t (cellOf o j)) cells t) = true.
Proof.
  induction cells as [|o rest IH]; intros t Ht; simpl; [exact Ht|].
  apply IH, cellStep_spec_type, Ht.
Qed.

Lemma fold_cellStep_keeps_absorbed (cells : list ReadOutcome) j a : forall t,
  isSpecType t = true -> cellStep t a = t ->
  cellStep (fold_left (fun t o => cellStep t (cellOf o j)) cells t) a
  = fold_left (fun t o => cellStep t (cellOf o j)) cells t.
Proof.
  induction cells as [|o rest IH]; intros t Ht Habs; simpl; [exact Habs|].
  apply IH; [apply cellStep_spec_type, Ht|apply cellStep_absorbed; assumption].
Qed.

Lemma fold_cellStep_absorbs (cells : list ReadOutcome) j o : forall t,
  isSpecType t = true -> In o cells ->
  cellStep (fold_left (fun t o => cellStep t (cellOf o j)) cells t) (cellOf o j)
  = fold_left (fun t o => cellStep t (cellOf o j)) cells t.
Proof.
  induction cells as [|o' rest IH]; intros t Ht Hin; [destruct Hin|].
  simpl. destruct Hin as [->|Hin].
  - apply fold_cellStep_keeps_absorbed; [apply cellStep_spec_type, Ht|].
    apply cellStep_twice, Ht.
  - apply IH; [apply cellStep_spec_type, Ht|exact Hin].
Qed.

(** X3. A column's type never narrows: the type detected for a column is
    unchanged by widening it with the type of any sampled cell of that
    column that is not the empty string, so one cell inferred as String
    makes the column String whatever the other rows hold. *)
Theorem detected_type_absorbs_samples (headers : list string)
    (outcomes : list ReadOutcome) (N : Z) (types : list fieldType)
    (record : list string) (j : nat) (cell : string) (t : fieldType) :
  fst (detectSchemaFrom (newReader (Row headers :: outcomes)) N)
    = inr (cleanHeaders headers, types) ->
  In (Row record) (take (Z.to_nat N) outcomes) ->
  record !! j = Some cell -> cell <> EmptyString ->
  types !! j = Some t ->
  widenType t (inferType cell) = t
  /\ (inferType cell = typeString -> t = typeString).
Proof.
  intros Hdet Hin Hcell Hne Ht.
  rewrite detectSchemaFrom_fold in Hdet. injection Hdet as <-.
  rewrite fold_evidence_lookup in Ht.
  destruct (replicate _ typeInt64 !! j) as [t0|] eqn:H0; [|discriminate].
  apply lookup_replicate in H0 as [-> _]. injection Ht as Ht.
  pose proof (fold_cellStep_absorbs _ j _ typeInt64 eq_refl Hin) as Habs.
  rewrite Ht in Habs. unfold cellStep, cellOf in Habs. rewrite Hcell in Habs.
  apply isEmpty_false in Hne. rewrite Hne in Habs.
  split; [exact Habs|]. intros Hs. rewrite Hs in Habs.
  rewrite <- Habs. destruct t; reflexivity.
Qed.

(** *** Which types a column can get *)

Lemma cellStep_never_bool t cell :
  t = typeInt64 \/ t = typeFloat64 \/ t = typeString ->
  cellStep t cell = typeInt64 \/ cellStep t cell = typeFloat64
  \/ cellStep t cell = typeString.
Proof.
  intros Ht. destruct cell as [c|]; simpl; [|exact Ht].
  destruct (isEmpty c); [exact Ht|].
  pose proof (inferType_spec_type c) as Hc.
  destruct Ht as [->|[->| ->]]; destruct (inferType c); try discriminate; cbn; auto.
Qed.

Lemma fold_cellStep_never_bool (cells : list ReadOutcome) j : forall t,
  t = typeInt64 \/ t = typeFloat64 \/ t = typeString ->
  let t' := fold_left (fun t o => cellStep t (cellOf o j)) cells t in
  t' = typeInt64 \/ t' = typeFloat64 \/ t' = typeString.
Proof.
  induction cells as [|o rest IH]; intros t Ht; simpl; [exact Ht|].
  apply IH, cellStep_never_bool, Ht.
Qed.

(** X4. Sampling starts every column at Int64, and Int64 widened by Bool
    is String: so the type detected for a column is Int64, Float64 or
    String, never Bool, and a column with a sampled cell [true] or [false]
    in any letter case is String, whatever the header row of the file. *)
Theorem detected_types_never_bool (r : Reader) (N : Z) (headers : list string)
    (types : list fieldType) (r' : Reader) :
  detectSchemaFrom r N = (inr (headers, types), r') ->
  Forall (fun t => t = typeInt64 \/ t = typeFloat64 \/ t = typeString) types
  /\ (forall raw outcomes record j cell t,
        pending r = Row raw :: outcomes ->
        In (Row record) (take (Z.to_nat N) outcomes) ->
        record !! j = Some cell -> isBoolLiteral (TrimSpace cell) = true ->
        types !! j = Some t -> t = typeString).
Proof.
  intros Hdet.
  assert (Hfold : exists hs outcomes,
            pending r = Row hs :: outcomes
            /\ types = fold_left attemptEvidence (take (Z.to_nat N) outcomes)
                                 (replicate (length (cleanHeaders hs)) typeInt64)).
  { unfold detectSchemaFrom, csvRead in Hdet. destruct r as [pend k]. simpl in *.
    destruct pend as [|[hs|] outcomes]; try discriminate.
    rewrite sampleLoop_spec in Hdet. injection Hdet as _ <- _. eauto. }
  destruct Hfold as (hs & outcomes & Hpend & ->).
  assert (Hcol : forall j t,
            fold_left attemptEvidence (take (Z.to_nat N) outcomes)
                      (replicate (length (cleanHeaders hs)) typeInt64) !! j = Some t ->
            t = fold_left (fun t o => cellStep t (cellOf o j))
                          (take (Z.to_nat N) outcomes) typeInt64).
  { intros j t Ht. rewrite fold_evidence_lookup in Ht.
    destruct (replicate _ typeInt64 !! j) as [t0|] eqn:H0; [|discriminate].
    apply lookup_replicate in H0 as [-> _]. injection Ht as <-. reflexivity. }
  split.
  - rewrite Forall_lookup. intros j t Ht. rewrite (Hcol j t Ht).
    apply fold_cellStep_never_bool. auto.
  - intros raw outcomes0 record j cell t Hp Hin Hcell Hbool Ht.
    rewrite Hpend in Hp. injection Hp as _ <-.
    pose proof (fold_cellStep_absorbs _ j _ typeInt64 eq_refl Hin) as Habs.
    pose proof (fold_cellStep_never_bool (take (Z.to_nat N) outcomes) j typeInt64
                  (or_introl eq_refl)) as Hnb.
    rewrite <- (Hcol j t Ht) in Habs, Hnb. cbn zeta in Hnb.
    unfold cellStep, cellOf in Habs. rewrite Hcell in Habs.
    assert (Hinf : inferType cell = typeBool).
    { unfold inferType. unfold isBoolLiteral in Hbool.
      destruct (isEmpty (TrimSpace cell)) eqn:He.
      - apply isEmpty_true in He. rewrite He in Hbool. discriminate.
      - rewrite Hbool. reflexivity. }
    assert (Hne : isEmpty cell = false).
    { destruct cell; [discriminate Hbool|reflexivity]. }
    rewrite Hne, Hinf in Habs.
    destruct Hnb as [->|[->| ->]]; [discriminate Habs|discriminate Habs|reflexivity].
Qed.

(** *** Columns detected as Int64 *)

Lemma fold_cellStep_int (cells : list ReadOutcome) j : forall t,
  fold_left (fun t o => cellStep t (cellOf o j)) cells t = typeInt64 ->
  t = typeInt64
  /\ forall record cell, In (Row record) cells -> record !! j = Some cell ->
       cell <> EmptyString -> inferType cell = typeInt64.
Proof.
  induction cells as [|o rest IH]; intros t Hfold; simpl in Hfold.
  - split; [exact Hfold|]. intros ? ? [].
  - destruct (IH _ Hfold) as [Hstep Hrest].
    assert (Hhere : t = typeInt64
                    /\ forall c, cellOf o j = Some c -> c <> EmptyString ->
                                 inferType c = typeInt64).
    { unfold cellStep in Hstep. destruct (cellOf o j) as [c|].
      - destruct (isEmpty c) eqn:He.
        + split; [exact Hstep|]. intros c0 [= <-] Hne.
          apply isEmpty_true in He. contradiction.
        + assert (t = typeInt64 /\ inferType c = typeInt64) as [-> Hc]
            by (destruct t, (inferType c); try discriminate; auto).
          split; [reflexivity|]. intros c0 [= <-] _. exact Hc.
      - split; [exact Hstep|]. discriminate. }
    destruct Hhere as [-> Hcell]. split; [reflexivity|].
    intros record cell [->|Hin] Hc Hne; [apply Hcell; assumption|eauto].
Qed.

Lemma inferType_int val :
  inferType val = typeInt64 ->
  TrimSpace val <> EmptyString /\ is_Some (ParseInt (TrimSpace val)).
Proof.
  unfold inferType. destruct (isEmpty (TrimSpace val)) eqn:He; [discriminate|].
  apply isEmpty_false in He. destruct (_ || _); [discriminate|].
  destruct (ParseInt (TrimSpace val)); [eauto|].
  destruct (ParseFloat (TrimSpace val)); [discriminate|].
  destruct (matchDateFormats dateFormats (TrimSpace val)) as [t|] eqn:Hd;
    [|discriminate].
  apply matchDateFormats_string in Hd. subst t. discriminate.
Qed.

(** X5. The detector and the encoder agree on Int64 columns: when a column
    is detected as Int64, every sampled cell of it that is not the empty
    string parses as a 64-bit integer, and the encoder, given the detected
    types, emits the field with that integer for the cell's row. *)
Theorem int_column_samples_are_encoded (raw : list string)
    (outcomes : list ReadOutcome) (N : Z) (headers : list string)
    (types : list fieldType) (record : list string) (j : nat) (cell h : string) :
  fst (detectSchemaFrom (newReader (Row raw :: outcomes)) N) = inr (headers, types) ->
  types !! j = Some typeInt64 ->
  In (Row record) (take (Z.to_nat N) outcomes) ->
  record !! j = Some cell -> cell <> EmptyString ->
  headers !! j = Some h ->
  exists v,
    ParseInt (TrimSpace cell) = Some v
    /\ columnField record headers types j
       = Some (String.append (quoted h) (String.append ":" (formatInt v))).
Proof.
  intros Hdet Ht Hin Hcell Hne Hh.
  rewrite detectSchemaFrom_fold in Hdet. injection Hdet as <- <-.
  pose proof Ht as Hcol. rewrite fold_evidence_lookup in Hcol.
  destruct (replicate _ typeInt64 !! j) as [t0|] eqn:H0; [|discriminate].
  injection Hcol as Hcol.
  destruct (fold_cellStep_int _ j _ Hcol) as [_ Hall].
  destruct (inferType_int cell (Hall record cell Hin Hcell Hne)) as [Htrim [v Hv]].
  exists v. split; [exact Hv|].
  unfold columnField, cellValue. rewrite Hh, Ht, Hcell.
  apply isEmpty_false in Htrim. rewrite Htrim. simpl. rewrite Hv. reflexivity.
Qed.

(** X6. What [detectSchema] returns can be used without a bounds check:
    there are as many types as headers, so building the schema text and
    encoding any row, of any length, with them never indexes out of
    range. *)
Theorem detected_schema_is_usable (r : Reader) (N : Z) (headers : list string)
    (types : list fieldType) (r' : Reader) :
  detectSchemaFrom r N = (inr (headers, types), r') ->
  length types = length headers
  /\ is_Some (buildJSONSchema headers types)
  /\ forall record, is_Some (recordToJSON record headers types).
Proof.
  intros Hdet. pose proof (detectSchemaFrom_lengths _ _ _ _ _ Hdet) as Hlen.
  split; [exact Hlen|]. split; [apply buildJSONSchema_is_Some, Hlen|].
  intros record. apply recordToJSON_is_Some, Hlen.
Qed.
End SamplingMore.

Section SamplingExamples.
Local Open Scope string_scope.

Lemma schema_independent_of_row_order_witness :
  let outcomes := [Row ["1"; "x"]; Malformed; Row ["2.5"; "7"]] in
  outcomes ≡ₚ rev outcomes /\ Z.of_nat (length outcomes) <= 3
  /\ fst (@detectSchemaFrom sampleLib (newReader (Row ["a"; "b"] :: outcomes)) 3)
     = fst (@detectSchemaFrom sampleLib (newReader (Row ["a"; "b"] :: rev outcomes)) 3).
Proof.
  intros outcomes. split; [apply Permutation_rev|]. split; [simpl; lia|].
  apply (@schema_independent_of_row_order sampleLib);
    [apply Permutation_rev|simpl; lia].
Defined.

Lemma detected_type_absorbs_samples_witness :
  let outcomes := [Row ["1"]; Row ["2.5"]; Row ["3"]] in
  widenType typeFloat64 (@inferType sampleLib "3") = typeFloat64
  /\ (@inferType sampleLib "3" = typeString -> typeFloat64 = typeString).
Proof.
  intros outcomes.
  apply (@detected_type_absorbs_samples sampleLib ["n"] outcomes 10 [typeFloat64]
           ["3"] 0%nat "3" typeFloat64).
  - reflexivity.
  - simpl. auto.
  - reflexivity.
  - discriminate.
  - reflexivity.
Defined.

Lemma detected_types_never_bool_witness :
  let r := newReader [Row [" flag"]; Row ["7"]; Malformed; Row ["FALSE"]] in
  fst (@detectSchemaFrom sampleLib r 10) = inr (["flag"], [typeString])
  /\ Forall (fun t => t = typeInt64 \/ t = typeFloat64 \/ t = typeString) [typeString]
  /\ forall t, [typeString] !! 0%nat = Some t -> t = typeString.
Proof.
  intros r. split; [reflexivity|].
  destruct (@detected_types_never_bool sampleLib r 10 ["flag"] [typeString]
              (mkReader [] 5) eq_refl) as [Hall Hbool].
  split; [exact Hall|]. intros t Ht.
  apply (Hbool [" flag"] [Row ["7"]; Malformed; Row ["FALSE"]] ["FALSE"] 0%nat "FALSE" t);
    [reflexivity|simpl; auto|reflexivity|reflexivity|exact Ht].
Defined.

Lemma int_column_samples_are_encoded_witness :
  exists v,
    ParseInt (TrimSpace " 42 ") = Some v
    /\ @columnField sampleLib [" 42 "] ["n"] [typeInt64] 0
       = Some (String.append (quoted "n") (String.append ":" (formatInt v))).
Proof.
  apply (@int_column_samples_are_encoded sampleLib ["n"] [Row [" 42 "]; Row [EmptyString]] 10
           ["n"] [typeInt64] [" 42 "] 0%nat " 42 " "n").
  - reflexivity.
  - reflexivity.
  - simpl. auto.
  - reflexivity.
  - discriminate.
  - reflexivity.
Defined.

Lemma detected_schema_is_usable_witness :
  let r := newReader [Row ["a"; " b."]; Row ["1"]; Malformed] in
  length [typeInt64; typeInt64] = length ["a"; "b_"]
  /\ is_Some (buildJSONSchema ["a"; "b_"] [typeInt64; typeInt64])
  /\ forall record, is_Some (@recordToJSON sampleLib record ["a"; "b_"]
                                           [typeInt64; typeInt64]).
Proof.
  intros r.
  apply (@detected_schema_is_usable sampleLib r 100 ["a"; "b_"] [typeInt64; typeInt64]
           (mkReader [] 4) eq_refl).
Defined.
End SamplingExamples.

(** ** Where the output goes *)

Lemma joinSep_snoc elems e :
  elems <> [] -> joinSep (elems ++ [e]) = joinSep elems ++ "/"%char :: e.
Proof.
  induction elems as [|x rest IH]; intros Hne; [congruence|].
  destruct rest as [|y rest']; [reflexivity|].
  change (joinSep ((x :: y :: rest') ++ [e]))
    with (x ++ "/"%char :: joinSep ((y :: rest') ++ [e])).
  rewrite IH by discriminate.
  change (joinSep (x :: y :: rest')) with (x ++ "/"%char :: joinSep (y :: rest')).
  rewrite <- app_assoc. reflexivity.
Qed.

Lemma cleanBytes_idempotent l : cleanBytes (cleanBytes l) = cleanBytes l.
Proof.
  rewrite (cleanBytes_render l).
  set (rooted := isRooted l).
  set (stack := fold_left (cleanStep rooted) (splitSep l) []).
  assert (Hn : normalStack rooted stack)
    by (apply fold_cleanStep_normal; [apply splitSep_elems|exact I]).
  destruct (reparse_render rooted stack Hn) as (_ & Hroot & Hre).
  rewrite cleanBytes_render, Hroot, Hre. reflexivity.
Qed.

Lemma cleanBytes_trailing_sep x :
  x <> [] -> cleanBytes (x ++ ["/"%char]) = cleanBytes x.
Proof.
  intros Hne. rewrite !cleanBytes_render, isRooted_app by exact Hne.
  rewrite splitSep_app_sep, fold_left_app. reflexivity.
Qed.

(** The cleaned form of a path that ends in a kept element other than
    [..]: the cleaned form of what is before the last separator, then the
    element. *)
Lemma clean_last_element x e :
  x <> [] -> keptElem e -> isDotDot e = false ->
  exists pre,
    cleanBytes (x ++ "/"%char :: e) = pre ++ e
    /\ (pre = [] \/ exists pre', pre = pre' ++ ["/"%char])
    /\ cleanBytes pre = cleanBytes x.
Proof.
  intros Hx (Hne & Hdot & Hfree) Hdd.
  rewrite (cleanBytes_render (x ++ _ :: e)), (cleanBytes_render x).
  rewrite isRooted_app by exact Hx.
  set (rooted := isRooted x).
  set (stack := fold_left (cleanStep rooted) (splitSep x) []).
  assert (Hn : normalStack rooted stack)
    by (apply fold_cleanStep_normal; [apply splitSep_elems|exact I]).
  rewrite splitSep_app_sep, fold_left_app, splitSep_sepFree by exact Hfree.
  fold stack. cbn [fold_left].
  assert (Hpush : cleanStep rooted stack e = e :: stack).
  { unfold cleanStep. destruct e as [|c e']; [congruence|]. rewrite Hdot, Hdd. reflexivity. }
  rewrite Hpush.
  destruct (reparse_render rooted stack Hn) as (Hout & Hroot & Hre).
  destruct stack as [|top below] eqn:Hstack.
  - unfold renderClean. cbn [rev app joinSep]. destruct rooted.
    + exists ["/"%char]. split; [reflexivity|]. split; [right; exists []; reflexivity|].
      reflexivity.
    + exists []. cbn [app]. split; [destruct e; [congruence|reflexivity]|].
      split; [left; reflexivity|reflexivity].
  - rewrite <- Hstack in *.
    assert (Hrev : rev stack <> []).
    { rewrite Hstack. destruct (rev_cons_shape top below) as (y & l' & ->). discriminate. }
    assert (Hrender : renderClean rooted (e :: stack)
                      = (renderClean rooted stack ++ ["/"%char]) ++ e).
    { unfold renderClean in *. cbn [rev]. rewrite joinSep_snoc by exact Hrev.
      set (root := if rooted then ["/"%char] else []) in *.
      assert (Hjoin : root ++ joinSep (rev stack) <> []).
      { intros H. rewrite H in Hout. apply app_eq_nil in H as [Hr Hj].
        subst root. destruct rooted; [discriminate|].
        rewrite Hj in Hre. simpl in Hre. rewrite Hstack in Hre. discriminate. }
      destruct (root ++ joinSep (rev stack)) as [|c0 r0] eqn:Hj; [congruence|].
      rewrite app_assoc, Hj. simpl. rewrite <- app_assoc. reflexivity. }
    exists (renderClean rooted stack ++ ["/"%char]).
    split; [exact Hrender|]. split; [right; eauto|].
    rewrite cleanBytes_trailing_sep by exact Hout.
    rewrite cleanBytes_render, Hroot, Hre. reflexivity.
Qed.

Lemma Dir_of_last pre e :
  sepFree e -> (pre = [] \/ exists pre', pre = pre' ++ ["/"%char]) ->
  Dir (ofBytes (pre ++ e)) = ofBytes (cleanBytes pre).
Proof.
  intros Hfree Hpre. unfold Dir. rewrite bytes_ofBytes, rev_app_distr.
  rewrite dropWhile_app_all.
  2:{ apply Forall_rev. eapply Forall_impl; [exact Hfree|].
      intros c Hc. simpl. rewrite Hc. reflexivity. }
  destruct Hpre as [->|[pre' ->]]; [reflexivity|].
  rewrite rev_app_distr. simpl. rewrite rev_involutive. reflexivity.
Qed.

Lemma Ext_of_parquet pre stem :
  Ext (ofBytes (pre ++ stem ++ bytes ".parquet")) = ".parquet"%string.
Proof.
  unfold Ext. rewrite bytes_ofBytes, app_assoc, rev_app_distr. reflexivity.
Qed.

Lemma long_elem_kept e :
  sepFree e -> (3 <= length e)%nat -> keptElem e /\ isDotDot e = false.
Proof.
  intros Hfree Hlen. destruct e as [|a [|b [|c r]]]; simpl in Hlen; try lia.
  repeat split; [discriminate|exact Hfree].
Qed.

Lemma Base_shape p : bytes (Base p) = ["/"%char] \/ sepFree (bytes (Base p)).
Proof.
  unfold Base. destruct (isEmpty p); [right; repeat constructor|].
  set (stripped := dropWhile isSep (rev (bytes p))).
  pose proof (takeWhile_Forall (fun c => negb (isSep c)) stripped) as Hall.
  destruct (rev (takeWhile _ stripped)) as [|c l] eqn:Hlast; [left; reflexivity|].
  right. rewrite bytes_ofBytes, <- Hlast. apply Forall_rev.
  eapply Forall_impl; [exact Hall|]. intros x Hx. apply negb_true_iff in Hx. exact Hx.
Qed.

Lemma stripPrefix_Some a : forall b rest, stripPrefix a b = Some rest -> b = a ++ rest.
Proof.
  induction a as [|x a IH]; intros b rest; simpl; [congruence|].
  destruct b as [|y b]; [discriminate|].
  destruct (Ascii.eqb_spec x y) as [->|]; [|discriminate].
  intros Hs. rewrite (IH _ _ Hs). reflexivity.
Qed.

Lemma TrimSuffix_prefix s suffix :
  exists dropped, bytes s = bytes (TrimSuffix s suffix) ++ dropped.
Proof.
  unfold TrimSuffix.
  destruct (stripPrefix (rev (bytes suffix)) (rev (bytes s))) as [rest|] eqn:H.
  - apply stripPrefix_Some in H. exists (bytes suffix).
    rewrite bytes_ofBytes. apply (f_equal (@rev ascii)) in H.
    rewrite rev_app_distr, !rev_involutive in H. exact H.
  - exists []. rewrite app_nil_r. reflexivity.
Qed.

Lemma stem_shape input :
  let stem := bytes (TrimSuffix (Base input) (Ext input)) in
  stem = ["/"%char] \/ sepFree stem.
Proof.
  intros stem.
  destruct (TrimSuffix_prefix (Base input) (Ext input)) as [dropped Hd].
  fold stem in Hd.
  destruct (Base_shape input) as [Hb|Hb]; rewrite Hd in Hb.
  - destruct stem as [|c [|c' r]]; [right; constructor| |discriminate].
    injection Hb as -> _. left. reflexivity.
  - right. apply Forall_app in Hb. apply Hb.
Qed.

(** The cleaned join of a directory and [stem.parquet]. *)
Lemma join_parquet_shape dir stem :
  dir <> [] -> stem = ["/"%char] \/ sepFree stem ->
  exists pre e,
    cleanBytes (dir ++ "/"%char :: stem ++ bytes ".parquet") = pre ++ e ++ bytes ".parquet"
    /\ sepFree (e ++ bytes ".parquet")
    /\ (pre = [] \/ exists pre', pre = pre' ++ ["/"%char])
    /\ cleanBytes pre = cleanBytes dir.
Proof.
  intros Hdir [->|Hfree].
  - destruct (clean_last_element (dir ++ ["/"%char]) (bytes ".parquet"))
      as (pre & Hclean & Hpre & Hdirc).
    + destruct dir; discriminate.
    + repeat split; [discriminate|repeat constructor].
    + reflexivity.
    + exists pre, []. rewrite <- app_assoc in Hclean. simpl in Hclean.
      split; [exact Hclean|]. split; [repeat constructor|]. split; [exact Hpre|].
      rewrite Hdirc. apply cleanBytes_trailing_sep, Hdir.
  - assert (Hall : sepFree (stem ++ bytes ".parquet"))
      by (apply Forall_app; split; [exact Hfree|repeat constructor]).
    destruct (long_elem_kept (stem ++ bytes ".parquet") Hall) as [Hk Hdd].
    { rewrite length_app. simpl. lia. }
    destruct (clean_last_element dir _ Hdir Hk Hdd) as (pre & Hclean & Hpre & Hdirc).
    exists pre, stem. auto.
Qed.

(** X7. Whatever the input path and the configuration, the output path
    has the extension [.parquet], and its directory is the configured
    output directory, cleaned, or, when none is configured, the directory
    of the input. *)
Theorem outputPath_extension_and_directory (inputFile : string) (cfg : Config) :
  Ext (outputPath inputFile cfg) = ".parquet"%string
  /\ Dir (outputPath inputFile cfg)
     = (if isEmpty (OutputDir cfg) then Dir inputFile else Clean (OutputDir cfg)).
Proof.
  unfold outputPath.
  set (stem := TrimSuffix (Base inputFile) (Ext inputFile)).
  set (dir := if isEmpty (OutputDir cfg) then Dir inputFile else OutputDir cfg).
  assert (Hdir : bytes dir <> []).
  { subst dir. destruct (isEmpty (OutputDir cfg)) eqn:He.
    - unfold Dir. rewrite bytes_ofBytes. apply cleanBytes_nonempty.
    - apply isEmpty_bytes, He. }
  assert (Hne : isEmpty dir = false) by (apply isEmpty_bytes, Hdir).
  cbn [filepathJoin]. rewrite Hne. cbn [Join]. unfold Clean.
  rewrite !bytes_append. change (bytes "/") with ["/"%char]. cbn [app].
  destruct (join_parquet_shape (bytes dir) (bytes stem) Hdir (stem_shape inputFile))
    as (pre & e & -> & Hfree & Hpre & Hclean).
  split; [apply Ext_of_parquet|].
  rewrite (Dir_of_last pre _ Hfree Hpre), Hclean.
  subst dir. destruct (isEmpty (OutputDir cfg)); [|reflexivity].
  unfold Dir. rewrite bytes_ofBytes, cleanBytes_idempotent. reflexivity.
Qed.

(** ** The encoder on text and on rows of any length *)

Lemma replaceByte_head old esc l c rest :
  esc <> old -> replaceByte old [esc; old] l = c :: rest -> c <> old.
Proof.
  intros Hne. destruct l as [|x l']; simpl; [discriminate|].
  destruct (Ascii.eqb_spec x old) as [->|Hx]; simpl; intros [= <- _]; assumption.
Qed.

Lemma replaceByte_escape_inj old esc : forall a b,
  replaceByte old [esc; old] a = replaceByte old [esc; old] b -> a = b.
Proof.
  assert (Hmixed : forall a' y b', y <> old ->
            esc :: old :: replaceByte old [esc; old] a'
            = y :: replaceByte old [esc; old] b' -> False).
  { intros a' y b' Hy [= <- Hrest]. symmetry in Hrest.
    apply replaceByte_head in Hrest; [congruence|exact Hy]. }
  induction a as [|x a' IH]; intros [|y b']; simpl; try reflexivity.
  - destruct (Ascii.eqb y old); discriminate.
  - destruct (Ascii.eqb x old); discriminate.
  - destruct (Ascii.eqb_spec x old) as [->|Hx], (Ascii.eqb_spec y old) as [->|Hy];
      simpl; intros H.
    + injection H as H. f_equal. apply IH, H.
    + exfalso. eapply Hmixed; eauto.
    + exfalso. eapply Hmixed; eauto.
    + injection H as -> H. f_equal. apply IH, H.
Qed.

Lemma escaped_quote_preceded l : forall pre post,
  replaceByte dquote [backslash; dquote] l = pre ++ dquote :: post ->
  exists pre', pre = pre' ++ [backslash].
Proof.
  induction l as [|c l' IH]; intros pre post; simpl.
  - destruct pre; discriminate.
  - destruct (Ascii.eqb_spec c dquote) as [->|Hc]; simpl.
    + destruct pre as [|p1 [|p2 pre3]]; simpl.
      * intros H. exfalso. injection H as H _. vm_compute in H. discriminate H.
      * intros [= <- _]. exists []. reflexivity.
      * intros [= <- <- H]. destruct (IH _ _ H) as [pre' ->].
        exists (backslash :: dquote :: pre'). reflexivity.
    + destruct pre as [|p1 pre2]; simpl.
      * intros [= H _]. congruence.
      * intros [= <- H]. destruct (IH _ _ H) as [pre' ->].
        exists (c :: pre'). reflexivity.
Qed.

(** X8. The escaping of a text value loses nothing and leaves no bare
    quote: different values have different escaped forms, and in the
    escaped form every double quote comes right after a backslash. *)
Theorem escapeJSON_faithful (val : string) :
  (forall other, escapeJSON other = escapeJSON val -> other = val)
  /\ (forall pre post, bytes (escapeJSON val) = pre ++ dquote :: post ->
        exists pre', pre = pre' ++ [backslash]).
Proof.
  split.
  - intros other H. unfold escapeJSON, ReplaceAll in H.
    apply (f_equal bytes) in H. rewrite !bytes_ofBytes in H.
    apply replaceByte_escape_inj, replaceByte_escape_inj in H.
    apply bytes_inj, H.
  - intros pre post H. unfold escapeJSON, ReplaceAll in H.
    rewrite !bytes_ofBytes in H. eapply escaped_quote_preceded, H.
Qed.

Section RowLength.
Context {lib : GoLib}.

Lemma recordToJSONFrom_ext record1 record2 types todo : forall i parts,
  (forall k, (i <= k < i + length todo)%nat -> cellValue record1 k = cellValue record2 k) ->
  recordToJSONFrom i todo record1 types parts
  = recordToJSONFrom i todo record2 types parts.
Proof.
  induction todo as [|h rest IH]; intros i parts Hsame; simpl; [reflexivity|].
  simpl in Hsame. rewrite (Hsame i) by lia.
  assert (Hrest : forall parts', recordToJSONFrom (S i) rest record1 types parts'
                                 = recordToJSONFrom (S i) rest record2 types parts').
  { intros parts'. apply IH. intros k Hk. apply Hsame. lia. }
  destruct (isEmpty (cellValue record2 i)); [apply Hrest|].
  destruct (types !! i); [|reflexivity].
  destruct (encodeField h f (cellValue record2 i)); apply Hrest.
Qed.

(** X9. The encoder looks at one cell per header: the cells of a row
    beyond the last header change nothing, and a row that is too short
    is encoded as the same row filled up with empty cells. *)
Theorem recordToJSON_row_length (record extra headers : list string)
    (types : list fieldType) (n : nat) :
  (length headers <= length record)%nat ->
  recordToJSON (record ++ extra) headers types = recordToJSON record headers types
  /\ recordToJSON (firstn (length headers) record) headers types
     = recordToJSON record headers types
  /\ recordToJSON (extra ++ replicate n EmptyString) headers types
     = recordToJSON extra headers types.
Proof.
  intros Hlen. unfold recordToJSON, recordParts. repeat split.
  - erewrite recordToJSONFrom_ext; [reflexivity|].
    intros k Hk. unfold cellValue. rewrite lookup_app_l by lia. reflexivity.
  - erewrite recordToJSONFrom_ext; [reflexivity|].
    intros k Hk. unfold cellValue. rewrite lookup_take_lt by lia. reflexivity.
  - erewrite recordToJSONFrom_ext; [reflexivity|].
    intros k Hk. unfold cellValue.
    destruct (decide (k < length extra)%nat) as [Hlt|Hge].
    + rewrite lookup_app_l by lia. reflexivity.
    + rewrite lookup_app_r by lia. rewrite (lookup_ge_None_2 extra k) by lia.
      destruct (replicate n EmptyString !! (k - length extra)%nat) as [c|] eqn:Hc;
        [|reflexivity].
      apply lookup_replicate in Hc as [-> _]. reflexivity.
Qed.

(** X10. Sampling looks at one cell per column: the cells of a row beyond
    the last column change no type, and neither do empty cells added at
    the end of a row. *)
Theorem sampleRecord_row_length (record extra : list string)
    (types : list fieldType) (n : nat) :
  (length types <= length record)%nat ->
  sampleRecord 0 (record ++ extra) types = sampleRecord 0 record types
  /\ sampleRecord 0 (extra ++ replicate n EmptyString) types
     = sampleRecord 0 extra types.
Proof.
  intros Hlen. split; apply list_eq; intros j; rewrite !sampleRecord_lookup;
    destruct (types !! j) as [t|] eqn:Ht; try reflexivity; simpl;
    rewrite Nat.sub_0_r.
  - apply lookup_lt_Some in Ht. rewrite lookup_app_l by lia. reflexivity.
  - destruct (decide (j < length extra)%nat) as [Hlt|Hge].
    + rewrite lookup_app_l by lia. reflexivity.
    + rewrite lookup_app_r by lia. rewrite (lookup_ge_None_2 extra j) by lia.
      destruct (replicate n EmptyString !! (j - length extra)%nat) as [c|] eqn:Hc;
        [|reflexivity].
      apply lookup_replicate in Hc as [-> _]. reflexivity.
Qed.
End RowLength.

Section RowLengthExamples.
Local Open Scope string_scope.

Lemma recordToJSON_row_length_witness :
  (length ["a"; "b"] <= length ["1"; "x"])%nat
  /\ @recordToJSON sampleLib (["1"; "x"] ++ ["more"]) ["a"; "b"] [typeInt64; typeString]
     = @recordToJSON sampleLib ["1"; "x"] ["a"; "b"] [typeInt64; typeString].
Proof.
  split; [simpl; lia|].
  apply (@recordToJSON_row_length sampleLib ["1"; "x"] ["more"] ["a"; "b"]
           [typeInt64; typeString] 0).
  simpl. lia.
Defined.

Lemma sampleRecord_row_length_witness :
  (length [typeInt64] <= length ["1"])%nat
  /\ @sampleRecord sampleLib 0 (["1"] ++ ["x"]) [typeInt64]
     = @sampleRecord sampleLib 0 ["1"] [typeInt64].
Proof.
  split; [simpl; lia|].
  apply (@sampleRecord_row_length sampleLib ["1"] ["x"] [typeInt64] 0).
  simpl. lia.
Defined.
End RowLengthExamples.

(** ** The configuration *)

(** X11. [Load] fails in exactly three cases: a configuration file named on
    the command line that cannot be read, a configuration file that does
    not parse, and no input path from either the command line or the
    file.  A missing [config.yaml] is not one of them. *)
Theorem Load_fails_iff (flags : Flags) (file : ConfigFile) :
  (exists e, Load flags file = inl e)
  <-> (file = Unreadable /\ flag_config flags <> "config.yaml"%string)
      \/ file = BadYaml
      \/ (flag_input flags = EmptyString
          /\ match file with
             | Parsed doc => yaml_input doc = None \/ yaml_input doc = Some EmptyString
             | _ => True
             end).
Proof.
  unfold Load. destruct file as [| |doc];
    [destruct (String.eqb_spec (flag_config flags) "config.yaml") as [Hc|Hc]| |];
    cbn [overrideFlags InputPath Unmarshal defaultConfig default];
    destruct (flag_input flags) as [|c i] eqn:Hi; cbn [isEmpty];
    try (destruct (yaml_input doc) as [[|c' i']|] eqn:Hy; cbn [isEmpty]);
    (split; [intros [msg He]; try discriminate He|intros H; try (eexists; reflexivity)]);
    try (left; split; [reflexivity|assumption]);
    try (right; left; reflexivity);
    try (right; right; split; [reflexivity|]; auto; fail);
    try (exfalso; decompose [and or] H; congruence).
Qed.

(** X12. In a configuration that [Load] returns the input path is not
    empty, a value given on the command line wins over the file, [--keep]
    turns the deletion of originals off whatever the file says, and the
    batch size is zero only when the file says [batch_size: 0] and the
    command line gives no positive batch size. *)
Theorem Load_precedence (flags : Flags) (file : ConfigFile) (cfg : Config) :
  Load flags file = inr cfg ->
  InputPath cfg <> EmptyString
  /\ (flag_input flags <> EmptyString -> InputPath cfg = flag_input flags)
  /\ (flag_output flags <> EmptyString -> OutputDir cfg = flag_output flags)
  /\ (flag_delimiter flags <> EmptyString -> Delimiter cfg = flag_delimiter flags)
  /\ (flag_keep flags = true -> DeleteOriginal cfg = false)
  /\ (0 < flag_batch_size flags -> BatchSize cfg = flag_batch_size flags)
  /\ (0 < flag_sample_rows flags -> SampleRows cfg = flag_sample_rows flags)
  /\ (BatchSize cfg = 0
      <-> flag_batch_size flags <= 0
          /\ exists doc, file = Parsed doc /\ yaml_batch_size doc = Some 0).
Proof.
  unfold Load.
  set (loaded := match file with
                 | Unreadable => _ | BadYaml => _ | Parsed doc => _ end).
  destruct loaded as [e|base] eqn:Hl; [discriminate|].
  destruct (isEmpty (InputPath (overrideFlags flags base))) eqn:Hin; [discriminate|].
  intros [= <-]. apply isEmpty_false in Hin.
  split; [exact Hin|]. cbn.
  split; [intros H; apply isEmpty_false in H; rewrite H; reflexivity|].
  split; [intros H; apply isEmpty_false in H; rewrite H; reflexivity|].
  split; [intros H; apply isEmpty_false in H; rewrite H; reflexivity|].
  split; [intros ->; reflexivity|].
  split; [intros H; apply Z.ltb_lt in H; rewrite H; reflexivity|].
  split; [intros H; apply Z.ltb_lt in H; rewrite H; reflexivity|].
  destruct (Z.ltb_spec 0 (flag_batch_size flags)) as [Hpos|Hnon].
  - split; [lia|]. intros [H _]. lia.
  - subst loaded. destruct file as [| |doc].
    + destruct (String.eqb _ _); [|discriminate]. injection Hl as <-. cbn.
      split.
      { intros H. discriminate H. }
      intros [_ [doc' [H _]]]. discriminate H.
    + discriminate.
    + injection Hl as <-. cbn. destruct (yaml_batch_size doc) as [n|] eqn:Hy; cbn.
      * split.
        { intros ->. eauto. }
        intros [_ [doc' [H Hb]]]. injection H as <-. congruence.
      * split.
        { intros H. discriminate H. }
        intros [_ [doc' [H Hb]]]. injection H as <-. congruence.
Qed.

Lemma Load_precedence_witness :
  let flags := mkFlags "config.yaml" "in.csv" EmptyString true EmptyString 500
                       EmptyString 0 in
  let file := Parsed (mkYaml (Some "other.csv"%string) None (Some true) None (Some 0)
                             None None) in
  let cfg := mkConfig "in.csv" EmptyString false "info" 500 "," 100 in
  Load flags file = inr cfg /\ InputPath cfg <> EmptyString.
Proof.
  intros flags file cfg. split; [reflexivity|].
  exact (proj1 (Load_precedence flags file cfg eq_refl)).
Defined.

(** ** The summary of [main] *)

Lemma wrap64_small z : - 2 ^ 63 <= z < 2 ^ 63 -> wrap64 z = z.
Proof. intros H. unfold wrap64. rewrite Z.mod_small by lia. lia. Qed.

Lemma wrap64_add a b : wrap64 (wrap64 a + b) = wrap64 (a + b).
Proof.
  unfold wrap64. f_equal.
  replace ((a + 2 ^ 63) mod 2 ^ 64 - 2 ^ 63 + b + 2 ^ 63)
    with ((a + 2 ^ 63) mod 2 ^ 64 + b) by lia.
  rewrite Zplus_mod_idemp_l. f_equal. lia.
Qed.

Lemma succeeded_cons r rest :
  succeeded (r :: rest)
  = match Err r with Some _ => succeeded rest | None => r :: succeeded rest end.
Proof. unfold succeeded, hasErr. cbn. destruct (Err r); reflexivity. Qed.

Lemma succeeded_length_le results : (length (succeeded results) <= length results)%nat.
Proof. apply filter_length_le. Qed.

Lemma summarize_from results : forall acc sizeIn sizeOut,
  0 <= converted acc -> 0 <= failed acc ->
  converted acc + failed acc + Z.of_nat (length results) < 2 ^ 63 ->
  totalInputSize acc = wrap64 sizeIn -> totalOutputSize acc = wrap64 sizeOut ->
  let final := fold_left tally results acc in
  converted final = converted acc + Z.of_nat (length (succeeded results))
  /\ failed final
     = failed acc + Z.of_nat (length results) - Z.of_nat (length (succeeded results))
  /\ totalInputSize final = wrap64 (sizeIn + sumZ (map InputSize (succeeded results)))
  /\ totalOutputSize final = wrap64 (sizeOut + sumZ (map OutputSize (succeeded results))).
Proof.
  induction results as [|r rest IH]; intros acc sizeIn sizeOut Hc Hf Hlen Hin Hout.
  - cbn. rewrite !Z.add_0_r. repeat split; try assumption; lia.
  - cbn [fold_left]. rewrite succeeded_cons.
    pose proof (succeeded_length_le rest) as Hle.
    cbn [length] in Hlen |- *. rewrite Nat2Z.inj_succ in Hlen |- *.
    destruct (Err r) as [e|] eqn:He.
    + assert (tally acc r = mkSummary (converted acc) (failed acc + 1)
                              (totalInputSize acc) (totalOutputSize acc)) as ->.
      { unfold tally. rewrite He. rewrite wrap64_small by lia. reflexivity. }
      destruct (IH (mkSummary (converted acc) (failed acc + 1)
                              (totalInputSize acc) (totalOutputSize acc))
                   sizeIn sizeOut) as (H1 & H2 & H3 & H4);
        cbn [converted failed totalInputSize totalOutputSize];
        try assumption; try lia.
      cbn [converted failed totalInputSize totalOutputSize] in *.
      repeat split; try assumption. lia.
    + assert (tally acc r = mkSummary (converted acc + 1) (failed acc)
                              (wrap64 (totalInputSize acc + InputSize r))
                              (wrap64 (totalOutputSize acc + OutputSize r))) as ->.
      { unfold tally. rewrite He. rewrite wrap64_small by lia. reflexivity. }
      destruct (IH (mkSummary (converted acc + 1) (failed acc)
                              (wrap64 (totalInputSize acc + InputSize r))
                              (wrap64 (totalOutputSize acc + OutputSize r)))
                   (sizeIn + InputSize r) (sizeOut + OutputSize r))
        as (H1 & H2 & H3 & H4);
        cbn [converted failed totalInputSize totalOutputSize];
        try assumption; try lia;
        try (rewrite Hin; apply wrap64_add); try (rewrite Hout; apply wrap64_add).
      cbn [converted failed totalInputSize totalOutputSize] in *.
      cbn [length map]. rewrite Nat2Z.inj_succ.
      repeat split; try lia.
      * rewrite H3. f_equal. unfold sumZ. cbn [fold_right]. lia.
      * rewrite H4. f_equal. unfold sumZ. cbn [fold_right]. lia.
Qed.

Lemma results_ok_or_failed (results : list Result) :
  (forall r, In r results -> Err r = None)
  \/ (exists r, In r results /\ Err r <> None).
Proof.
  induction results as [|r rest [IH|(r0 & Hin & Herr)]].
  - left. intros r [].
  - destruct (Err r) as [e|] eqn:He.
    + right. exists r. split; [left; reflexivity|congruence].
    + left. intros r0 [<-|Hin]; [exact He|apply IH, Hin].
  - right. exists r0. split; [right; exact Hin|exact Herr].
Qed.

(** X13. The summary of a run of fewer than 2^63 files: every result is
    counted once, as converted when it has no error and as failed when it
    has one; the sizes are summed over the converted files only; and the
    exit status is 1 exactly when some file failed, so a run without files
    exits with 0. *)
Theorem run_summary (results : list Result) :
  Z.of_nat (length results) < 2 ^ 63 ->
  let sum := summarize results in
  converted sum = Z.of_nat (length (succeeded results))
  /\ converted sum + failed sum = Z.of_nat (length results)
  /\ totalInputSize sum = wrap64 (sumZ (map InputSize (succeeded results)))
  /\ totalOutputSize sum = wrap64 (sumZ (map OutputSize (succeeded results)))
  /\ (exitStatus results = 1 <-> exists r, In r results /\ Err r <> None)
  /\ (exitStatus results = 0 <-> forall r, In r results -> Err r = None).
Proof.
  intros Hlen sum.
  destruct (summarize_from results (mkSummary 0 0 0 0) 0 0) as (H1 & H2 & H3 & H4);
    cbn; try lia; try reflexivity.
  fold (summarize results) in H1, H2, H3, H4. fold sum in H1, H2, H3, H4.
  cbn in H1, H2, H3, H4.
  split; [exact H1|]. split; [lia|]. split; [exact H3|]. split; [exact H4|].
  assert (Hall : length (succeeded results) = length results
                 <-> forall r, In r results -> Err r = None).
  { clear. induction results as [|r rest IH]; [split; [intros _ r []|reflexivity]|].
    rewrite succeeded_cons. pose proof (succeeded_length_le rest) as Hle.
    destruct (Err r) as [e|] eqn:He; cbn [length].
    - split; [lia|]. intros H. specialize (H r (or_introl eq_refl)). congruence.
    - split.
      + intros H r0 [<-|Hin]; [exact He|]. apply IH; [lia|exact Hin].
      + intros H. f_equal. apply IH. intros r0 Hin. apply H. right. exact Hin. }
  pose proof (succeeded_length_le results) as Hle.
  unfold exitStatus. fold sum. split.
  - destruct (Z.ltb_spec 0 (failed sum)) as [Hpos|Hzero].
    + split; [intros _|reflexivity].
      destruct (results_ok_or_failed results) as [Hok|Hbad]; [|exact Hbad].
      apply Hall in Hok. lia.
    + split; [discriminate|]. intros (r & Hin & Herr).
      assert (length (succeeded results) = length results) as Heq by lia.
      exfalso. apply Herr. apply Hall; assumption.
  - destruct (Z.ltb_spec 0 (failed sum)) as [Hpos|Hzero].
    + split; [discriminate|]. intros Hok. apply Hall in Hok. lia.
    + split; [intros _|reflexivity]. apply Hall. lia.
Qed.

Section SummaryExamples.
Local Open Scope string_scope.

Lemma run_summary_witness :
  let results := [mkResult "a.csv" "a.parquet" 10 4 None;
                  mkResult "b.csv" EmptyString 7 0 (Some "stat");
                  mkResult "c.csv" "c.parquet" 5 2 None] in
  Z.of_nat (length results) < 2 ^ 63
  /\ summarize results = mkSummary 2 1 15 6
  /\ exitStatus results = 1.
Proof.
  intros results.
  assert (Hlen : Z.of_nat (length results) < 2 ^ 63) by (vm_compute; reflexivity).
  split; [exact Hlen|]. split; [vm_compute; reflexivity|].
  apply (proj1 (proj2 (proj2 (proj2 (proj2 (run_summary results Hlen)))))).
  exists (mkResult "b.csv" EmptyString 7 0 (Some "stat")).
  split; [right; left; reflexivity|discriminate].
Defined.
End SummaryExamples.

(** ** The pipeline: what a conversion touches *)

Section PipelineFacts.
Context {lib : GoLib} {rt : Runtime}.

Ltac run_steps :=
  repeat (progress (unfold bind, ret, sysRead, sysCall, orPanic, panic in *;
                    cbn beta iota zeta in *; cbn [world calls fst snd negb] in *)).

Ltac in_trace :=
  repeat match goal with
         | H : In _ (_ ++ _) |- _ => apply in_app_or in H; destruct H
         | H : In _ (_ :: _) |- _ => destruct H as [H|H]; try discriminate H
         | H : In _ [] |- _ => destruct H
         end.

Lemma schemaFields_None headers : forall i types,
  schemaFields i headers types = None
  <-> headers <> [] /\ (length types < i + length headers)%nat.
Proof.
  induction headers as [|h rest IH]; intros i types; cbn [schemaFields length].
  - split; [discriminate|]. intros [H _]. contradiction.
  - destruct (types !! i) as [t|] eqn:Ht.
    + apply lookup_lt_Some in Ht.
      destruct (schemaFields (S i) rest types) as [fields|] eqn:Hf.
      * split; [discriminate|]. intros [_ Hlt].
        assert (schemaFields (S i) rest types = None) as Hn; [|congruence].
        apply IH. split; [|lia]. destruct rest; [cbn in Hlt; lia|discriminate].
      * split; [|reflexivity]. intros _. split; [discriminate|].
        apply IH in Hf. lia.
    + apply lookup_ge_None in Ht. split; [|reflexivity].
      intros _. split; [discriminate|lia].
Qed.

Lemma recordToJSONFrom_None record types todo : forall i parts,
  recordToJSONFrom i todo record types parts = None
  <-> exists k h, todo !! k = Some h
                  /\ cellValue record (i + k) <> EmptyString
                  /\ (length types <= i + k)%nat.
Proof.
  induction todo as [|h rest IH]; intros i parts; cbn [recordToJSONFrom].
  - split; [discriminate|]. intros (k & h & Hk & _). discriminate Hk.
  - assert (Hshift : (exists k h0, rest !! k = Some h0
                        /\ cellValue record (S i + k) <> EmptyString
                        /\ (length types <= S i + k)%nat)
                     -> exists k h0, (h :: rest) !! k = Some h0
                        /\ cellValue record (i + k) <> EmptyString
                        /\ (length types <= i + k)%nat).
    { intros (k & h0 & Hk & Hv & Hl). exists (S k), h0.
      replace (i + S k)%nat with (S i + k)%nat by lia. auto. }
    assert (Hback : forall k h0, (h :: rest) !! k = Some h0 ->
                      cellValue record (i + k) <> EmptyString ->
                      (length types <= i + k)%nat -> k <> 0%nat ->
                      exists k h0, rest !! k = Some h0
                        /\ cellValue record (S i + k) <> EmptyString
                        /\ (length types <= S i + k)%nat).
    { intros [|k] h0 Hk Hv Hl Hnz; [contradiction|]. exists k, h0.
      replace (S i + k)%nat with (i + S k)%nat by lia. auto. }
    destruct (isEmpty (cellValue record i)) eqn:He.
    + rewrite IH. split; [exact Hshift|].
      intros (k & h0 & Hk & Hv & Hl). apply (Hback k h0); auto.
      intros ->. rewrite Nat.add_0_r in Hv. apply isEmpty_true in He. contradiction.
    + destruct (types !! i) as [t|] eqn:Ht.
      * apply lookup_lt_Some in Ht.
        assert (Hnz : forall k, (length types <= i + k)%nat -> k <> 0%nat) by (intros; lia).
        destruct (encodeField h t (cellValue record i)); rewrite IH;
          (split; [exact Hshift|]);
          intros (k & h0 & Hk & Hv & Hl); apply (Hback k h0); auto.
      * apply lookup_ge_None in Ht. split; [|reflexivity]. intros _.
        exists 0%nat, h. rewrite Nat.add_0_r. apply isEmpty_false in He. auto.
Qed.

(** X14. Where the types are indexed by the position of a header: building
    the schema text is out of range exactly when there are fewer types
    than headers, and encoding a row exactly when some header beyond the
    last type has a cell that is not empty once trimmed; a header without
    a value never reads its type. *)
Theorem index_out_of_range_iff (record headers : list string) (types : list fieldType) :
  (buildJSONSchema headers types = None <-> (length types < length headers)%nat)
  /\ (recordToJSON record headers types = None
      <-> exists i h, headers !! i = Some h
                      /\ cellValue record i <> EmptyString
                      /\ (length types <= i)%nat).
Proof.
  split.
  - unfold buildJSONSchema.
    pose proof (schemaFields_None headers 0 types) as H. cbn [Nat.add] in H.
    destruct (schemaFields 0 headers types) as [fields|].
    + split; [discriminate|]. intros Hlt.
      assert (@None (list string) = None) as Hn by reflexivity.
      assert (Some fields = None) as Hbad; [|discriminate Hbad].
      apply H. split; [|exact Hlt]. destruct headers; [cbn in Hlt; lia|discriminate].
    + split; [|reflexivity]. intros _. apply H. reflexivity.
  - unfold recordToJSON, recordParts.
    pose proof (recordToJSONFrom_None record types headers 0 []) as H.
    cbn [Nat.add] in H.
    destruct (recordToJSONFrom 0 headers record types []) as [parts|].
    + split; [discriminate|]. intros Hex. apply H in Hex. discriminate Hex.
    + split; [|reflexivity]. intros _. apply H. reflexivity.
Qed.

(** X15. The calls of a conversion that returns, in their order.  A
    result without an error has the lookup and the opening of the input,
    the making of the output directory if one is configured, the creation
    of the output path, the opening of the input, the lookup of the output
    path and, with delete-original, the removal of the input path, and
    nothing else.  A result with an error has one of six shorter
    sequences.  So [os.Remove] is called at most once and as the last
    call: on the input path after a conversion without an error, and on
    the output path, which the conversion has created, after a failed
    write phase.  The paths are the strings passed to the calls: when the
    output path is a spelling of the input file, as for [./x.parquet]
    without an output directory, the removal after a failed write phase
    removes the original. *)
Theorem removals_of_a_conversion (inputFile : string) (cfg : Config)
    (s s' : Sys) (res : Result) :
  convertFile inputFile cfg s = (Returns res, s') ->
  let out := outputPath inputFile cfg in
  let mk := if isEmpty (OutputDir cfg) then [] else [CallMkdirAll (OutputDir cfg)] in
  let start := [CallStat inputFile; CallOpen inputFile] ++ mk ++ [CallCreate out] in
  exists trace,
    calls s' = calls s ++ trace
    /\ (Err res = None ->
          OutputSize res <> 0
          /\ trace = start ++ [CallOpen inputFile; CallStat out]
                     ++ (if DeleteOriginal cfg then [CallRemove inputFile] else []))
    /\ (Err res <> None ->
          OutputSize res = 0
          /\ (trace = [CallStat inputFile]
              \/ trace = [CallStat inputFile; CallOpen inputFile]
              \/ trace = [CallStat inputFile; CallOpen inputFile] ++ mk
              \/ trace = start ++ [CallRemove out]
              \/ trace = start ++ [CallOpen inputFile; CallRemove out]
              \/ trace = start ++ [CallOpen inputFile; CallStat out]))
    /\ (forall p, In (CallRemove p) trace ->
          last trace = Some (CallRemove p)
          /\ ((Err res = None /\ DeleteOriginal cfg = true /\ p = inputFile)
              \/ (Err res <> None /\ p = out /\ In (CallCreate out) trace))).
Proof.
  intros Hrun out mk start.
  destruct (convertFile_trace inputFile cfg s) as (trace & Hc & Hshape & _).
  fold out mk start in Hshape. rewrite Hrun in Hc, Hshape. cbn [fst snd] in Hc, Hshape.
  exists trace. split; [exact Hc|].
  destruct (Err res) as [e|] eqn:Herr.
  - destruct Hshape as [Hsz Hshape].
    split; [intros H; discriminate H|]. split; [intros _; split; assumption|].
    intros p Hp.
    subst start mk.
    destruct (isEmpty (OutputDir cfg));
      destruct Hshape as [-> | [-> | [-> | [-> | [-> | ->]]]]];
      cbn [app In] in Hp |- *;
      repeat match goal with
             | H : _ \/ _ |- _ => destruct H as [H|H]; try discriminate H
             | H : False |- _ => destruct H
             end;
      injection Hp as <-;
      (split; [reflexivity|]); right;
      (split; [discriminate|]); (split; [reflexivity|]); auto 8.
  - destruct Hshape as (_ & Hsz & ->).
    split; [intros _; split; [exact Hsz|reflexivity]|].
    split; [intros H; contradiction|].
    intros p Hp. subst start mk.
    destruct (isEmpty (OutputDir cfg)); destruct (DeleteOriginal cfg);
      cbn [app In] in Hp |- *;
      repeat match goal with
             | H : _ \/ _ |- _ => destruct H as [H|H]; try discriminate H
             | H : False |- _ => destruct H
             end;
      injection Hp as <-;
      (split; [reflexivity|]); left; auto.
Qed.

(** X16. An input that cannot be looked up, cannot be opened, or has no
    readable header row is given up at once: the conversion returns a
    result with an error and no output size, the file system is as it
    was, and nothing was called but the lookup and the opening of the
    input, so no directory or output file is created and nothing is
    removed. *)
Theorem unreadable_input_is_left_alone (inputFile : string) (cfg : Config) (s : Sys) :
  os_Stat inputFile (world s) = None
  \/ openCSV inputFile (delimiterOf cfg) (world s) = None
  \/ openCSV inputFile (delimiterOf cfg) (world s) = Some []
  \/ (exists rest, openCSV inputFile (delimiterOf cfg) (world s)
                   = Some (Malformed :: rest)) ->
  exists res trace,
    convertFile inputFile cfg s = (Returns res, mkSys (world s) (calls s ++ trace))
    /\ InputFile res = inputFile /\ Err res <> None /\ OutputSize res = 0
    /\ (trace = [CallStat inputFile]
        \/ trace = [CallStat inputFile; CallOpen inputFile]).
Proof.
  intros H. unfold convertFile, convertWrite. run_steps.
  destruct (os_Stat inputFile (world s)) as [info|] eqn:Hstat; run_steps.
  2:{ do 2 eexists. split; [reflexivity|]. cbn. repeat split; auto; try discriminate. }
  unfold detectSchema. run_steps.
  destruct H as [H|[H|[H|[rest H]]]]; [discriminate H| | |]; rewrite H; run_steps;
    unfold detectSchemaFrom, csvRead; cbn [pending newReader fst]; run_steps;
    (do 2 eexists; split; [rewrite <- app_assoc; reflexivity|]; cbn;
     repeat split; auto; try discriminate).
Qed.

(** X17. Rows do not fail the write phase.  Once the output file and its
    writer exist and the header row of the input is read, [writeParquet]
    reports success whenever the writer can be finalized, however many
    rows were malformed or rejected by the writer, even all of them. *)
Theorem row_errors_do_not_fail_the_write (inputFile outFile : string) (delim : ascii)
    (headers : list string) (types : list fieldType) (schema : string)
    (batchSize : Z) (s : Sys) (fw : FileWriter) (pw : ParquetWriter) (w1 w2 : World)
    (header : list string) (outcomes : list ReadOutcome) :
  NewLocalFileWriter outFile (world s) = (Some fw, w1) ->
  NewJSONWriter schema fw w1 = (Some pw, w2) ->
  openCSV inputFile delim w2 = Some (Row header :: outcomes) ->
  (forall w, fst (pw_WriteStop pw w) = true) ->
  batchSize <> 0 -> length types = length headers ->
  exists s',
    writeParquet inputFile outFile delim headers types schema batchSize s
    = (Returns None, s')
    /\ calls s' = calls s ++ [CallCreate outFile; CallOpen inputFile].
Proof.
  intros Hfw Hpw Hopen Hstop Hbs Hlen. unfold writeParquet. run_steps.
  rewrite Hfw. run_steps. rewrite Hpw. run_steps. rewrite Hopen. run_steps.
  match goal with |- context [writeRows ?a ?b ?c ?d ?e ?f ?g] =>
    pose proof (writeRows_calls a c d e b f g) as Hc;
    destruct (writeRows_returns a c d e b Hbs Hlen f g) as (n & s1 & Hr)
  end.
  rewrite Hr in Hc |- *. run_steps.
  specialize (Hstop (world s1)).
  destruct (pw_WriteStop pw (world s1)) as [stopped w3]. cbn [fst] in Hstop. subst stopped.
  run_steps. eexists. split; [reflexivity|]. cbn [calls].
  rewrite Hc. cbn [calls]. rewrite ?app_nil_r, <- ?app_assoc. reflexivity.
Qed.

(** [ConvertAll] gives results whenever no conversion can stop the
    program. *)
Lemma ConvertAll_exists cfg s :
  BatchSize cfg <> 0 -> exists rs, ConvertAll cfg s rs.
Proof.
  intros Hbs.
  destruct (resolveFiles cfg s) as [[[early|[|f files]]|] s1] eqn:Hres.
  - exists early. eapply all_unresolved. exact Hres.
  - exists []. eapply all_no_files. exact Hres.
  - destruct (batch_finishes cfg (f :: files) Hbs
                (batchMeasure (startBatch (f :: files) s1))
                (startBatch (f :: files) s1))
      as (b & Hrun & Hfin);
      [lia|apply batchInv_start|reflexivity|].
    exists (results b). eapply all_batch; [exact Hres|discriminate|exact Hrun|exact Hfin].
  - exfalso. revert Hres. unfold resolveFiles. run_steps.
    destruct (os_Stat (InputPath cfg) (world s)) as [info|]; run_steps; [|discriminate].
    destruct (IsDir info); run_steps; [|discriminate].
    destruct (filepath_Glob _ (world s)); discriminate.
Qed.

(** X18. With a batch size other than zero [ConvertAll] has a result,
    and whatever it returns, in whatever order the conversions ran,
    follows the input: one result with an error when the input path
    cannot be looked up or the directory cannot be listed; for a directory
    one result for each [*.csv] file found, in the order found, so none
    for none; and for any other path one result, for that path, whatever
    its extension. *)
Theorem ConvertAll_one_result_per_file (cfg : Config) (s : Sys) :
  BatchSize cfg <> 0 ->
  (exists rs, ConvertAll cfg s rs)
  /\ forall rs, ConvertAll cfg s rs ->
       match os_Stat (InputPath cfg) (world s) with
       | None =>
         exists e, rs = [mkResult (InputPath cfg) EmptyString 0 0 (Some e)]
       | Some info =>
         if IsDir info then
           match filepath_Glob (filepathJoin [InputPath cfg; "*.csv"%string]) (world s) with
           | None =>
             exists e, rs = [mkResult (InputPath cfg) EmptyString 0 0 (Some e)]
           | Some files => InputFile <$> rs = files
           end
         else InputFile <$> rs = [InputPath cfg]
       end.
Proof.
  intros Hbs. split; [apply ConvertAll_exists, Hbs|].
  intros rs Hall.
  pose proof (fun files s' H => ConvertAll_order cfg s files s' rs H Hall) as Horder.
  assert (Hearly : forall early s', resolveFiles cfg s = (Returns (inl early), s') ->
                                    rs = early).
  { intros early s1 Hres.
    destruct Hall as [early' s2 H|s2 H|files s2 b H _ _ _];
      rewrite Hres in H; congruence. }
  revert Horder Hearly. unfold resolveFiles. run_steps.
  destruct (os_Stat (InputPath cfg) (world s)) as [info|]; run_steps.
  2:{ intros _ Hearly. eexists. eapply Hearly. reflexivity. }
  destruct (IsDir info); run_steps.
  - destruct (filepath_Glob _ (world s)) as [files|]; intros Horder Hearly.
    + eapply Horder. reflexivity.
    + eexists. eapply Hearly. reflexivity.
  - intros Horder _. eapply Horder. reflexivity.
Qed.
End PipelineFacts.

Section PipelineExamples.
Local Open Scope string_scope.

Lemma removals_of_a_conversion_witness :
  let cfg := mkConfig "d/in.csv" "out" true "info" 10000 "," 100 in
  let w : MemWorld := [("d/in.csv", CsvFile [Row ["a"; "b"]; Row ["1"; "x"]])] in
  exists res s',
    @convertFile sampleLib memRuntime "d/in.csv" cfg (memSys w) = (Returns res, s')
    /\ Err res = None
    /\ @calls memRuntime s'
       = [CallStat "d/in.csv"; CallOpen "d/in.csv"; CallMkdirAll "out";
          CallCreate "out/in.parquet"; CallOpen "d/in.csv";
          CallStat "out/in.parquet"; CallRemove "d/in.csv"].
Proof.
  intros cfg w.
  destruct (@convertFile sampleLib memRuntime "d/in.csv" cfg (memSys w))
    as [[res|] s'] eqn:Hrun; [|vm_compute in Hrun; discriminate Hrun].
  assert (Herr : Err res = None)
    by (vm_compute in Hrun; injection Hrun as <- _; reflexivity).
  destruct (@removals_of_a_conversion sampleLib memRuntime "d/in.csv" cfg
              (memSys w) s' res Hrun) as (trace & Hc & Hok & _).
  destruct (Hok Herr) as [_ Htr].
  exists res, s'. split; [reflexivity|]. split; [exact Herr|].
  rewrite Hc, Htr. reflexivity.
Defined.

Lemma unreadable_input_is_left_alone_witness :
  let cfg := mkConfig "d/in.csv" "out" true "info" 10000 "," 100 in
  let w : MemWorld := [("d/in.csv", CsvFile [Malformed; Row ["1"; "x"]])] in
  @openCSV memRuntime "d/in.csv" (delimiterOf cfg) w = Some [Malformed; Row ["1"; "x"]]
  /\ exists res trace,
       @convertFile sampleLib memRuntime "d/in.csv" cfg (memSys w)
       = (Returns res, @mkSys memRuntime w trace)
       /\ Err res <> None.
Proof.
  intros cfg w. split; [reflexivity|].
  destruct (@unreadable_input_is_left_alone sampleLib memRuntime "d/in.csv" cfg (memSys w))
    as (res & trace & Hrun & _ & Herr & _).
  { right. right. right. eexists. reflexivity. }
  exists res, trace. split; [exact Hrun|exact Herr].
Defined.

Lemma row_errors_do_not_fail_the_write_witness :
  let w : MemWorld := [("in.csv", CsvFile [Row ["a"]; Malformed; Row ["1"]; Malformed])] in
  10 <> 0
  /\ exists s',
       @writeParquet sampleLib memRuntime "in.csv" "out.parquet" ","
         ["a"] [typeInt64] "{}" 10 (memSys w) = (Returns None, s').
Proof.
  intros w. split; [discriminate|].
  destruct (@row_errors_do_not_fail_the_write sampleLib memRuntime
              "in.csv" "out.parquet" "," ["a"] [typeInt64] "{}" 10 (memSys w)
              "out.parquet" "out.parquet"
              (memPut "out.parquet" (ParquetFile []) w)
              (memPut "out.parquet" (ParquetFile []) w)
              ["a"] [Malformed; Row ["1"]; Malformed])
    as (s' & Hrun & _);
    [reflexivity|reflexivity|reflexivity|intros w0; reflexivity|discriminate|reflexivity|].
  exists s'. exact Hrun.
Defined.

Lemma ConvertAll_one_result_per_file_witness :
  let cfg := mkConfig "d/in.csv" EmptyString false "info" 10000 "," 100 in
  let w : MemWorld := [("d/in.csv", CsvFile [Row ["a"; "b"]; Row ["1"; "x"]])] in
  BatchSize cfg <> 0
  /\ exists rs, @ConvertAll sampleLib memRuntime cfg (memSys w) rs.
Proof.
  intros cfg w.
  assert (Hbs : BatchSize cfg <> 0) by (vm_compute; discriminate).
  split; [exact Hbs|].
  exact (proj1 (@ConvertAll_one_result_per_file sampleLib memRuntime cfg (memSys w) Hbs)).
Defined.
End PipelineExamples.
